(** * CODE_MARK: the detect -> link -> persist core

    A shallow embedding of [layer1_linker/linker.py], [layer1_mapper/mapper.py],
    [layer1_scanner/scanner.py] and [security/audit_logger.py], with the
    properties of the design document stated over it.

    Conventions of the embedding.
    - A Python [str] is a [string]; a character is a code point below 256.
    - A Python [float] is the rational number it stands for, in [Q]; an
      operation on floats gives the float nearest to the exact result
      ([Py.float]).
    - A Python [dict] in insertion order is an association list.
    - A SQLite table is the list of its rows in insertion order.  Foreign
      keys are not enforced ([PRAGMA foreign_keys] is off on a fresh
      [sqlite3.connect]), so [ON DELETE CASCADE] has no effect and is absent.
    - [uuid.uuid4()] and [datetime.utcnow().isoformat()] are inputs of the
      operation that calls them. *)

From Stdlib Require Import List String Ascii Bool Arith ZArith QArith Lia.
From Stdlib Require Import DecimalString DecimalNat Permutation.
Import ListNotations.

Close Scope Q_scope.
Open Scope string_scope.
Open Scope list_scope.
Open Scope nat_scope.

(** ** Python string methods used by the code *)

Module Py.

(** [str.isspace] on one character. *)
Definition isspace (c : ascii) : bool :=
  let n := nat_of_ascii c in
  ((9 <=? n) && (n <=? 13)) || ((28 <=? n) && (n <=? 32))
  || (n =? 133) || (n =? 160).

(** [str.lower] on one character: A-Z, and the upper-case letters of the
    Latin-1 block. *)
Definition lower_char (c : ascii) : ascii :=
  let n := nat_of_ascii c in
  if ((65 <=? n) && (n <=? 90))
     || ((192 <=? n) && (n <=? 222) && negb (n =? 215))
  then ascii_of_nat (n + 32) else c.

Fixpoint lower (s : string) : string :=
  match s with
  | EmptyString => EmptyString
  | String c r => String (lower_char c) (lower r)
  end.

Fixpoint lstrip (s : string) : string :=
  match s with
  | EmptyString => EmptyString
  | String c r => if isspace c then lstrip r else s
  end.

Fixpoint rstrip (s : string) : string :=
  match s with
  | EmptyString => EmptyString
  | String c r =>
      match rstrip r with
      | EmptyString => if isspace c then EmptyString else String c EmptyString
      | r' => String c r'
      end
  end.

Definition strip (s : string) : string := rstrip (lstrip s).

(** [bool(s)] of a string: true unless empty. *)
Definition truthy (s : string) : bool :=
  match s with EmptyString => false | _ => true end.

Fixpoint zeros (k : nat) : string :=
  match k with O => EmptyString | S k' => String "0"%char (zeros k') end.

(** [str(n)] for a non-negative [int]. *)
Definition decimal (n : nat) : string := NilEmpty.string_of_uint (Nat.to_uint n).

(** The format spec [{n:06d}]: decimal, zero-padded on the left to width 6. *)
Definition format_06d (n : nat) : string :=
  let d := decimal n in (zeros (6 - String.length d) ++ d)%string.

(** The nearest integer to [n / d], ties to even. *)
Definition round_half_even (n d : Z) : Z :=
  let q := (n / d)%Z in
  let r := (n mod d)%Z in
  match (2 * r ?= d)%Z with
  | Lt => q
  | Gt => (q + 1)%Z
  | Eq => if Z.odd q then (q + 1)%Z else q
  end.

(** The value of the [float] (binary64) nearest to [n / d], ties to even.
    The numbers at hand are counts, lengths and their quotients, far from
    the ranges where a float overflows or loses precision near zero. *)
Definition float_pos (n d : positive) : Q :=
  let e0 := (Z.log2 (Zpos n) - Z.log2 (Zpos d))%Z in
  let ge :=
    if (0 <=? e0)%Z then (Zpos d * 2 ^ e0 <=? Zpos n)%Z
    else (Zpos d <=? Zpos n * 2 ^ (- e0))%Z in
  let e := if ge then e0 else (e0 - 1)%Z in
  let s := (52 - e)%Z in
  Qred (if (0 <=? s)%Z
        then (round_half_even (Zpos n * 2 ^ s) (Zpos d) # Z.to_pos (2 ^ s))%Q
        else ((round_half_even (Zpos n) (Zpos d * 2 ^ (- s)) * 2 ^ (- s))%Z # 1)%Q).

Definition float (x : Q) : Q :=
  match Qnum x with
  | Z0 => 0%Q
  | Zpos n => float_pos n (Qden x)
  | Zneg n => (- float_pos n (Qden x))%Q
  end.

(** [x / y] and [x + y] on floats: the exact result, rounded. *)
Definition fdiv (x y : Q) : Q := float (x / y)%Q.
Definition fadd (x y : Q) : Q := float (x + y)%Q.

(** [round(x, 2)] on a float: the exact value of [x] rounded to the nearest
    multiple of 1/100, ties to even, and the float nearest to that. *)
Definition round2 (x : Q) : Q :=
  float (round_half_even (Qnum x * 100) (Zpos (Qden x)) # 100)%Q.

End Py.

(** ** [difflib.SequenceMatcher(None, a, b).ratio()]

    The standard library's matcher with [isjunk=None] and [autojunk=True]:
    no character is junk, and when [b] has 200 characters or more, those that
    occur more than [len(b) // 100 + 1] times are "popular" and are left out
    of the index [b2j]. *)

Module difflib.

Section SequenceMatcher.

Variables a b : list ascii.

Definition at_ (l : list ascii) (i : nat) : ascii := nth i l zero.

Definition popular (c : ascii) : bool :=
  (200 <=? List.length b) && (List.length b / 100 + 1 <? count_occ ascii_dec b c).

(** [b2j.get(c, [])]: the positions of [c] in [b], ascending. *)
Definition b2j (c : ascii) : list nat :=
  if popular c then []
  else filter (fun j => Ascii.eqb (at_ b j) c) (seq 0 (List.length b)).

(** [j2len.get(j, 0)] on a dict kept as an association list. *)
Fixpoint j2len_get (j2len : list (nat * nat)) (j : nat) : nat :=
  match j2len with
  | [] => 0
  | (j', k) :: rest => if j' =? j then k else j2len_get rest j
  end.

(** A [Match(i, j, size)] triple. *)
Definition Match : Type := (nat * nat * nat)%type.
Definition size (m : Match) : nat := snd m.

(** The loop [for j in b2j.get(a[i], nothing)] of [find_longest_match]. *)
Fixpoint inner_loop (i blo bhi : nat) (j2len : list (nat * nat))
    (js : list nat) (newj2len : list (nat * nat)) (best : Match)
    : list (nat * nat) * Match :=
  match js with
  | [] => (newj2len, best)
  | j :: js' =>
      if j <? blo then inner_loop i blo bhi j2len js' newj2len best
      else if bhi <=? j then (newj2len, best)
      else
        let k := (match j with O => 0 | S j' => j2len_get j2len j' end) + 1 in
        let best' := if size best <? k then (i + 1 - k, j + 1 - k, k) else best in
        inner_loop i blo bhi j2len js' ((j, k) :: newj2len) best'
  end.

(** The loop [for i in range(alo, ahi)]. *)
Fixpoint outer_loop (is_ : list nat) (blo bhi : nat)
    (j2len : list (nat * nat)) (best : Match) : Match :=
  match is_ with
  | [] => best
  | i :: is' =>
      let '(newj2len, best') :=
        inner_loop i blo bhi j2len (b2j (at_ a i)) [] best in
      outer_loop is' blo bhi newj2len best'
  end.

(** The first [while] loop: extend the match to the left.  No character is
    junk, so the test [not isbjunk(...)] always holds. *)
Fixpoint extend_left (fuel alo blo : nat) (m : Match) : Match :=
  match fuel with
  | O => m
  | S fuel' =>
      let '(besti, bestj, bestsize) := m in
      if (alo <? besti) && (blo <? bestj)
         && Ascii.eqb (at_ a (besti - 1)) (at_ b (bestj - 1))
      then extend_left fuel' alo blo (besti - 1, bestj - 1, bestsize + 1)
      else m
  end.

(** The second [while] loop: extend the match to the right. *)
Fixpoint extend_right (fuel ahi bhi : nat) (m : Match) : Match :=
  match fuel with
  | O => m
  | S fuel' =>
      let '(besti, bestj, bestsize) := m in
      if (besti + bestsize <? ahi) && (bestj + bestsize <? bhi)
         && Ascii.eqb (at_ a (besti + bestsize)) (at_ b (bestj + bestsize))
      then extend_right fuel' ahi bhi (besti, bestj, bestsize + 1)
      else m
  end.

(** The last two [while] loops extend over junk only and never run. *)
Definition find_longest_match (alo ahi blo bhi : nat) : Match :=
  let best := outer_loop (seq alo (ahi - alo)) blo bhi [] (alo, blo, 0) in
  let best := extend_left (List.length a) alo blo best in
  extend_right (List.length a) ahi bhi best.

(** [sum(triple[-1] for triple in self.get_matching_blocks())].  The work
    queue of [get_matching_blocks] is unfolded into the two recursive calls;
    every call looks at a strictly shorter slice of [a]. *)
Fixpoint matches (fuel alo ahi blo bhi : nat) : nat :=
  match fuel with
  | O => 0
  | S fuel' =>
      let '(i, j, k) := find_longest_match alo ahi blo bhi in
      if k =? 0 then 0
      else
        k
        + (if (alo <? i) && (blo <? j) then matches fuel' alo i blo j else 0)
        + (if (i + k <? ahi) && (j + k <? bhi)
           then matches fuel' (i + k) ahi (j + k) bhi else 0)
  end.

(** [_calculate_ratio(matches, len(a) + len(b))]:
    [2.0 * matches / length], or [1.0] for two empty strings. *)
Definition ratio_of_lists : Q :=
  let total := (List.length a + List.length b)%nat in
  if total =? 0 then 1%Q
  else
    Py.fdiv
      (inject_Z (2 * Z.of_nat
                   (matches (List.length a) 0 (List.length a) 0 (List.length b))))
      (inject_Z (Z.of_nat total)).

End SequenceMatcher.

Definition ratio (a b : string) : Q :=
  ratio_of_lists (list_ascii_of_string a) (list_ascii_of_string b).

End difflib.

(** ** Python dicts in insertion order *)

Module dict.

Section Dict.

Context {K V : Type} (eqb : K -> K -> bool).

(** [d[k] = v]: replace in place when the key is there, append otherwise. *)
Fixpoint set (d : list (K * V)) (k : K) (v : V) : list (K * V) :=
  match d with
  | [] => [(k, v)]
  | (k', v') :: rest =>
      if eqb k' k then (k, v) :: rest else (k', v') :: set rest k v
  end.

Fixpoint get (d : list (K * V)) (k : K) : option V :=
  match d with
  | [] => None
  | (k', v') :: rest => if eqb k' k then Some v' else get rest k
  end.

End Dict.

End dict.

(** ** layer1_linker/linker.py *)

Module linker.

(** A fragment as the scanner builds it: a dict with the keys ["type"],
    ["value"] and ["source"], all strings. *)
Record Fragment : Type := {
  type_ : string;
  value : string;
  source : string
}.

(** A value of the mapping: [{"entity_id": ..., "confidence": ...}].  The
    mapper reads the confidence with [info.get("confidence", 1.0)], so the
    key may be absent. *)
Record Info : Type := {
  entity_id : string;
  confidence : option Q
}.

Definition Mapping : Type := list (nat * Info).

(** [entity_groups]: entity id -> the ["members"] list of the group. *)
Definition Groups : Type := list (string * list Fragment).

(** [str(row.get("value", "")).lower().strip()] and
    [v["value"].lower().strip()]. *)
Definition normalize (v : string) : string := Py.strip (Py.lower v).

(** One step of the builtin [max]: the running maximum changes only for a
    strictly larger item. *)
Definition qmax (best x : Q) : Q := if Qle_bool x best then best else x.

(** [max(similarities) if similarities else 0]. *)
Definition max_similarity (val : string) (members : list Fragment) : Q :=
  match map (fun v => difflib.ratio val (normalize (value v))) members with
  | [] => 0%Q
  | s :: ss => fold_left qmax ss s
  end.

(** The loop [for eid, group in entity_groups.items()]: the first group
    whose best similarity reaches the threshold takes the row. *)
Fixpoint match_existing (val : string) (score_threshold : Q) (row : Fragment)
    (groups : Groups) : option (string * Q * Groups) :=
  match groups with
  | [] => None
  | (eid, members) :: rest =>
      let m := max_similarity val members in
      if Qle_bool score_threshold m
      then Some (eid, m, (eid, members ++ [row]) :: rest)
      else
        match match_existing val score_threshold row rest with
        | Some (e, m', rest') => Some (e, m', (eid, members) :: rest')
        | None => None
        end
  end.

(** [f"E-{entity_counter:06d}"]. *)
Definition entity_name (entity_counter : nat) : string :=
  ("E-" ++ Py.format_06d entity_counter)%string.

(** The variables the main loop updates.  [df] holds the two columns the
    loop writes, [entity_id] and [score], one row per fragment seen. *)
Record State : Type := {
  entity_groups : Groups;
  mapping : Mapping;
  entity_counter : nat;
  df : list (option string * Q)
}.

Definition initial : State :=
  {| entity_groups := []; mapping := []; entity_counter := 0; df := [] |}.

(** The body of [for i, row in df.iterrows()]. *)
Definition step (score_threshold : Q) (st : State) (i : nat) (row : Fragment)
    : State :=
  let val := normalize (value row) in
  if negb (Py.truthy val) then
    {| entity_groups := entity_groups st;
       mapping := mapping st;
       entity_counter := entity_counter st;
       df := df st ++ [(None, 0%Q)] |}
  else
    match match_existing val score_threshold row (entity_groups st) with
    | Some (eid, m, groups') =>
        {| entity_groups := groups';
           mapping :=
             dict.set Nat.eqb (mapping st) i
               {| entity_id := eid; confidence := Some (Py.round2 m) |};
           entity_counter := entity_counter st;
           df := df st ++ [(Some eid, Py.round2 m)] |}
    | None =>
        let entity_counter' := entity_counter st + 1 in
        let eid := entity_name entity_counter' in
        {| entity_groups := dict.set String.eqb (entity_groups st) eid [row];
           mapping :=
             dict.set Nat.eqb (mapping st) i
               {| entity_id := eid; confidence := Some 1%Q |};
           entity_counter := entity_counter';
           df := df st ++ [(Some eid, 1%Q)] |}
    end.

Fixpoint loop (score_threshold : Q) (st : State) (i : nat)
    (rows : list Fragment) : State :=
  match rows with
  | [] => st
  | row :: rest => loop score_threshold (step score_threshold st i row) (S i) rest
  end.

(** [df.fillna({"entity_id": "N/A", "score": 0.0})]. *)
Definition fillna (r : option string * Q) : string * Q :=
  match fst r with
  | Some eid => (eid, snd r)
  | None => ("N/A", snd r)
  end.

(** [cluster_fragments(fragments, score_threshold)].  With no fragment the
    frame has no ["value"] column and the function returns at once. *)
Definition cluster_fragments (fragments : list Fragment) (score_threshold : Q)
    : Mapping * list (string * Q) :=
  match fragments with
  | [] => ([], [])
  | _ =>
      let st := loop score_threshold initial 0 fragments in
      (mapping st, map fillna (df st))
  end.

(** [len(set(v["entity_id"] for v in mapping.values()))], as [app.py]
    counts the entities of a pass. *)
Definition entity_ids (m : Mapping) : list string :=
  nodup string_dec (map (fun kv => entity_id (snd kv)) m).

Definition entity_count (m : Mapping) : nat := List.length (entity_ids m).

End linker.

(** ** The SQLite operators the queries use *)

Module sqlite.

(** The built-in [LIKE] folds case for ASCII letters only. *)
Definition tolower (c : ascii) : ascii :=
  let n := nat_of_ascii c in
  if (65 <=? n) && (n <=? 90) then ascii_of_nat (n + 32) else c.

Definition is_ascii (c : ascii) : bool := nat_of_ascii c <? 128.

(** Two characters agree under [LIKE]. *)
Definition like_char (c c2 : ascii) : bool :=
  Ascii.eqb c c2
  || (is_ascii c && is_ascii c2 && Ascii.eqb (tolower c) (tolower c2)).

(** [s LIKE pattern] with no [ESCAPE] clause: ["%"] stands for any run of
    characters, ["_"] for any one character. *)
Fixpoint like_list (pattern s : list ascii) : bool :=
  match pattern with
  | [] => match s with [] => true | _ => false end
  | c :: p' =>
      if Ascii.eqb c "%"%char then
        (fix any_run (s : list ascii) : bool :=
           like_list p' s
           || match s with [] => false | _ :: s' => any_run s' end) s
      else
        match s with
        | [] => false
        | c2 :: s' =>
            (Ascii.eqb c "_"%char || like_char c c2) && like_list p' s'
        end
  end.

(** The text the matcher reads: [sqlite3_value_text] gives a C string, so
    the characters before the first U+0000. *)
Fixpoint c_str (s : list ascii) : list ascii :=
  match s with
  | [] => []
  | c :: s' => if Ascii.eqb c zero then [] else c :: c_str s'
  end.

Definition c_string (s : string) : string :=
  string_of_list_ascii (c_str (list_ascii_of_string s)).

(** The length in bytes of the UTF-8 text, as [sqlite3_value_bytes] gives
    it: one byte for a character below U+0080, two for the others. *)
Fixpoint utf8_length (s : string) : N :=
  match s with
  | EmptyString => 0%N
  | String c r => ((if is_ascii c then 1 else 2) + utf8_length r)%N
  end.

(** [SQLITE_MAX_LIKE_PATTERN_LENGTH]. *)
Definition max_like_pattern_length : N := 50000%N.

(** [s LIKE pattern], one evaluation: [None] stands for the error "LIKE or
    GLOB pattern too complex" of a pattern longer than the limit; otherwise
    the two texts are compared up to their first U+0000. *)
Definition like (s pattern : string) : option bool :=
  if (max_like_pattern_length <? utf8_length pattern)%N then None
  else Some (like_list (c_str (list_ascii_of_string pattern))
               (c_str (list_ascii_of_string s))).

(** [ORDER BY col DESC] on a TEXT column: binary collation, rows with equal
    keys kept in scan order. *)
Section OrderBy.

Context {A : Type} (key : A -> string).

Fixpoint insert_desc (x : A) (l : list A) : list A :=
  match l with
  | [] => [x]
  | y :: l' =>
      if String.ltb (key x) (key y) then y :: insert_desc x l' else x :: l
  end.

Definition order_by_desc (l : list A) : list A :=
  fold_right insert_desc [] l.

End OrderBy.

(** [LIMIT n]: a negative [n] means no limit. *)
Definition limit {A : Type} (n : Z) (l : list A) : list A :=
  if (n <? 0)%Z then l else firstn (Z.to_nat n) l.

End sqlite.

(** ** layer1_mapper/mapper.py *)

Module mapper.

Import linker.

(** Rows of the three tables of [init_db]. *)
Record Entity : Type := {
  e_entity_id : string;
  fragment_count : nat;
  e_confidence : Q;
  created_at : string;
  updated_at : string
}.

Record FragmentRow : Type := {
  frag_id : string;
  f_entity_id : string;
  frag_type : string;
  f_value : string;
  f_source : string;
  f_confidence : Q;
  f_created_at : string
}.

Record Erasure : Type := {
  erasure_id : string;
  er_entity_id : string;
  fragments_deleted : nat;
  requested_by : string;
  reason : string;
  timestamp : string
}.

Record Store : Type := {
  entities : list Entity;
  fragments : list FragmentRow;
  erasures : list Erasure
}.

(** The database right after the first [init_db()]. *)
Definition init_db : Store :=
  {| entities := []; fragments := []; erasures := [] |}.

(** What a statement or a subscript can raise. *)
Inductive exn : Type :=
| IntegrityError (table_column : string)
| IndexError
| OperationalError (message : string).

(** [str(e)]. *)
Definition str_exn (e : exn) : string :=
  match e with
  | IntegrityError tc => ("UNIQUE constraint failed: " ++ tc)%string
  | IndexError => "list index out of range"
  | OperationalError message => message
  end.

Inductive result (A : Type) : Type :=
| Ok (a : A)
| Raise (e : exn).

Arguments Ok {A} a.
Arguments Raise {A} e.

Definition bind {A B : Type} (r : result A) (k : A -> result B) : result B :=
  match r with
  | Ok a => k a
  | Raise e => Raise e
  end.

Notation "x <- r ;; k" := (bind r (fun x => k))
  (at level 61, r at next level, right associativity).

(** *** Statements *)

(** [DELETE FROM fragments WHERE entity_id=?]. *)
Definition delete_fragments_of (eid : string) (s : Store) : Store :=
  {| entities := entities s;
     fragments := filter (fun f => negb (f_entity_id f =? eid)%string) (fragments s);
     erasures := erasures s |}.

(** [DELETE FROM entities WHERE entity_id=?]. *)
Definition delete_entity (eid : string) (s : Store) : Store :=
  {| entities := filter (fun e => negb (e_entity_id e =? eid)%string) (entities s);
     fragments := fragments s;
     erasures := erasures s |}.

(** [DELETE FROM fragments WHERE frag_id=?]. *)
Definition delete_fragment_row (fid : string) (s : Store) : Store :=
  {| entities := entities s;
     fragments := filter (fun f => negb (frag_id f =? fid)%string) (fragments s);
     erasures := erasures s |}.

(** [INSERT INTO entities ...]; [entity_id] is the primary key. *)
Definition insert_entity (e : Entity) (s : Store) : result Store :=
  if existsb (fun e' => (e_entity_id e' =? e_entity_id e)%string) (entities s)
  then Raise (IntegrityError "entities.entity_id")
  else Ok {| entities := entities s ++ [e];
             fragments := fragments s;
             erasures := erasures s |}.

(** [INSERT INTO fragments ...]; [frag_id] is the primary key. *)
Definition insert_fragment (f : FragmentRow) (s : Store) : result Store :=
  if existsb (fun f' => (frag_id f' =? frag_id f)%string) (fragments s)
  then Raise (IntegrityError "fragments.frag_id")
  else Ok {| entities := entities s;
             fragments := fragments s ++ [f];
             erasures := erasures s |}.

(** [INSERT INTO erasures ...]; [erasure_id] is the primary key. *)
Definition insert_erasure (r : Erasure) (s : Store) : result Store :=
  if existsb (fun r' => (erasure_id r' =? erasure_id r)%string) (erasures s)
  then Raise (IntegrityError "erasures.erasure_id")
  else Ok {| entities := entities s;
             fragments := fragments s;
             erasures := erasures s ++ [r] |}.

(** [UPDATE entities SET fragment_count=?, updated_at=? WHERE entity_id=?]. *)
Definition update_entity (new_count : nat) (now eid : string) (s : Store) : Store :=
  {| entities :=
       map (fun e =>
              if (e_entity_id e =? eid)%string
              then {| e_entity_id := e_entity_id e;
                      fragment_count := new_count;
                      e_confidence := e_confidence e;
                      created_at := created_at e;
                      updated_at := now |}
              else e) (entities s);
     fragments := fragments s;
     erasures := erasures s |}.

(** [SELECT COUNT( * ) FROM fragments WHERE entity_id=?]. *)
Definition count_fragments_of (eid : string) (s : Store) : nat :=
  List.length (filter (fun f => (f_entity_id f =? eid)%string) (fragments s)).

(** [SELECT COUNT( * ) FROM entities WHERE entity_id=?]. *)
Definition count_entities (eid : string) (s : Store) : nat :=
  List.length (filter (fun e => (e_entity_id e =? eid)%string) (entities s)).

(** *** save_mapping *)

(** An element of a list in [grouped]. *)
Record Grouped : Type := {
  g_type : string;
  g_value : string;
  g_source : string;
  g_confidence : Q
}.

(** [grouped.setdefault(eid, []).append(x)]. *)
Fixpoint setdefault_append (grouped : list (string * list Grouped))
    (eid : string) (x : Grouped) : list (string * list Grouped) :=
  match grouped with
  | [] => [(eid, [x])]
  | (k, l) :: rest =>
      if (k =? eid)%string then (k, l ++ [x]) :: rest
      else (k, l) :: setdefault_append rest eid x
  end.

(** The loop [for idx, info in mapping.items()]; [fragments[idx]] raises
    when [idx] is out of range. *)
Fixpoint group (m : Mapping) (frags : list Fragment)
    (grouped : list (string * list Grouped))
    : result (list (string * list Grouped)) :=
  match m with
  | [] => Ok grouped
  | (idx, info) :: rest =>
      let eid := entity_id info in
      let conf := match confidence info with Some c => c | None => 1%Q end in
      match nth_error frags idx with
      | None => Raise IndexError
      | Some frag =>
          group rest frags
            (setdefault_append grouped eid
               {| g_type := type_ frag;
                  g_value := value frag;
                  g_source := source frag;
                  g_confidence := conf |})
      end
  end.

(** [sum(f["confidence"] for f in frag_list) / len(frag_list)], the sum
    taken from left to right.  (From Python 3.12 on, [sum] carries a
    correction term for floats and can differ in the last bit; nothing below
    depends on the value.) *)
Definition avg_conf (frag_list : list Grouped) : Q :=
  Py.fdiv (fold_left Py.fadd (map g_confidence frag_list) 0%Q)
    (inject_Z (Z.of_nat (List.length frag_list))).

(** The loop [for i, frag in enumerate(frag_list)]; [uuid4 i] is the value of
    the [uuid.uuid4()] call of round [i]. *)
Fixpoint insert_fragments (timestamp : string) (uuid4 : nat -> string)
    (eid : string) (i : nat) (frag_list : list Grouped) (s : Store)
    : result Store :=
  match frag_list with
  | [] => Ok s
  | frag :: rest =>
      s' <- insert_fragment
              {| frag_id := (eid ++ "-" ++ uuid4 i)%string;
                 f_entity_id := eid;
                 frag_type := g_type frag;
                 f_value := g_value frag;
                 f_source := g_source frag;
                 f_confidence := g_confidence frag;
                 f_created_at := timestamp |} s ;;
      insert_fragments timestamp uuid4 eid (S i) rest s'
  end.

(** The loop [for eid, frag_list in grouped.items()]; [uuid4 g i] is the
    value drawn for fragment [i] of the group of rank [g]. *)
Fixpoint insert_groups (timestamp : string) (uuid4 : nat -> nat -> string)
    (g : nat) (grouped : list (string * list Grouped)) (s : Store)
    : result Store :=
  match grouped with
  | [] => Ok s
  | (eid, frag_list) :: rest =>
      s1 <- insert_entity
              {| e_entity_id := eid;
                 fragment_count := List.length frag_list;
                 e_confidence := avg_conf frag_list;
                 created_at := timestamp;
                 updated_at := timestamp |} s ;;
      s2 <- insert_fragments timestamp (uuid4 g) eid 0 frag_list s1 ;;
      insert_groups timestamp uuid4 (S g) rest s2
  end.

(** Step 1: [for eid in entity_ids], two deletes each. *)
Definition clear_old (eids : list string) (s : Store) : Store :=
  fold_left (fun s eid => delete_entity eid (delete_fragments_of eid s)) eids s.

(** [save_mapping(mapping, fragments)].  An exception leaves the function
    before [conn.commit()], and the database is as it was. *)
Definition save_mapping (timestamp : string) (uuid4 : nat -> nat -> string)
    (m : Mapping) (frags : list Fragment) (s : Store) : result unit * Store :=
  let s1 := clear_old (entity_ids m) s in
  match grouped <- group m frags [] ;;
        insert_groups timestamp uuid4 0 grouped s1 with
  | Ok s2 => (Ok tt, s2)
  | Raise e => (Raise e, s)
  end.

(** *** Reads *)

(** [get_entity(entity_id)]: the row with a recomputed [fragment_count],
    and its fragments; [None] when there is no such row. *)
Definition get_entity (eid : string) (s : Store)
    : option (Entity * list FragmentRow) :=
  match find (fun e => (e_entity_id e =? eid)%string) (entities s) with
  | None => None
  | Some entity =>
      let frs := filter (fun f => (f_entity_id f =? eid)%string) (fragments s) in
      Some ({| e_entity_id := e_entity_id entity;
               fragment_count := List.length frs;
               e_confidence := e_confidence entity;
               created_at := created_at entity;
               updated_at := updated_at entity |}, frs)
  end.

(** The [WHERE] clause of [search_entities] on one fragment row,
    [f.value LIKE ? OR f.frag_type LIKE ?]: the second test runs when the
    first fails. *)
Definition matches_pattern (search_pattern : string) (f : FragmentRow)
    : option bool :=
  match sqlite.like (f_value f) search_pattern with
  | None => None
  | Some true => Some true
  | Some false => sqlite.like (frag_type f) search_pattern
  end.

(** The join with its [WHERE] clause, as SQLite runs it on this schema: a
    scan of [fragments] in row order with the clause tested on each row, and
    for a row that passes, the look-up of its entity through the index of
    the primary key. *)
Fixpoint join_where (search_pattern : string) (es : list Entity)
    (fs : list FragmentRow) : result (list Entity) :=
  match fs with
  | [] => Ok []
  | f :: rest =>
      match matches_pattern search_pattern f with
      | None => Raise (OperationalError "LIKE or GLOB pattern too complex")
      | Some b =>
          rows <- join_where search_pattern es rest ;;
          Ok ((if b
               then filter (fun e => (e_entity_id e =? f_entity_id f)%string) es
               else []) ++ rows)
      end
  end.

(** The columns [search_entities] selects. *)
Definition Summary : Type := (string * nat * Q * string)%type.

Definition summary (e : Entity) : Summary :=
  (e_entity_id e, fragment_count e, e_confidence e, created_at e).

Definition summary_eqb (x y : Summary) : bool :=
  let '(i1, n1, c1, t1) := x in
  let '(i2, n2, c2, t2) := y in
  (i1 =? i2)%string && (n1 =? n2) && Qeq_bool c1 c2 && (t1 =? t2)%string.

(** [SELECT DISTINCT]: a row whose selected columns equal those of an
    earlier row is dropped. *)
Fixpoint distinct (seen : list Summary) (rows : list Entity) : list Entity :=
  match rows with
  | [] => []
  | r :: rest =>
      if existsb (summary_eqb (summary r)) seen then distinct seen rest
      else r :: distinct (summary r :: seen) rest
  end.

(** [search_entities(query)]: the rows of the join, without repetition,
    sorted on [updated_at] (rows that tie stay in the order of the scan), the
    first 50 of them.  The error of [LIKE] leaves the function as
    [sqlite3.OperationalError]. *)
Definition search_entities (query : string) (s : Store)
    : result (list Summary) :=
  let search_pattern := ("%" ++ query ++ "%")%string in
  rows <- join_where search_pattern (entities s) (fragments s) ;;
  Ok (map summary
        (firstn 50 (sqlite.order_by_desc updated_at (distinct [] rows)))).

(** *** delete_fragment *)

(** The statements of [delete_fragment] between the lookup and the
    [commit]. *)
Definition delete_fragment_body (fid requested_by_ reason_ uuid4 utcnow : string)
    (entity_id_ : string) (s : Store) : result Store :=
  let s1 := delete_fragment_row fid s in
  let new_count := count_fragments_of entity_id_ s1 in
  if new_count =? 0 then
    insert_erasure
      {| erasure_id := ("E-" ++ uuid4)%string;
         er_entity_id := entity_id_;
         fragments_deleted := 1;
         requested_by := requested_by_;
         reason := reason_;
         timestamp := utcnow |}
      (delete_entity entity_id_ s1)
  else Ok (update_entity new_count utcnow entity_id_ s1).

(** [delete_fragment(frag_id, requested_by, reason)]: the pair returned and
    the database afterwards. *)
Definition delete_fragment (fid requested_by_ reason_ uuid4 utcnow : string)
    (s : Store) : (bool * string) * Store :=
  match find (fun f => (frag_id f =? fid)%string) (fragments s) with
  | None => ((false, "Fragment not found"), s)
  | Some row =>
      let entity_id_ := f_entity_id row in
      match delete_fragment_body fid requested_by_ reason_ uuid4 utcnow
              entity_id_ s with
      | Ok s' => ((true, entity_id_), s')
      | Raise e => ((false, str_exn e), s)
      end
  end.

(** *** erase_entity *)

Definition erase_entity (eid requested_by_ reason_ uuid4 utcnow : string)
    (s : Store) : (bool * nat) * Store :=
  let entity_exists := count_entities eid s in
  if entity_exists =? 0 then ((false, 0), s)
  else
    let frag_count := count_fragments_of eid s in
    match insert_erasure
            {| erasure_id := ("ER-" ++ uuid4)%string;
               er_entity_id := eid;
               fragments_deleted := frag_count;
               requested_by := requested_by_;
               reason := reason_;
               timestamp := utcnow |}
            (delete_entity eid (delete_fragments_of eid s)) with
    | Ok s' => ((true, frag_count), s')
    | Raise e => ((false, 0), s)
    end.

(** [list_entities(limit)]: all five columns of the rows. *)
Definition list_entities (limit : Z) (s : Store) : list Entity :=
  sqlite.limit limit (sqlite.order_by_desc updated_at (entities s)).

(** [get_statistics()]; the mean is rounded to two decimals. *)
Definition get_statistics (s : Store) : nat * nat * Q * nat :=
  let total_entities := List.length (entities s) in
  let total_fragments := List.length (fragments s) in
  let erasures_performed := List.length (erasures s) in
  let avg_fragments :=
    if 0 <? total_entities
    then Py.round2 (Py.fdiv (inject_Z (Z.of_nat total_fragments))
                      (inject_Z (Z.of_nat total_entities)))
    else 0%Q in
  (total_entities, total_fragments, avg_fragments, erasures_performed).

End mapper.

(** ** The two patterns of the scanner, with the matching of [re] *)

Module re.

(** [\w] on a [str] pattern: alphanumeric characters and the underscore. *)
Definition is_word (c : ascii) : bool :=
  let n := nat_of_ascii c in
  ((48 <=? n) && (n <=? 57)) || ((65 <=? n) && (n <=? 90)) || (n =? 95)
  || ((97 <=? n) && (n <=? 122))
  || (n =? 170) || (n =? 178) || (n =? 179) || (n =? 181) || (n =? 185)
  || (n =? 186) || ((188 <=? n) && (n <=? 190))
  || ((192 <=? n) && (n <=? 214)) || ((216 <=? n) && (n <=? 246))
  || ((248 <=? n) && (n <=? 255)).

(** [\d]: the decimal digits. *)
Definition is_digit (c : ascii) : bool :=
  let n := nat_of_ascii c in (48 <=? n) && (n <=? 57).

(** The items a pattern is a sequence of. *)
Inductive item : Type :=
| One (p : ascii -> bool)      (* a character or a class *)
| Plus (p : ascii -> bool)     (* a class followed by [+], greedy *)
| Boundary.                     (* [\b] *)

Definition word_before (prev : option ascii) : bool :=
  match prev with Some c => is_word c | None => false end.

Definition word_after (s : list ascii) : bool :=
  match s with c :: _ => is_word c | [] => false end.

(** Match at the current position: [prev] is the character before it, [s]
    the text from it on.  The result is the length of the match the
    backtracking search finds first. *)
Fixpoint match_here (pat : list item) (prev : option ascii) (s : list ascii)
    : option nat :=
  match pat with
  | [] => Some 0
  | One p :: pat' =>
      match s with
      | c :: s' =>
          if p c then option_map S (match_here pat' (Some c) s') else None
      | [] => None
      end
  | Boundary :: pat' =>
      if xorb (word_before prev) (word_after s) then match_here pat' prev s
      else None
  | Plus p :: pat' =>
      (fix greedy (s : list ascii) : option nat :=
         match s with
         | c :: s' =>
             if p c then
               match greedy s' with
               | Some n => Some (S n)
               | None => option_map S (match_here pat' (Some c) s')
               end
             else None
         | [] => None
         end) s
  end.

(** [pattern.finditer(text)], as the matched substrings ([m.group()]);
    [skip] counts the characters of the last match still to step over.  Both
    patterns of the scanner match at least three characters, so a match is
    never empty. *)
Fixpoint finditer_from (pat : list item) (prev : option ascii)
    (s : list ascii) (skip : nat) : list string :=
  match s with
  | [] => []
  | c :: s' =>
      match skip with
      | S k => finditer_from pat (Some c) s' k
      | O =>
          match match_here pat prev s with
          | Some (S n) =>
              string_of_list_ascii (firstn (S n) s)
              :: finditer_from pat (Some c) s' n
          | _ => finditer_from pat (Some c) s' 0
          end
      end
  end.

Definition finditer (pat : list item) (text : string) : list string :=
  finditer_from pat None (list_ascii_of_string text) 0.

End re.

(** ** layer1_scanner/scanner.py *)

Module scanner.

Import linker.

Definition word_dot_dash (c : ascii) : bool :=
  re.is_word c || Ascii.eqb c "."%char || Ascii.eqb c "-"%char.

(** [EMAIL_RE = re.compile(r'[\w\.-]+@[\w\.-]+\.\w+')]. *)
Definition EMAIL_RE : list re.item :=
  [re.Plus word_dot_dash; re.One (Ascii.eqb "@"%char); re.Plus word_dot_dash;
   re.One (Ascii.eqb "."%char); re.Plus re.is_word].

(** [CPR_RE = re.compile(r'\b\d{6}-\d{4}\b')]. *)
Definition CPR_RE : list re.item :=
  [re.Boundary] ++ repeat (re.One re.is_digit) 6
  ++ [re.One (Ascii.eqb "-"%char)] ++ repeat (re.One re.is_digit) 4
  ++ [re.Boundary].

(** A [RecognizerResult] of Presidio, as far as [scan_text] reads it. *)
Record RecognizerResult : Type := {
  entity_type : string;
  start : nat;
  end_ : nat
}.

(** What a call [analyzer.analyze(text=text, language='en')] does: it
    returns its results or raises an [Exception]. *)
Inductive analysis : Type :=
| Results (rs : list RecognizerResult)
| Raises (message : string).

(** [text[start:end]]. *)
Definition slice (text : string) (start_ stop : nat) : string :=
  substring start_ (stop - start_) text.

(** [scan_text(text, source)] for an analyzer that behaves as [analyze]. *)
Definition scan_text (analyze : string -> analysis) (text source_ : string)
    : list Fragment :=
  let results :=
    match analyze text with
    | Results presidio_results =>
        map (fun r => {| type_ := entity_type r;
                         value := slice text (start r) (end_ r);
                         source := source_ |}) presidio_results
    | Raises _ => []
    end in
  let results :=
    results
    ++ map (fun m => {| type_ := "EMAIL_ADDRESS"; value := m; source := source_ |})
           (re.finditer EMAIL_RE text) in
  results
  ++ map (fun m => {| type_ := "CPR"; value := m; source := source_ |})
         (re.finditer CPR_RE text).

End scanner.

(** ** security/audit_logger.py *)

Module audit_logger.

(** The values the callers pass as keyword arguments: strings, integers
    and lists of strings.  [json.dump] followed by [json.load] gives such a
    value back unchanged. *)
Inductive json : Type :=
| Str (s : string)
| Int (n : Z)
| Arr (items : list string).

(** A log entry: a dict from field names to values. *)
Definition Entry : Type := list (string * json).

(** The directory [LOG_DIR]: the name of each file with the entry it
    holds.  The directory starts empty and only the logger writes to it. *)
Definition Dir : Type := list (string * Entry).

(** [f"audit_{ts}.json"]. *)
Definition file_name (ts : string) : string := ("audit_" ++ ts ++ ".json")%string.

(** [_write(entry)]; [ts] is the value of
    [datetime.datetime.utcnow().strftime("%Y%m%dT%H%M%S")].  Opening the path
    with ["w"] replaces a file of that name. *)
Definition _write (ts : string) (entry : Entry) (d : Dir) : Entry * Dir :=
  (entry, dict.set String.eqb d (file_name ts) entry).

(** The dict display with the two fields ["operation"] and
    ["timestamp_utc"] ([now + "Z"]) followed by the unpacked keyword
    arguments: a keyword that names a field already there replaces its
    value. *)
Definition make_entry (op now : string) (kwargs : Entry) : Entry :=
  fold_left (fun e kv => dict.set String.eqb e (fst kv) (snd kv)) kwargs
    [("operation", Str op); ("timestamp_utc", Str (now ++ "Z")%string)].

(** The four [log_..._operation] methods; [now] is the value of
    [datetime.datetime.utcnow().isoformat()], read before [_write] reads the
    clock for [ts]. *)
Definition log_scan_operation (now ts : string) (kwargs : Entry) (d : Dir)
    : Entry * Dir :=
  _write ts (make_entry "scan" now kwargs) d.

Definition log_linking_operation (now ts : string) (kwargs : Entry) (d : Dir)
    : Entry * Dir :=
  _write ts (make_entry "linking" now kwargs) d.

Definition log_erasure_operation (now ts : string) (kwargs : Entry) (d : Dir)
    : Entry * Dir :=
  _write ts (make_entry "erasure" now kwargs) d.

Definition log_access_operation (now ts : string) (kwargs : Entry) (d : Dir)
    : Entry * Dir :=
  _write ts (make_entry "access" now kwargs) d.

(** [sorted(LOG_DIR.glob("audit_*.json"), reverse=True)]: the files by
    name, the greatest name first. *)
Definition sorted_reverse (d : Dir) : Dir := sqlite.order_by_desc fst d.

(** [logs[:limit]]: a negative [limit] counts from the end. *)
Definition slice_to {A : Type} (limit : Z) (l : list A) : list A :=
  if (limit <? 0)%Z then firstn (List.length l - Z.to_nat (- limit)) l
  else firstn (Z.to_nat limit) l.

(** [get_recent_logs(limit)]. *)
Definition get_recent_logs (limit : Z) (d : Dir) : list Entry :=
  map snd (slice_to limit (sorted_reverse d)).

(** [log_data.get(field) == x] for a string [x]. *)
Definition field_is (e : Entry) (field x : string) : bool :=
  match dict.get String.eqb e field with
  | Some (Str s) => (s =? x)%string
  | _ => false
  end.

(** [get_logs_by_user(user)]. *)
Definition get_logs_by_user (user : string) (d : Dir) : list Entry :=
  filter (fun e => field_is e "user" user || field_is e "requested_by" user)
    (map snd (sorted_reverse d)).

(** [get_logs_by_entity(entity_id)]. *)
Definition get_logs_by_entity (entity_id : string) (d : Dir) : list Entry :=
  filter (fun e => field_is e "entity_id" entity_id)
    (map snd (sorted_reverse d)).

End audit_logger.

(** ** Vocabulary of the properties *)

Module spec.

Import linker mapper.

(** The column [fragment_count] of the row of an entity, if it has one. *)
Definition stored_count (eid : string) (s : Store) : option nat :=
  option_map fragment_count
    (find (fun e => (e_entity_id e =? eid)%string) (entities s)).

(** An entity id is in the store. *)
Definition in_store (eid : string) (s : Store) : Prop :=
  In eid (map e_entity_id (entities s)).

(** The count invariant: the column agrees with the rows. *)
Definition count_invariant (s : Store) : Prop :=
  forall e, In e (entities s) ->
    fragment_count e = count_fragments_of (e_entity_id e) s.

(** What the primary keys of the three tables guarantee. *)
Definition primary_keys (s : Store) : Prop :=
  NoDup (map e_entity_id (entities s))
  /\ NoDup (map frag_id (fragments s))
  /\ NoDup (map erasure_id (erasures s)).

(** The invariant the proofs carry: unique fragment ids, and the counts. *)
Definition consistent (s : Store) : Prop :=
  NoDup (map frag_id (fragments s)) /\ count_invariant s.

(** A call of one of the three mutating operations, with the values its
    calls of [uuid4] and [utcnow] return. *)
Inductive operation : Type :=
| SaveMapping (timestamp : string) (uuid4 : nat -> nat -> string)
    (m : Mapping) (frags : list Fragment)
| DeleteFragment (fid requested_by_ reason_ uuid4 utcnow : string)
| EraseEntity (eid requested_by_ reason_ uuid4 utcnow : string).

(** The database after the call. *)
Definition apply (s : Store) (o : operation) : Store :=
  match o with
  | SaveMapping ts u m frags => snd (save_mapping ts u m frags s)
  | DeleteFragment fid rb rs u now => snd (delete_fragment fid rb rs u now s)
  | EraseEntity eid rb rs u now => snd (erase_entity eid rb rs u now s)
  end.

Definition run (ops : list operation) (s : Store) : Store :=
  fold_left apply ops s.

(** The mean number of fragments per entity of a clustering, 0 for an
    empty one. *)
Definition average_cluster_size (m : Mapping) : Q :=
  if entity_count m =? 0 then 0%Q
  else (Z.of_nat (List.length m) # Pos.of_nat (entity_count m))%Q.

(** The fragment is not skipped by the linker. *)
Definition nonblank (f : Fragment) : bool :=
  Py.truthy (normalize (value f)).

(** The candidate value is within the threshold of the fragment. *)
Definition similar (t : Q) (val : string) (f : Fragment) : bool :=
  Qle_bool t (difflib.ratio val (normalize (value f))).

(** The number of rows that start a cluster: the rows that are not blank
    and are similar to no row kept before them; [prev] holds the rows kept
    so far. *)
Fixpoint seeds (t : Q) (prev rows : list Fragment) : nat :=
  match rows with
  | [] => 0
  | row :: rest =>
      if nonblank row then
        (if existsb (similar t (normalize (value row))) prev then 0 else 1)
        + seeds t (prev ++ [row]) rest
      else seeds t prev rest
  end.

(** All the members of all the groups. *)
Definition members_of (groups : Groups) : list Fragment := flat_map snd groups.

(** What holds of the variables of the loop of [cluster_fragments] when it
    has kept the rows [prev] and comes to the row of index [i]. *)
Record linked (st : State) (prev : list Fragment) (i : nat) : Prop := {
  linked_keys :
    map fst (entity_groups st) = map entity_name (seq 1 (entity_counter st));
  linked_nonempty :
    forall k l, In (k, l) (entity_groups st) -> l <> [];
  linked_members :
    forall f, In f (members_of (entity_groups st)) <-> In f prev;
  linked_ids :
    forall k, In k (map (fun kv => entity_id (snd kv)) (mapping st))
              <-> In k (map fst (entity_groups st));
  linked_indices :
    forall j, In j (map fst (mapping st)) -> j < i;
  linked_length :
    List.length (mapping st) = List.length prev
}.

(** Where the members of the groups come from: each is a row seen, of an
    index that the mapping gives to the group. *)
Definition traced (st : State) (seen : list Fragment) : Prop :=
  forall k l f, In (k, l) (entity_groups st) -> In f l ->
    exists j info,
      In (j, info) (mapping st) /\ entity_id info = k
      /\ nth_error seen j = Some f.

(** Why the row of index [i] has the entry [info]: either it started its
    cluster, no earlier entry has its id and no earlier row that is not
    blank is within the threshold of it; or an earlier row of its cluster is
    within the threshold of it. *)
Definition justified (t : Q) (m : Mapping) (frags : list Fragment) (i : nat)
    (info : Info) : Prop :=
  exists row,
    nth_error frags i = Some row
    /\ nonblank row = true
    /\ ((confidence info = Some 1%Q
         /\ (forall j info', In (j, info') m -> j < i ->
               entity_id info' <> entity_id info)
         /\ (forall j f, j < i -> nth_error frags j = Some f ->
               nonblank f = true ->
               similar t (normalize (value row)) f = false))
        \/ (exists j info' f,
              In (j, info') m /\ j < i
              /\ entity_id info' = entity_id info
              /\ nth_error frags j = Some f
              /\ similar t (normalize (value row)) f = true)).

(** The indices of the fragments the linker does not skip. *)
Fixpoint nonblank_indices (i : nat) (rows : list Fragment) : list nat :=
  match rows with
  | [] => []
  | row :: rest =>
      if nonblank row then i :: nonblank_indices (S i) rest
      else nonblank_indices (S i) rest
  end.

(** Row [j] of the table [cluster_fragments] returns, read off the
    mapping: the entity and the score of the entry of [j], and
    [("N/A", 0.0)] when [j] has no entry. *)
Definition table_row (m : Mapping) (j : nat) : string * Q :=
  match dict.get Nat.eqb m j with
  | Some info =>
      (entity_id info, match confidence info with Some c => c | None => 0%Q end)
  | None => ("N/A", 0%Q)
  end.

(** The strings a pattern stands for, the boundaries left aside. *)
Fixpoint in_lang (pat : list re.item) (l : list ascii) : Prop :=
  match pat with
  | [] => l = []
  | re.One p :: pat' =>
      exists c l', l = c :: l' /\ p c = true /\ in_lang pat' l'
  | re.Plus p :: pat' =>
      exists l1 l2,
        l = l1 ++ l2 /\ l1 <> [] /\ forallb p l1 = true /\ in_lang pat' l2
  | re.Boundary :: pat' => in_lang pat' l
  end.

(** [v] is a piece of [text]. *)
Definition part_of (v text : string) : Prop :=
  exists pre post, text = (pre ++ v ++ post)%string.

(** Six digits, a dash, four digits. *)
Definition cpr_shape (v : string) : bool :=
  match list_ascii_of_string v with
  | [d1; d2; d3; d4; d5; d6; dash; d7; d8; d9; d10] =>
      forallb re.is_digit [d1; d2; d3; d4; d5; d6; d7; d8; d9; d10]
      && Ascii.eqb dash "-"%char
  | _ => false
  end.

(** [local@domain.tld]: the three parts are not empty; [local] and [domain]
    are made of word characters, dots and dashes, [tld] of word
    characters. *)
Definition email_shape (v : string) : Prop :=
  exists local_ domain tld : list ascii,
    list_ascii_of_string v = local_ ++ "@"%char :: domain ++ "."%char :: tld
    /\ local_ <> [] /\ domain <> [] /\ tld <> []
    /\ forallb scanner.word_dot_dash local_ = true
    /\ forallb scanner.word_dot_dash domain = true
    /\ forallb re.is_word tld = true.

(** Reading back a zero-padded decimal. *)
Definition decode_06d (s : string) : option nat :=
  option_map Nat.of_uint (NilEmpty.uint_of_string s).

(** The fragments of a pass that were given the id [eid]. *)
Definition cluster_values (m : Mapping) (frags : list Fragment) (eid : string)
    : list string :=
  flat_map (fun kv =>
              if (entity_id (snd kv) =? eid)%string
              then match nth_error frags (fst kv) with
                   | Some f => [value f]
                   | None => []
                   end
              else []) m.

(** The values stored under [eid]. *)
Definition stored_values (eid : string) (s : Store) : list string :=
  map f_value (filter (fun f => (f_entity_id f =? eid)%string) (fragments s)).

(** Membership in a list of ids. *)
Definition memb (k : string) (ks : list string) : bool :=
  existsb (String.eqb k) ks.

(** The ids of a list, each at the place where it occurs first. *)
Fixpoint first_seen (seen ids : list string) : list string :=
  match ids with
  | [] => []
  | k :: rest =>
      if memb k seen then first_seen seen rest
      else k :: first_seen (k :: seen) rest
  end.

(** The entity ids of a mapping in the order in which the entries bring
    them in. *)
Definition ids_in_order (m : Mapping) : list string :=
  first_seen [] (map (fun kv => entity_id (snd kv)) m).

(** The number of entries of a mapping that name [eid]. *)
Definition entries_of (eid : string) (m : Mapping) : nat :=
  List.length (filter (fun kv => (entity_id (snd kv) =? eid)%string) m).

(** The number of fragments [grouped] holds for [eid]. *)
Definition size_of (eid : string) (grouped : list (string * list Grouped)) : nat :=
  List.length
    (flat_map (fun kl => if (fst kl =? eid)%string then snd kl else []) grouped).

(** The rows [save_mapping] inserts: one entity row per group ... *)
Definition entity_row (timestamp : string) (g : string * list Grouped) : Entity :=
  {| e_entity_id := fst g;
     fragment_count := List.length (snd g);
     e_confidence := avg_conf (snd g);
     created_at := timestamp;
     updated_at := timestamp |}.

(** ... and one fragment row per element of the group. *)
Definition fragment_row (timestamp uuid eid : string) (frag : Grouped)
    : FragmentRow :=
  {| frag_id := (eid ++ "-" ++ uuid)%string;
     f_entity_id := eid;
     frag_type := g_type frag;
     f_value := g_value frag;
     f_source := g_source frag;
     f_confidence := g_confidence frag;
     f_created_at := timestamp |}.

Fixpoint fragment_rows (timestamp : string) (uuid4 : nat -> string)
    (eid : string) (i : nat) (frag_list : list Grouped) : list FragmentRow :=
  match frag_list with
  | [] => []
  | frag :: rest =>
      fragment_row timestamp (uuid4 i) eid frag
      :: fragment_rows timestamp uuid4 eid (S i) rest
  end.

Fixpoint group_rows (timestamp : string) (uuid4 : nat -> nat -> string)
    (g : nat) (grouped : list (string * list Grouped)) : list FragmentRow :=
  match grouped with
  | [] => []
  | (eid, frag_list) :: rest =>
      fragment_rows timestamp (uuid4 g) eid 0 frag_list
      ++ group_rows timestamp uuid4 (S g) rest
  end.

(** [q] occurs in [v], ASCII letters compared without case. *)
Definition contains_ci (q v : string) : Prop :=
  exists pre post,
    map sqlite.tolower (list_ascii_of_string v)
    = pre ++ map sqlite.tolower (list_ascii_of_string q) ++ post.

(** The same as a test: [q] is a prefix of [v], [q] occurs in [v]. *)
Fixpoint prefix_b (q v : list ascii) : bool :=
  match q, v with
  | [], _ => true
  | _ :: _, [] => false
  | c :: q', c2 :: v' => Ascii.eqb c c2 && prefix_b q' v'
  end.

Fixpoint infix_b (q v : list ascii) : bool :=
  prefix_b q v || match v with [] => false | _ :: v' => infix_b q v' end.

Definition contains_ci_b (q v : string) : bool :=
  infix_b (map sqlite.tolower (list_ascii_of_string q))
    (map sqlite.tolower (list_ascii_of_string v)).

(** All the characters. *)
Definition all_chars : list ascii := map ascii_of_nat (seq 0 256).

(** The query has none of the two wildcards of [LIKE] and no U+0000. *)
Definition plain_query (q : string) : Prop :=
  forall c, In c (list_ascii_of_string q) ->
    c <> "%"%char /\ c <> "_"%char /\ c <> zero.

(** The fragment row has the query in its value or in its type, each read
    up to its first U+0000. *)
Definition fragment_with (q : string) (f : FragmentRow) : Prop :=
  contains_ci q (sqlite.c_string (f_value f))
  \/ contains_ci q (sqlite.c_string (frag_type f)).

Definition fragment_with_b (q : string) (f : FragmentRow) : bool :=
  contains_ci_b q (sqlite.c_string (f_value f))
  || contains_ci_b q (sqlite.c_string (frag_type f)).

(** The entity owns a fragment that has the query. *)
Definition owns_fragment_with (q : string) (s : Store) (e : Entity) : Prop :=
  exists f, In f (fragments s)
            /\ f_entity_id f = e_entity_id e
            /\ fragment_with q f.

(** Most recently updated first. *)
Fixpoint newest_first (es : list Entity) : Prop :=
  match es with
  | [] => True
  | e :: rest =>
      (forall e', In e' rest -> String.leb (updated_at e') (updated_at e) = true)
      /\ newest_first rest
  end.

(** Every fragment row belongs to an entity of the store. *)
Definition no_orphans (s : Store) : Prop :=
  forall f, In f (fragments s) -> in_store (f_entity_id f) s.

(** Every entity of the store has a fragment row. *)
Definition no_empty_entity (s : Store) : Prop :=
  forall e, In e (entities s) -> 0 < count_fragments_of (e_entity_id e) s.

(** What holds of the database between two operations. *)
Record well_formed (s : Store) : Prop := {
  wf_keys : primary_keys s;
  wf_counts : count_invariant s;
  wf_orphans : no_orphans s;
  wf_nonempty : no_empty_entity s
}.

(** The fragments of a pass that the mapping gives to [eid], in the order
    of the mapping. *)
Definition cluster_members (m : Mapping) (frags : list Fragment) (eid : string)
    : list Fragment :=
  flat_map (fun kv =>
              if (entity_id (snd kv) =? eid)%string
              then match nth_error frags (fst kv) with
                   | Some f => [f]
                   | None => []
                   end
              else []) m.

(** What [grouped] holds for [eid]. *)
Definition group_of (eid : string) (grouped : list (string * list Grouped))
    : list Grouped :=
  flat_map (fun kl => if (fst kl =? eid)%string then snd kl else []) grouped.

(** A stored fragment row, read back as a fragment. *)
Definition as_fragment (f : FragmentRow) : Fragment :=
  {| type_ := frag_type f; value := f_value f; source := f_source f |}.

Definition grouped_fragment (x : Grouped) : Fragment :=
  {| type_ := g_type x; value := g_value x; source := g_source x |}.

(** The sum of the column [fragment_count]. *)
Definition total_count (s : Store) : nat :=
  fold_right (fun e n => fragment_count e + n) 0 (entities s).

End spec.

(** ** A small database for the examples *)

Module sample.

Import linker mapper.

Definition email (v : string) : Fragment :=
  {| type_ := "EMAIL_ADDRESS"; value := v; source := "people.csv" |}.

Definition scan : list Fragment :=
  [email "alice@example.com"; email "alice@example.com";
   email "bob@example.com"].

(** Stand-ins for the values of [uuid.uuid4()]. *)
Definition uuids (tag : string) (g i : nat) : string :=
  (tag ++ "-" ++ Py.decimal g ++ "-" ++ Py.decimal i)%string.

(** The mapping the linker gives for [scan] at threshold 0.85. *)
Definition linked : Mapping :=
  Eval vm_compute in fst (cluster_fragments scan (Py.float (85 # 100))).

(** The database after scanning, linking and saving [scan]. *)
Definition db1 : Store :=
  Eval vm_compute in
  snd (save_mapping "2024-01-01T00:00:00" (uuids "a") linked scan init_db).

(** A second pass, over another source. *)
Definition scan2 : list Fragment := [email "carol@example.org"].

Definition linked2 : Mapping :=
  Eval vm_compute in fst (cluster_fragments scan2 (Py.float (85 # 100))).

(** A pass over the notes of a clinic. *)
Definition scan3 : list Fragment :=
  [{| type_ := "EMAIL_ADDRESS"; value := "cpr@clinic.dk"; source := "notes.txt" |};
   {| type_ := "CPR"; value := "010190-1234"; source := "notes.txt" |}].

Definition db_clinic : Store :=
  Eval vm_compute in
  snd (save_mapping "2024-01-01T00:00:00" (uuids "c")
         (fst (cluster_fragments scan3 (Py.float (85 # 100)))) scan3 init_db).

End sample.

(** * Properties *)

Import linker mapper scanner spec.

(** ** The linker on the example of the design document *)

(** C8: on the fragments alice@example.com, alice@example.com,
    bob@example.com with threshold 0.85 the linker forms two entities; the
    first two fragments share the id E-000001, the first with confidence
    1.0 and the second with confidence 1.0 as well. *)
Theorem cluster_fragments_alice_alice_bob :
  let m := fst (cluster_fragments
                  [sample.email "alice@example.com";
                   sample.email "alice@example.com";
                   sample.email "bob@example.com"] (Py.float (85 # 100))) in
  entity_count m = 2
  /\ (exists i0 i1 i2,
        m = [(0, i0); (1, i1); (2, i2)]
        /\ entity_id i0 = entity_id i1
        /\ entity_id i2 <> entity_id i0
        /\ confidence i0 = Some 1%Q
        /\ confidence i1 = Some 1%Q).
Proof.
  vm_compute. split; [reflexivity|].
  do 3 eexists. split; [reflexivity|].
  repeat split; discriminate.
Qed.

(** ** The scanner *)

(** C10: when the analyzer raises, [scan_text] still returns, and what it
    returns is what the e-mail pattern and the CPR pattern find in the
    text. *)
Theorem scan_text_survives_analyzer_failure :
  forall (analyze : string -> analysis) (text source_ message : string),
    analyze text = Raises message ->
    scan_text analyze text source_
    = map (fun m => {| type_ := "EMAIL_ADDRESS"; value := m; source := source_ |})
        (re.finditer EMAIL_RE text)
      ++ map (fun m => {| type_ := "CPR"; value := m; source := source_ |})
           (re.finditer CPR_RE text).
Proof.
  intros analyze text source_ message H.
  unfold scan_text. rewrite H. reflexivity.
Qed.

Lemma scan_text_survives_analyzer_failure_witness :
  scan_text (fun _ => Raises "recognizer crashed")
    "Anna, anna@mail.dk, 010190-1234" "notes.txt"
  = [{| type_ := "EMAIL_ADDRESS"; value := "anna@mail.dk"; source := "notes.txt" |};
     {| type_ := "CPR"; value := "010190-1234"; source := "notes.txt" |}].
Proof.
  rewrite (scan_text_survives_analyzer_failure
             (fun _ => Raises "recognizer crashed")
             "Anna, anna@mail.dk, 010190-1234" "notes.txt" "recognizer crashed"
             eq_refl).
  vm_compute. reflexivity.
Defined.

(** ** Tables keyed by a string column *)

Section Keyed.

Context {A : Type} (key : A -> string).

Lemma existsb_key (k : string) (l : list A) :
  existsb (fun x => (key x =? k)%string) l = true <-> In k (map key l).
Proof.
  rewrite existsb_exists, in_map_iff.
  split; intros [x Hx]; exists x.
  - destruct Hx as [Hin Heq]. apply String.eqb_eq in Heq. auto.
  - destruct Hx as [Heq Hin]. split; [assumption|]. now apply String.eqb_eq.
Qed.

Lemma existsb_key_false (k : string) (l : list A) :
  existsb (fun x => (key x =? k)%string) l = false <-> ~ In k (map key l).
Proof.
  rewrite <- existsb_key. destruct (existsb _ l); split; intro H;
    try reflexivity; try discriminate; try (intro; discriminate).
  exfalso. now apply H.
Qed.

Lemma select_key_nil (k : string) (l : list A) :
  ~ In k (map key l) -> filter (fun x => (key x =? k)%string) l = [].
Proof.
  induction l as [|x l IH]; simpl; intro H; [reflexivity|].
  destruct (String.eqb_spec (key x) k) as [E|E].
  - exfalso. apply H. now left.
  - apply IH. intro Hin. apply H. now right.
Qed.

Lemma select_key_In (k : string) (l : list A) :
  In k (map key l) -> filter (fun x => (key x =? k)%string) l <> [].
Proof.
  intros Hin Hnil. apply in_map_iff in Hin. destruct Hin as [x [Hk Hx]].
  assert (In x (filter (fun x => (key x =? k)%string) l)) as Hf.
  { apply filter_In. split; [assumption|]. now apply String.eqb_eq. }
  rewrite Hnil in Hf. destruct Hf.
Qed.

Lemma delete_key_not_In (k : string) (l : list A) :
  ~ In k (map key (filter (fun x => negb (key x =? k)%string) l)).
Proof.
  intro H. apply in_map_iff in H. destruct H as [x [Hk Hx]].
  apply filter_In in Hx. destruct Hx as [_ Hx].
  apply negb_true_iff, String.eqb_neq in Hx. contradiction.
Qed.

Lemma delete_key_absent (k : string) (l : list A) :
  ~ In k (map key l) -> filter (fun x => negb (key x =? k)%string) l = l.
Proof.
  induction l as [|x l IH]; simpl; intro H; [reflexivity|].
  destruct (String.eqb_spec (key x) k) as [E|E]; simpl.
  - exfalso. apply H. now left.
  - f_equal. apply IH. intro Hin. apply H. now right.
Qed.

Lemma find_key_None (k : string) (l : list A) :
  ~ In k (map key l) -> find (fun x => (key x =? k)%string) l = None.
Proof.
  induction l as [|x l IH]; simpl; intro H; [reflexivity|].
  destruct (String.eqb_spec (key x) k) as [E|E].
  - exfalso. apply H. now left.
  - apply IH. intro Hin. apply H. now right.
Qed.

Lemma select_delete_nil (k : string) (l : list A) :
  filter (fun x => (key x =? k)%string)
    (filter (fun x => negb (key x =? k)%string) l) = [].
Proof. apply select_key_nil, delete_key_not_In. Qed.

(** Rows with the same key are the same row when the key is unique. *)
Lemma unique_key_row (l : list A) (x y : A) :
  NoDup (map key l) -> In x l -> In y l -> key x = key y -> x = y.
Proof.
  induction l as [|z l IH]; simpl; intros Hnd Hx Hy Hk; [destruct Hx|].
  inversion Hnd as [|? ? Hnot Hnd']; subst.
  destruct Hx as [Hx|Hx], Hy as [Hy|Hy]; subst.
  - reflexivity.
  - exfalso. apply Hnot. rewrite Hk. now apply in_map.
  - exfalso. apply Hnot. rewrite <- Hk. now apply in_map.
  - now apply IH.
Qed.

End Keyed.

Lemma filter_split_length {A : Type} (p : A -> bool) (l : list A) :
  List.length (filter p l) + List.length (filter (fun x => negb (p x)) l)
  = List.length l.
Proof.
  induction l as [|x l IH]; simpl; [reflexivity|].
  destruct (p x); simpl; lia.
Qed.

Lemma count_entities_zero (eid : string) (s : Store) :
  count_entities eid s = 0 <-> ~ in_store eid s.
Proof.
  unfold count_entities, in_store. split.
  - intros H Hin. apply (select_key_In e_entity_id) in Hin.
    destruct (filter _ (entities s)); [now apply Hin | discriminate].
  - intro H. now rewrite (select_key_nil e_entity_id).
Qed.

Lemma get_entity_None (eid : string) (s : Store) :
  ~ in_store eid s -> get_entity eid s = None.
Proof.
  intro H. unfold get_entity. now rewrite (find_key_None e_entity_id).
Qed.

(** ** erase_entity *)

(** C3: on an entity of the store with N fragment rows, [erase_entity]
    returns [(True, N)], removes those N rows and the entity row and nothing
    else, and appends one erasure record with [fragments_deleted = N] (the
    erasure id drawn being new, as the primary key of the table requires);
    on an id that is not in the store it returns [(False, 0)] and changes
    nothing. *)
Theorem erase_entity_atomic :
  forall (eid requested_by_ reason_ uuid4 utcnow : string) (s : Store),
    (in_store eid s ->
     ~ In ("ER-" ++ uuid4)%string (map erasure_id (erasures s)) ->
     exists s',
       erase_entity eid requested_by_ reason_ uuid4 utcnow s
       = ((true, count_fragments_of eid s), s')
       /\ fragments s'
          = filter (fun f => negb (f_entity_id f =? eid)%string) (fragments s)
       /\ entities s'
          = filter (fun e => negb (e_entity_id e =? eid)%string) (entities s)
       /\ erasures s'
          = erasures s
            ++ [{| erasure_id := ("ER-" ++ uuid4)%string;
                   er_entity_id := eid;
                   fragments_deleted := count_fragments_of eid s;
                   requested_by := requested_by_;
                   reason := reason_;
                   timestamp := utcnow |}]
       /\ count_fragments_of eid s' = 0
       /\ List.length (fragments s') + count_fragments_of eid s
          = List.length (fragments s)
       /\ ~ in_store eid s'
       /\ get_entity eid s' = None)
    /\ (~ in_store eid s ->
        erase_entity eid requested_by_ reason_ uuid4 utcnow s = ((false, 0), s)).
Proof.
  intros eid rb rs uuid4 utcnow s. split.
  - intros Hin Hfresh.
    unfold erase_entity.
    destruct (count_entities eid s =? 0) eqn:Hc.
    { apply Nat.eqb_eq, count_entities_zero in Hc. contradiction. }
    unfold insert_erasure, delete_entity, delete_fragments_of.
    cbn [erasure_id erasures entities fragments].
    apply (existsb_key_false erasure_id) in Hfresh. rewrite Hfresh.
    eexists. split; [reflexivity|]. cbn [erasures entities fragments].
    repeat split.
    + unfold count_fragments_of. cbn [fragments].
      now rewrite (select_delete_nil f_entity_id).
    + unfold count_fragments_of.
      pose proof (filter_split_length
                    (fun f => (f_entity_id f =? eid)%string) (fragments s)).
      lia.
    + unfold in_store. cbn [entities]. apply (delete_key_not_In e_entity_id).
    + apply get_entity_None. unfold in_store. cbn [entities].
      apply (delete_key_not_In e_entity_id).
  - intro Hout. unfold erase_entity.
    apply count_entities_zero in Hout. now rewrite Hout.
Qed.

Lemma erase_entity_atomic_witness :
  fst (erase_entity "E-000001" "dpo" "GDPR Article 17" "0001"
         "2024-02-01T00:00:00" sample.db1) = (true, 2)
  /\ erase_entity "E-000009" "dpo" "GDPR Article 17" "0001"
       "2024-02-01T00:00:00" sample.db1
     = ((false, 0), sample.db1).
Proof.
  destruct (erase_entity_atomic "E-000001" "dpo" "GDPR Article 17" "0001"
              "2024-02-01T00:00:00" sample.db1) as [Hin _].
  destruct (erase_entity_atomic "E-000009" "dpo" "GDPR Article 17" "0001"
              "2024-02-01T00:00:00" sample.db1) as [_ Hout].
  split.
  - destruct Hin as [s' [Hr _]].
    + vm_compute. now left.
    + vm_compute. tauto.
    + rewrite Hr. reflexivity.
  - apply Hout. vm_compute.
    intros [H|[H|[]]]; discriminate.
Defined.

(** ** delete_fragment *)

Lemma filter_swap {A : Type} (p q : A -> bool) (l : list A) :
  filter p (filter q l) = filter q (filter p l).
Proof.
  induction l as [|x l IH]; simpl; [reflexivity|].
  destruct (p x) eqn:Hp, (q x) eqn:Hq; simpl; rewrite ?Hp, ?Hq, IH; reflexivity.
Qed.

Lemma find_key_unique {A : Type} (key : A -> string) (l : list A) (x : A) :
  NoDup (map key l) -> In x l ->
  find (fun y => (key y =? key x)%string) l = Some x.
Proof.
  intros Hnd Hin.
  destruct (find _ l) as [y|] eqn:Hfind.
  - apply find_some in Hfind. destruct Hfind as [Hy Hk].
    apply String.eqb_eq in Hk. f_equal.
    now apply (unique_key_row key l).
  - apply (find_none _ _ Hfind) in Hin. now rewrite String.eqb_refl in Hin.
Qed.

(** C5: for an entity of the store with exactly one fragment row,
    [delete_fragment] on the id of that row returns success with the id of
    the entity, [get_entity] then finds no such entity, and exactly one
    erasure record, with [fragments_deleted = 1], has been appended (the
    fragment ids being unique and the erasure id drawn being new, as the
    primary keys of the two tables require). *)
Theorem delete_last_fragment_cascades :
  forall (s : Store) (e : Entity) (f : FragmentRow)
         (requested_by_ reason_ uuid4 utcnow : string),
    NoDup (map frag_id (fragments s)) ->
    In e (entities s) ->
    filter (fun f' => (f_entity_id f' =? e_entity_id e)%string) (fragments s)
    = [f] ->
    ~ In ("E-" ++ uuid4)%string (map erasure_id (erasures s)) ->
    exists s',
      delete_fragment (frag_id f) requested_by_ reason_ uuid4 utcnow s
      = ((true, e_entity_id e), s')
      /\ get_entity (e_entity_id e) s' = None
      /\ erasures s'
         = erasures s
           ++ [{| erasure_id := ("E-" ++ uuid4)%string;
                  er_entity_id := e_entity_id e;
                  fragments_deleted := 1;
                  requested_by := requested_by_;
                  reason := reason_;
                  timestamp := utcnow |}].
Proof.
  intros s e f rb rs uuid4 utcnow Hpk He Hone Hfresh.
  assert (In f (fragments s) /\ f_entity_id f = e_entity_id e) as [Hf Hfe].
  { assert (In f [f]) as H by now left.
    rewrite <- Hone in H. apply filter_In in H.
    destruct H as [H1 H2]. apply String.eqb_eq in H2. auto. }
  unfold delete_fragment.
  rewrite (find_key_unique frag_id _ f Hpk Hf). rewrite Hfe.
  unfold delete_fragment_body.
  assert (count_fragments_of (e_entity_id e) (delete_fragment_row (frag_id f) s)
          = 0) as Hzero.
  { unfold count_fragments_of, delete_fragment_row. cbn [fragments].
    rewrite filter_swap, Hone. simpl. now rewrite String.eqb_refl. }
  rewrite Hzero. cbn [Nat.eqb].
  unfold insert_erasure, delete_entity, delete_fragment_row.
  cbn [erasure_id erasures entities fragments].
  apply (existsb_key_false erasure_id) in Hfresh. rewrite Hfresh.
  eexists. split; [reflexivity|]. split; [|reflexivity].
  apply get_entity_None. unfold in_store. cbn [entities].
  apply (delete_key_not_In e_entity_id).
Qed.

Lemma delete_last_fragment_cascades_witness :
  exists s',
    delete_fragment "E-000002-a-1-0" "dpo" "Manual deletion" "0002"
      "2024-02-01T00:00:00" sample.db1
    = ((true, "E-000002"), s')
    /\ get_entity "E-000002" s' = None
    /\ erasures s'
       = [{| erasure_id := "E-0002";
             er_entity_id := "E-000002";
             fragments_deleted := 1;
             requested_by := "dpo";
             reason := "Manual deletion";
             timestamp := "2024-02-01T00:00:00" |}].
Proof.
  apply (delete_last_fragment_cascades sample.db1
           {| e_entity_id := "E-000002"; fragment_count := 1;
              e_confidence := 1; created_at := "2024-01-01T00:00:00";
              updated_at := "2024-01-01T00:00:00" |}
           {| frag_id := "E-000002-a-1-0"; f_entity_id := "E-000002";
              frag_type := "EMAIL_ADDRESS"; f_value := "bob@example.com";
              f_source := "people.csv"; f_confidence := 1;
              f_created_at := "2024-01-01T00:00:00" |}).
  - vm_compute. repeat constructor; simpl; intuition discriminate.
  - vm_compute. right. left. reflexivity.
  - vm_compute. reflexivity.
  - vm_compute. tauto.
Defined.

(** ** save_mapping *)

Lemma memb_In (k : string) (ks : list string) : memb k ks = true <-> In k ks.
Proof.
  unfold memb. rewrite existsb_exists. split.
  - intros [x [Hx Hk]]. apply String.eqb_eq in Hk. now subst.
  - intro H. exists k. split; [assumption | apply String.eqb_refl].
Qed.

Lemma memb_false (k : string) (ks : list string) :
  memb k ks = false <-> ~ In k ks.
Proof.
  rewrite <- memb_In. destruct (memb k ks); split; intro H;
    try reflexivity; try discriminate; try (intro; discriminate).
  exfalso. now apply H.
Qed.

Lemma filter_filter {A : Type} (p q : A -> bool) (l : list A) :
  filter p (filter q l) = filter (fun x => q x && p x) l.
Proof.
  induction l as [|x l IH]; simpl; [reflexivity|].
  destruct (q x); simpl; [destruct (p x)|]; now rewrite IH.
Qed.

(** Step 1 removes the rows of the listed entities from both tables. *)
Lemma clear_old_spec (eids : list string) (s : Store) :
  clear_old eids s
  = {| entities := filter (fun e => negb (memb (e_entity_id e) eids)) (entities s);
       fragments := filter (fun f => negb (memb (f_entity_id f) eids)) (fragments s);
       erasures := erasures s |}.
Proof.
  revert s. induction eids as [|eid eids IH]; intro s.
  - simpl. rewrite !filter_true. now destruct s.
  - unfold clear_old in *. simpl fold_left. rewrite IH.
    unfold delete_entity, delete_fragments_of. cbn [entities fragments erasures].
    rewrite !filter_filter. f_equal.
    + apply filter_ext. intro e. unfold memb. simpl.
      rewrite (String.eqb_sym (e_entity_id e) eid).
      now rewrite negb_orb.
    + apply filter_ext. intro f. unfold memb. simpl.
      rewrite (String.eqb_sym (f_entity_id f) eid).
      now rewrite negb_orb.
Qed.

Lemma insert_fragments_spec (ts : string) (u : nat -> string) (eid : string)
    (l : list Grouped) :
  forall (i : nat) (s s' : Store),
    insert_fragments ts u eid i l s = Ok s' ->
    entities s' = entities s
    /\ fragments s' = fragments s ++ fragment_rows ts u eid i l
    /\ erasures s' = erasures s
    /\ (NoDup (map frag_id (fragments s)) -> NoDup (map frag_id (fragments s'))).
Proof.
  induction l as [|frag l IH]; intros i s s' H.
  - simpl in H. injection H as <-. simpl. rewrite app_nil_r. auto.
  - cbn [insert_fragments bind] in H.
    unfold insert_fragment in H. cbn [frag_id] in H.
    destruct (existsb _ (fragments s)) eqn:Hex; [discriminate|].
    cbn [bind] in H. apply IH in H. cbn [entities fragments erasures] in H.
    destruct H as [He [Hf [Hr Hnd]]].
    repeat split; try assumption.
    + rewrite Hf, <- app_assoc. reflexivity.
    + intro Hs. apply Hnd. rewrite map_app. simpl.
      apply (existsb_key_false frag_id) in Hex.
      apply NoDup_app; [assumption | repeat constructor; intros [] |].
      intros x Hx [Hy|[]]. subst x. contradiction.
Qed.

Lemma insert_groups_spec (ts : string) (u : nat -> nat -> string)
    (grouped : list (string * list Grouped)) :
  forall (g : nat) (s s' : Store),
    insert_groups ts u g grouped s = Ok s' ->
    entities s' = entities s ++ map (entity_row ts) grouped
    /\ fragments s' = fragments s ++ group_rows ts u g grouped
    /\ erasures s' = erasures s
    /\ NoDup (map fst grouped)
    /\ (forall k, In k (map fst grouped) -> ~ in_store k s)
    /\ (NoDup (map frag_id (fragments s)) -> NoDup (map frag_id (fragments s'))).
Proof.
  induction grouped as [|[eid l] grouped IH]; intros g s s' H.
  - simpl in H. injection H as <-. simpl. rewrite !app_nil_r.
    repeat split; auto. constructor.
  - cbn [insert_groups bind] in H.
    unfold insert_entity in H. cbn [e_entity_id] in H.
    destruct (existsb _ (entities s)) eqn:Hex; [discriminate|].
    cbn [bind] in H.
    destruct (insert_fragments ts (u g) eid 0 l _) as [s2|] eqn:Hins;
      [|discriminate].
    cbn [bind] in H.
    apply insert_fragments_spec in Hins. cbn [entities fragments erasures] in Hins.
    destruct Hins as [He2 [Hf2 [Hr2 Hnd2]]].
    apply IH in H. destruct H as [He [Hf [Hr [Hk [Hout Hnd]]]]].
    apply (existsb_key_false e_entity_id) in Hex.
    assert (~ In eid (map fst grouped)) as Hfresh.
    { intro Hin. apply (Hout _ Hin). unfold in_store. rewrite He2, map_app.
      apply in_or_app. right. now left. }
    repeat split.
    + rewrite He, He2, <- app_assoc. reflexivity.
    + rewrite Hf, Hf2, <- app_assoc. reflexivity.
    + congruence.
    + simpl. now constructor.
    + intros k [Hk0|Hk0].
      * simpl in Hk0. now subst k.
      * intro Hin. apply (Hout _ Hk0). unfold in_store in *.
        rewrite He2, map_app. apply in_or_app. now left.
    + auto.
Qed.

Lemma setdefault_append_keys (grouped : list (string * list Grouped))
    (eid : string) (x : Grouped) (k : string) :
  In k (map fst (setdefault_append grouped eid x))
  <-> k = eid \/ In k (map fst grouped).
Proof.
  induction grouped as [|[k' l] grouped IH]; simpl.
  - intuition.
  - destruct (String.eqb_spec k' eid) as [E|E]; simpl.
    + subst. intuition.
    + rewrite IH. intuition.
Qed.

Lemma setdefault_append_size (grouped : list (string * list Grouped))
    (eid : string) (x : Grouped) (k : string) :
  size_of k (setdefault_append grouped eid x)
  = size_of k grouped + (if (eid =? k)%string then 1 else 0).
Proof.
  unfold size_of.
  induction grouped as [|[k' l] grouped IH]; simpl.
  - destruct (eid =? k)%string; reflexivity.
  - destruct (String.eqb_spec k' eid) as [E|E]; simpl.
    + subst k'. destruct (eid =? k)%string.
      * rewrite !length_app. simpl. lia.
      * lia.
    + rewrite !length_app, IH. lia.
Qed.

Lemma group_spec (frags : list Fragment) (m : Mapping) :
  forall acc grouped,
    group m frags acc = Ok grouped ->
    (forall k, In k (map fst grouped)
               <-> In k (map fst acc)
                   \/ In k (map (fun kv => entity_id (snd kv)) m))
    /\ (forall k, size_of k grouped = size_of k acc + entries_of k m).
Proof.
  induction m as [|[idx info] m IH]; intros acc grouped H.
  - simpl in H. injection H as <-. split; intro k.
    + simpl. intuition.
    + unfold entries_of. simpl. lia.
  - simpl in H. destruct (nth_error frags idx) as [frag|]; [|discriminate].
    apply IH in H. destruct H as [Hk Hs]. split; intro k.
    + rewrite Hk, setdefault_append_keys. simpl. intuition.
    + rewrite Hs, setdefault_append_size. unfold entries_of. simpl.
      destruct (entity_id info =? k)%string; simpl; lia.
Qed.

Lemma size_of_absent (k : string) (grouped : list (string * list Grouped)) :
  ~ In k (map fst grouped) -> size_of k grouped = 0.
Proof.
  unfold size_of. induction grouped as [|[k' l] grouped IH]; simpl; intro H.
  - reflexivity.
  - destruct (String.eqb_spec k' k) as [E|E].
    + exfalso. apply H. now left.
    + apply IH. intro Hin. apply H. now right.
Qed.

Lemma size_of_unique (k : string) (l : list Grouped)
    (grouped : list (string * list Grouped)) :
  NoDup (map fst grouped) -> In (k, l) grouped ->
  size_of k grouped = List.length l.
Proof.
  induction grouped as [|[k' l'] grouped IH]; simpl; intros Hnd Hin.
  - destruct Hin.
  - inversion Hnd as [|? ? Hnot Hnd']; subst.
    unfold size_of. simpl. destruct Hin as [Hin|Hin].
    + injection Hin as -> ->. rewrite String.eqb_refl, length_app.
      fold (size_of k grouped). rewrite size_of_absent; [lia | assumption].
    + destruct (String.eqb_spec k' k) as [E|E].
      * exfalso. subst. apply Hnot. apply in_map_iff. now exists (k, l).
      * now apply IH.
Qed.

Lemma fragment_rows_select (ts : string) (u : nat -> string) (eid k : string)
    (l : list Grouped) (i : nat) :
  filter (fun f => (f_entity_id f =? k)%string) (fragment_rows ts u eid i l)
  = if (eid =? k)%string then fragment_rows ts u eid i l else [].
Proof.
  revert i. induction l as [|frag l IH]; intro i; simpl.
  - now destruct (eid =? k)%string.
  - rewrite IH. now destruct (eid =? k)%string.
Qed.

Lemma fragment_rows_length (ts : string) (u : nat -> string) (eid : string)
    (l : list Grouped) (i : nat) :
  List.length (fragment_rows ts u eid i l) = List.length l.
Proof. revert i. induction l; intro i; simpl; auto. Qed.

Lemma group_rows_count (ts : string) (u : nat -> nat -> string) (k : string)
    (grouped : list (string * list Grouped)) (g : nat) :
  List.length (filter (fun f => (f_entity_id f =? k)%string)
                 (group_rows ts u g grouped))
  = size_of k grouped.
Proof.
  unfold size_of. revert g.
  induction grouped as [|[eid l] grouped IH]; intro g; simpl; [reflexivity|].
  rewrite filter_app, !length_app, IH, fragment_rows_select.
  destruct (eid =? k)%string; simpl.
  - now rewrite fragment_rows_length.
  - reflexivity.
Qed.

Lemma group_rows_length (ts : string) (u : nat -> nat -> string)
    (grouped : list (string * list Grouped)) (g : nat) :
  List.length (group_rows ts u g grouped)
  = List.length (flat_map snd grouped).
Proof.
  revert g. induction grouped as [|[eid l] grouped IH]; intro g; simpl;
    [reflexivity|].
  now rewrite !length_app, IH, fragment_rows_length.
Qed.

Lemma group_rows_owner (ts : string) (u : nat -> nat -> string)
    (grouped : list (string * list Grouped)) (g : nat) (f : FragmentRow) :
  In f (group_rows ts u g grouped) -> In (f_entity_id f) (map fst grouped).
Proof.
  revert g. induction grouped as [|[eid l] grouped IH]; intros g H; simpl in *.
  - destruct H.
  - apply in_app_or in H. destruct H as [H|H].
    + left. clear IH. generalize dependent 0.
      induction l as [|x l IHl]; intros i H; simpl in H; [destruct H|].
      destruct H as [H|H]; [now subst f | eauto].
    + right. eauto.
Qed.

(** The two ways out of [save_mapping]. *)
Lemma save_mapping_committed (ts : string) (u : nat -> nat -> string)
    (m : Mapping) (frags : list Fragment) (s s' : Store) :
  save_mapping ts u m frags s = (Ok tt, s') ->
  exists grouped,
    group m frags [] = Ok grouped
    /\ insert_groups ts u 0 grouped (clear_old (entity_ids m) s) = Ok s'.
Proof.
  unfold save_mapping. intro H.
  destruct (group m frags []) as [grouped|e] eqn:Hg; cbn [bind] in H.
  - exists grouped. split; [reflexivity|].
    destruct (insert_groups ts u 0 grouped _) as [s2|e]; [|discriminate].
    now injection H as <-.
  - discriminate.
Qed.

Lemma save_mapping_cases (ts : string) (u : nat -> nat -> string)
    (m : Mapping) (frags : list Fragment) (s : Store) :
  (exists s', save_mapping ts u m frags s = (Ok tt, s'))
  \/ (exists e, save_mapping ts u m frags s = (Raise e, s)).
Proof.
  unfold save_mapping.
  destruct (bind _ _) as [s2|e]; [left; now exists s2 | right; now exists e].
Qed.

Lemma entity_ids_In (m : Mapping) (k : string) :
  In k (entity_ids m) <-> In k (map (fun kv => entity_id (snd kv)) m).
Proof. unfold entity_ids. apply nodup_In. Qed.

(** The shape of the database after a call that returned. *)
Lemma save_mapping_shape (ts : string) (u : nat -> nat -> string)
    (m : Mapping) (frags : list Fragment) (s s' : Store) :
  save_mapping ts u m frags s = (Ok tt, s') ->
  exists grouped,
    group m frags [] = Ok grouped
    /\ NoDup (map fst grouped)
    /\ (forall k, In k (map fst grouped) <-> In k (entity_ids m))
    /\ (forall k, size_of k grouped = entries_of k m)
    /\ entities s'
       = filter (fun e => negb (memb (e_entity_id e) (entity_ids m))) (entities s)
         ++ map (entity_row ts) grouped
    /\ fragments s'
       = filter (fun f => negb (memb (f_entity_id f) (entity_ids m))) (fragments s)
         ++ group_rows ts u 0 grouped
    /\ erasures s' = erasures s.
Proof.
  intro H. apply save_mapping_committed in H.
  destruct H as [grouped [Hg Hins]]. exists grouped.
  apply insert_groups_spec in Hins. rewrite clear_old_spec in Hins.
  cbn [entities fragments erasures] in Hins.
  destruct Hins as [He [Hf [Hr [Hnd _]]]].
  apply group_spec in Hg as Hg'. destruct Hg' as [Hk Hs].
  repeat split; try assumption.
  - intro Hin. apply entity_ids_In. apply Hk in Hin. simpl in Hin. tauto.
  - intro Hin. apply Hk. right. now apply entity_ids_In.
Qed.

(** ** The count invariant *)

Section Select.

Context {A : Type} (key : A -> string).

Lemma select_after_delete_other (k k' : string) (l : list A) :
  k <> k' ->
  filter (fun x => (key x =? k)%string)
    (filter (fun x => negb (key x =? k')%string) l)
  = filter (fun x => (key x =? k)%string) l.
Proof.
  intro Hne. rewrite filter_filter. apply filter_ext. intro x.
  destruct (String.eqb_spec (key x) k) as [E|E];
    destruct (String.eqb_spec (key x) k') as [E'|E']; try reflexivity.
  congruence.
Qed.

Lemma select_after_clear_absent (k : string) (ks : list string) (l : list A) :
  ~ In k ks ->
  filter (fun x => (key x =? k)%string)
    (filter (fun x => negb (memb (key x) ks)) l)
  = filter (fun x => (key x =? k)%string) l.
Proof.
  intro Hout. rewrite filter_filter. apply filter_ext. intro x.
  destruct (String.eqb_spec (key x) k) as [E|E].
  - subst k. apply memb_false in Hout. now rewrite Hout.
  - apply andb_false_r.
Qed.

Lemma select_after_clear_present (k : string) (ks : list string) (l : list A) :
  In k ks ->
  filter (fun x => (key x =? k)%string)
    (filter (fun x => negb (memb (key x) ks)) l)
  = [].
Proof.
  intro Hin. apply select_key_nil. intro H.
  apply in_map_iff in H. destruct H as [x [Hk Hx]].
  apply filter_In in Hx. destruct Hx as [_ Hx].
  apply negb_true_iff, memb_false in Hx. congruence.
Qed.

Lemma NoDup_map_filter (p : A -> bool) (l : list A) :
  NoDup (map key l) -> NoDup (map key (filter p l)).
Proof.
  induction l as [|x l IH]; simpl; intro H; [constructor|].
  inversion H as [|? ? Hnot Hnd]; subst.
  destruct (p x); simpl; [|auto].
  constructor; [|auto].
  intro Hin. apply Hnot. apply in_map_iff in Hin.
  destruct Hin as [y [Hy Hin]]. apply filter_In in Hin.
  apply in_map_iff. exists y. tauto.
Qed.

End Select.

(** Deleting the row with a given id leaves the rows of the other entities. *)
Lemma select_after_delete_row (k : string) (row : FragmentRow)
    (l : list FragmentRow) :
  NoDup (map frag_id l) -> In row l -> k <> f_entity_id row ->
  filter (fun f => (f_entity_id f =? k)%string)
    (filter (fun f => negb (frag_id f =? frag_id row)%string) l)
  = filter (fun f => (f_entity_id f =? k)%string) l.
Proof.
  intros Hnd Hrow Hne. rewrite filter_filter. apply filter_ext_in.
  intros f Hf.
  destruct (String.eqb_spec (frag_id f) (frag_id row)) as [E|E]; simpl;
    [|reflexivity].
  assert (f = row) by now apply (unique_key_row frag_id l).
  subst f. symmetry. apply String.eqb_neq. congruence.
Qed.

Lemma save_mapping_consistent (ts : string) (u : nat -> nat -> string)
    (m : Mapping) (frags : list Fragment) (s : Store) :
  consistent s -> consistent (snd (save_mapping ts u m frags s)).
Proof.
  intros [Hpk Hcount].
  destruct (save_mapping_cases ts u m frags s) as [[s' H]|[e H]];
    rewrite H; cbn [snd]; [|now split].
  split.
  - apply save_mapping_committed in H. destruct H as [grouped [_ Hins]].
    apply insert_groups_spec in Hins.
    destruct Hins as [_ [_ [_ [_ [_ Hnd]]]]]. apply Hnd.
    rewrite clear_old_spec. cbn [fragments].
    now apply NoDup_map_filter.
  - apply save_mapping_shape in H.
    destruct H as [grouped [_ [Hnd [Hkeys [_ [He [Hf _]]]]]]].
    intros e Hin. unfold count_fragments_of.
    rewrite Hf, filter_app, length_app, group_rows_count.
    rewrite He in Hin. apply in_app_or in Hin. destruct Hin as [Hin|Hin].
    + apply filter_In in Hin. destruct Hin as [Hin Hout].
      apply negb_true_iff, memb_false in Hout.
      rewrite (select_after_clear_absent f_entity_id) by assumption.
      rewrite size_of_absent; [|now rewrite Hkeys].
      rewrite Nat.add_0_r. now apply Hcount.
    + apply in_map_iff in Hin. destruct Hin as [[k l] [<- Hin]].
      cbn [entity_row e_entity_id fragment_count fst snd].
      assert (In k (map fst grouped)) as Hk.
      { apply in_map_iff. now exists (k, l). }
      rewrite (select_after_clear_present f_entity_id) by now apply Hkeys.
      now rewrite (size_of_unique k l).
Qed.

Lemma erase_entity_consistent (eid rb rs u now : string) (s : Store) :
  consistent s -> consistent (snd (erase_entity eid rb rs u now s)).
Proof.
  intros [Hpk Hcount]. unfold erase_entity.
  destruct (count_entities eid s =? 0); [now split|].
  unfold insert_erasure.
  destruct (existsb _ _); cbn [snd]; [now split|].
  unfold delete_entity, delete_fragments_of. cbn [entities fragments erasures].
  split; cbn [fragments].
  - now apply NoDup_map_filter.
  - intros e Hin. cbn [entities] in Hin. apply filter_In in Hin.
    destruct Hin as [Hin Hne]. apply negb_true_iff, String.eqb_neq in Hne.
    unfold count_fragments_of. cbn [fragments].
    rewrite (select_after_delete_other f_entity_id) by assumption.
    now apply Hcount.
Qed.

Lemma delete_fragment_consistent (fid rb rs u now : string) (s : Store) :
  consistent s -> consistent (snd (delete_fragment fid rb rs u now s)).
Proof.
  intros [Hpk Hcount]. unfold delete_fragment.
  destruct (find _ (fragments s)) as [row|] eqn:Hfind; [|now split].
  apply find_some in Hfind. destruct Hfind as [Hrow Hid].
  apply String.eqb_eq in Hid. subst fid.
  unfold delete_fragment_body.
  destruct (count_fragments_of _ _ =? 0) eqn:Hzero.
  - unfold insert_erasure. destruct (existsb _ _); cbn [snd]; [now split|].
    unfold delete_entity, delete_fragment_row.
    cbn [entities fragments erasures].
    split; cbn [fragments].
    + now apply NoDup_map_filter.
    + intros e Hin. cbn [entities] in Hin. apply filter_In in Hin.
      destruct Hin as [Hin Hne]. apply negb_true_iff, String.eqb_neq in Hne.
      unfold count_fragments_of. cbn [fragments].
      rewrite select_after_delete_row by assumption.
      now apply Hcount.
  - cbn [snd]. unfold update_entity, delete_fragment_row.
    split; cbn [fragments].
    + now apply NoDup_map_filter.
    + intros e' Hin. cbn [entities] in Hin. apply in_map_iff in Hin.
      destruct Hin as [e [He' Hin]].
      destruct (String.eqb_spec (e_entity_id e) (f_entity_id row)) as [E|E];
        subst e'.
      * cbn [fragment_count e_entity_id]. now rewrite E.
      * unfold count_fragments_of. cbn [fragments].
        rewrite select_after_delete_row by assumption.
        now apply Hcount.
Qed.

Lemma apply_consistent (o : operation) (s : Store) :
  consistent s -> consistent (apply s o).
Proof.
  destruct o; simpl.
  - apply save_mapping_consistent.
  - apply delete_fragment_consistent.
  - apply erase_entity_consistent.
Qed.

Lemma run_consistent (ops : list operation) :
  forall s, consistent s -> consistent (run ops s).
Proof.
  unfold run. induction ops as [|o ops IH]; intros s H; simpl.
  - assumption.
  - apply IH. now apply apply_consistent.
Qed.

(** C1: after any sequence of calls of [save_mapping], [delete_fragment]
    and [erase_entity] on the database [init_db] created, whatever the
    arguments and whatever the ids and timestamps drawn, the column
    [fragment_count] of every entity row equals the number of fragment rows
    whose [entity_id] is that of the entity. *)
Theorem fragment_count_invariant :
  forall (ops : list operation) (e : Entity),
    In e (entities (run ops init_db)) ->
    fragment_count e = count_fragments_of (e_entity_id e) (run ops init_db).
Proof.
  intros ops.
  assert (consistent init_db) as H0.
  { split; [constructor | intros e []]. }
  apply (run_consistent ops) in H0. exact (proj2 H0).
Qed.

Lemma fragment_count_invariant_witness :
  let ops :=
    [SaveMapping "2024-01-01T00:00:00" (sample.uuids "a") sample.linked
       sample.scan;
     DeleteFragment "E-000001-a-0-1" "dpo" "Manual deletion" "0003"
       "2024-03-01T00:00:00"] in
  let e :=
    {| e_entity_id := "E-000001"; fragment_count := 1;
       e_confidence := 1%Q; created_at := "2024-01-01T00:00:00";
       updated_at := "2024-03-01T00:00:00" |} in
  In e (entities (run ops init_db))
  /\ fragment_count e = count_fragments_of (e_entity_id e) (run ops init_db).
Proof.
  intros ops e.
  assert (In e (entities (run ops init_db))) as Hin.
  { vm_compute. left. reflexivity. }
  split; [exact Hin | exact (fragment_count_invariant ops e Hin)].
Defined.

(** ** Saving the same pass twice *)

Lemma find_app {A : Type} (p : A -> bool) (l1 l2 : list A) :
  find p (l1 ++ l2)
  = match find p l1 with Some x => Some x | None => find p l2 end.
Proof.
  induction l1 as [|x l1 IH]; simpl; [reflexivity|].
  now destruct (p x).
Qed.

Lemma find_entity_row (ts k : string) (grouped : list (string * list Grouped)) :
  In k (map fst grouped) ->
  exists l,
    In (k, l) grouped
    /\ find (fun e => (e_entity_id e =? k)%string) (map (entity_row ts) grouped)
       = Some (entity_row ts (k, l)).
Proof.
  induction grouped as [|[k' l'] grouped IH]; simpl; intro H; [destruct H|].
  destruct (String.eqb_spec k' k) as [E|E].
  - subst k'. exists l'. auto.
  - destruct H as [H|H]; [contradiction|].
    destruct (IH H) as [l [Hin Hfind]]. exists l. auto.
Qed.

(** After a call that returned, the row of a saved entity counts the
    entries of the mapping that name it, and so many rows reference it. *)
Lemma save_mapping_counts (ts : string) (u : nat -> nat -> string)
    (m : Mapping) (frags : list Fragment) (s s' : Store) (eid : string) :
  save_mapping ts u m frags s = (Ok tt, s') ->
  In eid (entity_ids m) ->
  stored_count eid s' = Some (entries_of eid m)
  /\ count_fragments_of eid s' = entries_of eid m.
Proof.
  intros H Hin. apply save_mapping_shape in H.
  destruct H as [grouped [_ [Hnd [Hkeys [Hsize [He [Hf _]]]]]]].
  split.
  - unfold stored_count. rewrite He, find_app.
    rewrite (find_key_None e_entity_id).
    + destruct (find_entity_row ts eid grouped) as [l [Hl Hfind]];
        [now apply Hkeys|].
      rewrite Hfind. cbn [option_map entity_row fragment_count snd].
      now rewrite <- (size_of_unique eid l grouped), Hsize.
    + intro Hx. apply in_map_iff in Hx. destruct Hx as [e [Hk Hx]].
      apply filter_In in Hx. destruct Hx as [_ Hx].
      apply negb_true_iff, memb_false in Hx. congruence.
  - unfold count_fragments_of.
    rewrite Hf, filter_app, length_app, group_rows_count.
    rewrite (select_after_clear_present f_entity_id) by assumption.
    now rewrite Hsize.
Qed.

Lemma save_mapping_total_rows (ts : string) (u : nat -> nat -> string)
    (m : Mapping) (frags : list Fragment) (s s' : Store) :
  save_mapping ts u m frags s = (Ok tt, s') ->
  List.length (fragments s')
  = List.length (filter (fun f => negb (memb (f_entity_id f) (entity_ids m)))
                   (fragments s))
    + List.length m.
Proof.
  intro H. apply save_mapping_shape in H.
  destruct H as [grouped [Hg [_ [_ [_ [_ [Hf _]]]]]]].
  rewrite Hf, length_app, group_rows_length. f_equal.
  clear Hf. revert Hg.
  assert (forall acc grouped,
             group m frags acc = Ok grouped ->
             List.length (flat_map snd grouped)
             = List.length (flat_map snd acc) + List.length m) as Hgen.
  { clear. induction m as [|[idx info] m IH]; intros acc grouped H.
    - simpl in H. injection H as <-. simpl. lia.
    - simpl in H. destruct (nth_error frags idx); [|discriminate].
      apply IH in H. rewrite H. simpl.
      assert (forall g eid x,
                 List.length (flat_map snd (setdefault_append g eid x))
                 = S (List.length (flat_map snd g))) as Hs.
      { clear. induction g as [|[k l] g IHg]; intros eid x; simpl.
        - reflexivity.
        - destruct (k =? eid)%string; simpl; rewrite !length_app.
          + simpl. lia.
          + rewrite IHg. lia. }
      rewrite Hs. lia. }
  intro Hg. now rewrite (Hgen [] grouped Hg).
Qed.

Lemma filter_none {A : Type} (p : A -> bool) (l : list A) :
  (forall x, In x l -> p x = false) -> filter p l = [].
Proof.
  induction l as [|x l IH]; simpl; intro H; [reflexivity|].
  rewrite (H x) by now left. apply IH. intros y Hy. apply H. now right.
Qed.

Lemma clear_saved_rows (ts : string) (u : nat -> nat -> string)
    (m : Mapping) (frags : list Fragment) (s s' : Store) :
  save_mapping ts u m frags s = (Ok tt, s') ->
  filter (fun f => negb (memb (f_entity_id f) (entity_ids m))) (fragments s')
  = filter (fun f => negb (memb (f_entity_id f) (entity_ids m))) (fragments s).
Proof.
  intro H. apply save_mapping_shape in H.
  destruct H as [grouped [_ [_ [Hkeys [_ [_ [Hf _]]]]]]].
  rewrite Hf, filter_app, filter_filter.
  rewrite (filter_none _ (group_rows ts u 0 grouped)).
  - rewrite app_nil_r. apply filter_ext. intro f. apply andb_diag.
  - intros f Hin. apply group_rows_owner in Hin. apply Hkeys in Hin.
    apply memb_In in Hin. now rewrite Hin.
Qed.

(** C2: when [save_mapping] has returned, calling it again with the same
    mapping and fragments leaves the [fragment_count] of every saved entity
    (the number of entries of the mapping that name it), the number of rows
    that reference it, and the total number of fragment rows as the first
    call left them. *)
Theorem save_mapping_twice :
  forall (ts1 ts2 : string) (u1 u2 : nat -> nat -> string) (m : Mapping)
         (frags : list Fragment) (s s1 : Store),
    save_mapping ts1 u1 m frags s = (Ok tt, s1) ->
    let s2 := snd (save_mapping ts2 u2 m frags s1) in
    (forall eid, In eid (entity_ids m) ->
       stored_count eid s1 = Some (entries_of eid m)
       /\ stored_count eid s2 = stored_count eid s1
       /\ count_fragments_of eid s2 = count_fragments_of eid s1)
    /\ List.length (fragments s2) = List.length (fragments s1).
Proof.
  intros ts1 ts2 u1 u2 m frags s s1 H1 s2.
  destruct (save_mapping_cases ts2 u2 m frags s1) as [[s' H2]|[e H2]];
    subst s2; rewrite H2; cbn [snd].
  - split.
    + intros eid Hin.
      destruct (save_mapping_counts _ _ _ _ _ _ eid H1 Hin) as [Ha Hb].
      destruct (save_mapping_counts _ _ _ _ _ _ eid H2 Hin) as [Hc Hd].
      repeat split; congruence.
    + rewrite (save_mapping_total_rows _ _ _ _ _ _ H2).
      rewrite (clear_saved_rows _ _ _ _ _ _ H1).
      now rewrite (save_mapping_total_rows _ _ _ _ _ _ H1).
  - split; [|reflexivity].
    intros eid Hin.
    destruct (save_mapping_counts _ _ _ _ _ _ eid H1 Hin) as [Ha Hb].
    auto.
Qed.

Lemma save_mapping_twice_witness :
  let s2 :=
    snd (save_mapping "2024-06-01T00:00:00" (sample.uuids "b") sample.linked
           sample.scan sample.db1) in
  (forall eid, In eid (entity_ids sample.linked) ->
     stored_count eid sample.db1 = Some (entries_of eid sample.linked)
     /\ stored_count eid s2 = stored_count eid sample.db1
     /\ count_fragments_of eid s2 = count_fragments_of eid sample.db1)
  /\ List.length (fragments s2) = List.length (fragments sample.db1).
Proof.
  apply (save_mapping_twice "2024-01-01T00:00:00" "2024-06-01T00:00:00"
           (sample.uuids "a") (sample.uuids "b") sample.linked sample.scan
           init_db sample.db1).
  vm_compute. reflexivity.
Defined.

(** ** Timestamps of a saved entity *)




(** ** Entity ids across passes *)

(** Two passes over different sources both call their first cluster
    E-000001: the id the second pass gives to carol@example.org is in the
    store already, for the two fragments of alice@example.com, and saving
    the second pass replaces them. *)
Lemma entity_id_reused_by_second_pass :
  let m1 := fst (cluster_fragments sample.scan (Py.float (85 # 100))) in
  let s1 := snd (save_mapping "2024-01-01T00:00:00" (sample.uuids "a") m1
                   sample.scan init_db) in
  let m2 := fst (cluster_fragments sample.scan2 (Py.float (85 # 100))) in
  let s2 := snd (save_mapping "2024-06-01T00:00:00" (sample.uuids "b") m2
                   sample.scan2 s1) in
  entity_ids m2 = ["E-000001"]
  /\ in_store "E-000001" s1
  /\ stored_values "E-000001" s1 = ["alice@example.com"; "alice@example.com"]
  /\ cluster_values m2 sample.scan2 "E-000001" = ["carol@example.org"]
  /\ stored_values "E-000001" s2 = ["carol@example.org"].
Proof. vm_compute. repeat split. now left. Qed.

(** ** The names of the entities *)

Lemma uint_of_string_zeros (k : nat) (s : string) :
  NilEmpty.uint_of_string (Py.zeros k ++ s)%string
  = option_map (Nat.iter k Decimal.D0) (NilEmpty.uint_of_string s).
Proof.
  induction k as [|k IH]; simpl.
  - now destruct (NilEmpty.uint_of_string s).
  - rewrite IH. now destruct (NilEmpty.uint_of_string s).
Qed.

Lemma of_uint_leading_zeros (k : nat) (d : Decimal.uint) :
  Nat.of_uint (Nat.iter k Decimal.D0 d) = Nat.of_uint d.
Proof.
  induction k as [|k IH]; simpl; [reflexivity|].
  exact IH.
Qed.

Lemma decode_format_06d (n : nat) : decode_06d (Py.format_06d n) = Some n.
Proof.
  unfold decode_06d, Py.format_06d, Py.decimal.
  rewrite uint_of_string_zeros, NilEmpty.usu. simpl.
  now rewrite of_uint_leading_zeros, DecimalNat.Unsigned.of_to.
Qed.

Lemma entity_name_inj (a b : nat) : entity_name a = entity_name b -> a = b.
Proof.
  unfold entity_name. simpl. intro H. injection H as H.
  apply (f_equal decode_06d) in H. rewrite !decode_format_06d in H.
  now injection H.
Qed.

Lemma entity_names_NoDup (start len : nat) :
  NoDup (map entity_name (seq start len)).
Proof.
  revert start. induction len as [|len IH]; intro start; simpl; constructor.
  - intro H. apply in_map_iff in H. destruct H as [x [Hx Hin]].
    apply entity_name_inj in Hx. apply in_seq in Hin. lia.
  - apply IH.
Qed.

(** ** The loop of the linker *)

Lemma Qle_bool_false (x y : Q) : Qle_bool x y = false -> (y < x)%Q.
Proof.
  intro H. apply Qnot_le_lt. intro Hle.
  apply Qle_bool_iff in Hle. congruence.
Qed.

Lemma Qle_bool_qmax (t s x : Q) :
  Qle_bool t (qmax s x) = Qle_bool t s || Qle_bool t x.
Proof.
  unfold qmax. destruct (Qle_bool x s) eqn:Hxs.
  - apply Qle_bool_iff in Hxs.
    destruct (Qle_bool t s) eqn:Hts; simpl; [reflexivity|].
    destruct (Qle_bool t x) eqn:Htx; [|reflexivity].
    apply Qle_bool_iff in Htx.
    assert (t <= s)%Q as H by (eapply Qle_trans; eassumption).
    apply Qle_bool_iff in H. congruence.
  - apply Qle_bool_false in Hxs.
    destruct (Qle_bool t s) eqn:Hts; simpl; [|reflexivity].
    apply Qle_bool_iff in Hts. apply Qle_bool_iff.
    apply Qlt_le_weak. eapply Qle_lt_trans; eassumption.
Qed.

Lemma Qle_bool_fold_qmax (t : Q) (ss : list Q) :
  forall s, Qle_bool t (fold_left qmax ss s)
            = Qle_bool t s || existsb (Qle_bool t) ss.
Proof.
  induction ss as [|x ss IH]; intro s; simpl.
  - now rewrite orb_false_r.
  - now rewrite IH, Qle_bool_qmax, orb_assoc.
Qed.

Lemma existsb_map {A B : Type} (p : B -> bool) (g : A -> B) (l : list A) :
  existsb p (map g l) = existsb (fun x => p (g x)) l.
Proof. induction l as [|x l IH]; simpl; [reflexivity | now rewrite IH]. Qed.

Lemma existsb_same_elements {A : Type} (p : A -> bool) (l1 l2 : list A) :
  (forall x, In x l1 <-> In x l2) -> existsb p l1 = existsb p l2.
Proof.
  intro H.
  destruct (existsb p l1) eqn:H1, (existsb p l2) eqn:H2; try reflexivity.
  - apply existsb_exists in H1. destruct H1 as [x [Hin Hp]].
    assert (existsb p l2 = true) as H3.
    { apply existsb_exists. exists x. split; [now apply H | assumption]. }
    congruence.
  - apply existsb_exists in H2. destruct H2 as [x [Hin Hp]].
    assert (existsb p l1 = true) as H3.
    { apply existsb_exists. exists x. split; [now apply H | assumption]. }
    congruence.
Qed.

(** A group reaches the threshold when one of its members does. *)
Lemma max_similarity_reaches (t : Q) (val : string) (members : list Fragment) :
  members <> [] ->
  Qle_bool t (max_similarity val members) = existsb (similar t val) members.
Proof.
  destruct members as [|f members]; [congruence|]. intros _.
  unfold max_similarity. cbn [map].
  rewrite Qle_bool_fold_qmax, existsb_map. reflexivity.
Qed.

Lemma match_existing_None (t : Q) (val : string) (row : Fragment)
    (groups : Groups) :
  (forall k l, In (k, l) groups -> l <> []) ->
  match_existing val t row groups = None ->
  existsb (similar t val) (members_of groups) = false.
Proof.
  unfold members_of.
  induction groups as [|[k l] groups IH]; simpl; intros Hne H; [reflexivity|].
  rewrite max_similarity_reaches in H by (apply (Hne k); now left).
  destruct (existsb (similar t val) l) eqn:Hl; [discriminate|].
  rewrite existsb_app, Hl. simpl. apply IH.
  - intros k' l' Hin. apply (Hne k'). now right.
  - destruct (match_existing val t row groups) as [[[e m'] r]|];
      [discriminate | reflexivity].
Qed.

Lemma match_existing_Some (t : Q) (val : string) (row : Fragment)
    (groups groups' : Groups) (eid : string) (m : Q) :
  (forall k l, In (k, l) groups -> l <> []) ->
  match_existing val t row groups = Some (eid, m, groups') ->
  existsb (similar t val) (members_of groups) = true
  /\ map fst groups' = map fst groups
  /\ In eid (map fst groups)
  /\ (forall f, In f (members_of groups') <-> In f (members_of groups) \/ f = row)
  /\ (forall k l, In (k, l) groups' -> l <> []).
Proof.
  unfold members_of. revert groups'.
  induction groups as [|[k l] groups IH]; simpl; intros groups' Hne H;
    [discriminate|].
  rewrite max_similarity_reaches in H by (apply (Hne k); now left).
  destruct (existsb (similar t val) l) eqn:Hl.
  - injection H as <- _ <-. rewrite existsb_app, Hl. simpl.
    repeat split; auto.
    + intro Hin. rewrite !in_app_iff in Hin. simpl in Hin.
      rewrite in_app_iff. intuition.
    + intro Hin. rewrite !in_app_iff. simpl. rewrite in_app_iff in Hin.
      intuition.
    + intros k' l' [Hin|Hin].
      * injection Hin as <- <-. now destruct l.
      * apply (Hne k'). now right.
  - destruct (match_existing val t row groups) as [[[e m'] r]|] eqn:Hrec;
      [|discriminate].
    injection H as <- <- <-.
    destruct (IH r) as [H1 [H2 [H3 [H4 H5]]]]; [|reflexivity|].
    { intros k' l' Hin. apply (Hne k'). now right. }
    rewrite existsb_app, H1, orb_true_r. simpl.
    repeat split; auto.
    + now rewrite H2.
    + intro Hin. rewrite in_app_iff in Hin. rewrite in_app_iff.
      destruct Hin as [Hin|Hin]; [tauto|]. apply H4 in Hin. tauto.
    + intro Hin. rewrite in_app_iff. rewrite in_app_iff in Hin.
      destruct Hin as [[Hin|Hin]|Hin]; [tauto | |]; right; apply H4; tauto.
    + intros k' l' [Hin|Hin].
      * injection Hin as <- <-. apply (Hne k). now left.
      * now apply (H5 k').
Qed.

Lemma dict_set_fresh {K V : Type} (eqb : K -> K -> bool) (d : list (K * V))
    (k : K) (v : V) :
  (forall k', In k' (map fst d) -> eqb k' k = false) ->
  dict.set eqb d k v = d ++ [(k, v)].
Proof.
  induction d as [|[k' v'] d IH]; simpl; intro H; [reflexivity|].
  rewrite (H k') by now left. f_equal. apply IH.
  intros k'' Hin. apply H. now right.
Qed.

Lemma linked_initial : linked initial [] 0.
Proof.
  constructor; simpl; try tauto; reflexivity.
Qed.

Lemma mapping_set_next (st : State) (prev : list Fragment) (i : nat)
    (info : Info) :
  linked st prev i ->
  dict.set Nat.eqb (mapping st) i info = mapping st ++ [(i, info)].
Proof.
  intro H. apply dict_set_fresh. intros j Hj.
  apply (linked_indices _ _ _ H) in Hj. apply Nat.eqb_neq. lia.
Qed.

Lemma groups_set_next (st : State) (prev : list Fragment) (i : nat)
    (members : list Fragment) :
  linked st prev i ->
  dict.set String.eqb (entity_groups st)
    (entity_name (entity_counter st + 1)) members
  = entity_groups st ++ [(entity_name (entity_counter st + 1), members)].
Proof.
  intro H. apply dict_set_fresh. intros k Hk.
  rewrite (linked_keys _ _ _ H) in Hk. apply in_map_iff in Hk.
  destruct Hk as [x [<- Hx]]. apply in_seq in Hx.
  apply String.eqb_neq. intro E. apply entity_name_inj in E. lia.
Qed.

Lemma members_of_app (g1 g2 : Groups) :
  members_of (g1 ++ g2) = members_of g1 ++ members_of g2.
Proof. unfold members_of. apply flat_map_app. Qed.

(** One round of the loop keeps [linked], and starts a cluster exactly for
    a row that is not blank and is similar to no row kept so far. *)
Lemma step_linked (t : Q) (st : State) (prev : list Fragment) (i : nat)
    (row : Fragment) :
  linked st prev i ->
  linked (step t st i row) (if nonblank row then prev ++ [row] else prev) (S i)
  /\ entity_counter (step t st i row)
     = entity_counter st
       + (if nonblank row
          then if existsb (similar t (normalize (value row))) prev
               then 0 else 1
          else 0).
Proof.
  intro H. unfold step. unfold nonblank.
  destruct (Py.truthy (normalize (value row))) eqn:Hval; cbn [negb].
  2:{ split; [|simpl; lia].
      destruct H as [H1 H2 H3 H4 H5 H6].
      constructor; cbn [entity_groups mapping entity_counter]; auto.
      intros j Hj. apply H5 in Hj. lia. }
  destruct (match_existing (normalize (value row)) t row (entity_groups st))
    as [[[eid m] groups']|] eqn:Hmatch.
  - apply match_existing_Some in Hmatch; [|exact (linked_nonempty _ _ _ H)].
    destruct Hmatch as [Hex [Hkeys [Heid [Hmem Hne]]]].
    rewrite (existsb_same_elements _ _ prev (linked_members _ _ _ H)) in Hex.
    rewrite Hex. cbn [entity_counter]. split; [|lia].
    rewrite (mapping_set_next st prev i _ H).
    destruct H as [H1 H2 H3 H4 H5 H6].
    constructor; cbn [entity_groups mapping entity_counter].
    + now rewrite Hkeys.
    + exact Hne.
    + intro f. rewrite Hmem, H3, in_app_iff. simpl. intuition.
    + intro k. rewrite map_app, in_app_iff, Hkeys, H4. simpl.
      intuition. now subst k.
    + intros j Hj. rewrite map_app, in_app_iff in Hj. simpl in Hj.
      destruct Hj as [Hj|[Hj|[]]]; [apply H5 in Hj|]; lia.
    + rewrite !length_app, H6. reflexivity.
  - apply match_existing_None in Hmatch; [|exact (linked_nonempty _ _ _ H)].
    rewrite (existsb_same_elements _ _ prev (linked_members _ _ _ H)) in Hmatch.
    rewrite Hmatch. cbn [entity_counter]. split; [|lia].
    rewrite (mapping_set_next st prev i _ H).
    rewrite (groups_set_next st prev i _ H).
    destruct H as [H1 H2 H3 H4 H5 H6].
    constructor; cbn [entity_groups mapping entity_counter].
    + rewrite map_app, H1, Nat.add_1_r, seq_S, map_app. reflexivity.
    + intros k l Hin. apply in_app_or in Hin. destruct Hin as [Hin|[Hin|[]]].
      * now apply (H2 k).
      * injection Hin as _ <-. discriminate.
    + intro f. rewrite members_of_app, !in_app_iff, H3. simpl. intuition.
    + intro k. rewrite !map_app, !in_app_iff, H4. simpl. intuition.
    + intros j Hj. rewrite map_app, in_app_iff in Hj. simpl in Hj.
      destruct Hj as [Hj|[Hj|[]]]; [apply H5 in Hj|]; lia.
    + rewrite !length_app, H6. reflexivity.
Qed.

Lemma loop_linked (t : Q) (rows : list Fragment) :
  forall (st : State) (prev : list Fragment) (i : nat),
    linked st prev i ->
    linked (loop t st i rows) (prev ++ filter nonblank rows)
      (i + List.length rows)
    /\ entity_counter (loop t st i rows) = entity_counter st + seeds t prev rows.
Proof.
  induction rows as [|row rows IH]; intros st prev i H; simpl.
  - rewrite app_nil_r, !Nat.add_0_r. auto.
  - destruct (step_linked t st prev i row H) as [Hl Hc].
    apply IH in Hl. destruct Hl as [Hl Hc'].
    rewrite Hc', Hc, <- Nat.add_succ_comm.
    destruct (nonblank row).
    + rewrite <- app_assoc in Hl. simpl in Hl. split; [exact Hl | lia].
    + split; [exact Hl | lia].
Qed.

Lemma cluster_fragments_mapping (frags : list Fragment) (t : Q) :
  fst (cluster_fragments frags t) = mapping (loop t initial 0 frags).
Proof. destruct frags; reflexivity. Qed.

(** The ids of a pass are the names of 1, ..., [entity_counter]. *)
Lemma entity_ids_of_pass (st : State) (prev : list Fragment) (i : nat) :
  linked st prev i ->
  Permutation (entity_ids (mapping st))
    (map entity_name (seq 1 (entity_counter st))).
Proof.
  intro H. apply NoDup_Permutation.
  - apply NoDup_nodup.
  - apply entity_names_NoDup.
  - intro k. rewrite entity_ids_In, (linked_ids _ _ _ H).
    now rewrite (linked_keys _ _ _ H).
Qed.

Lemma entity_count_of_pass (frags : list Fragment) (t : Q) :
  entity_count (fst (cluster_fragments frags t)) = seeds t [] frags.
Proof.
  rewrite cluster_fragments_mapping.
  destruct (loop_linked t frags initial [] 0 linked_initial) as [Hl Hc].
  unfold entity_count.
  rewrite (Permutation_length (entity_ids_of_pass _ _ _ Hl)).
  rewrite length_map, length_seq, Hc. reflexivity.
Qed.

Lemma mapping_length_of_pass (frags : list Fragment) (t : Q) :
  List.length (fst (cluster_fragments frags t))
  = List.length (filter nonblank frags).
Proof.
  rewrite cluster_fragments_mapping.
  destruct (loop_linked t frags initial [] 0 linked_initial) as [Hl _].
  now rewrite (linked_length _ _ _ Hl).
Qed.

(** ** The threshold *)

Lemma similar_weaken (t1 t2 : Q) (val : string) (f : Fragment) :
  (t1 <= t2)%Q -> similar t2 val f = true -> similar t1 val f = true.
Proof.
  unfold similar. intros Hle H. apply Qle_bool_iff in H. apply Qle_bool_iff.
  eapply Qle_trans; eassumption.
Qed.

Lemma seeds_monotone (t1 t2 : Q) (rows : list Fragment) :
  (t1 <= t2)%Q -> forall prev, seeds t1 prev rows <= seeds t2 prev rows.
Proof.
  intro Hle. induction rows as [|row rows IH]; intro prev; simpl; [lia|].
  destruct (nonblank row); [|apply IH].
  specialize (IH (prev ++ [row])).
  destruct (existsb (similar t2 (normalize (value row))) prev) eqn:H2.
  - apply existsb_exists in H2. destruct H2 as [f [Hin Hf]].
    apply (similar_weaken t1 t2) in Hf; [|assumption].
    assert (existsb (similar t1 (normalize (value row))) prev = true) as H1.
    { apply existsb_exists. now exists f. }
    rewrite H1. lia.
  - destruct (existsb (similar t1 (normalize (value row))) prev); lia.
Qed.

Lemma seeds_bounded (t : Q) (rows : list Fragment) :
  forall prev, seeds t prev rows <= List.length (filter nonblank rows).
Proof.
  induction rows as [|row rows IH]; intro prev; simpl; [lia|].
  destruct (nonblank row); simpl; [|apply IH].
  specialize (IH (prev ++ [row])).
  destruct (existsb _ prev); lia.
Qed.

Lemma seeds_positive (t : Q) (rows : list Fragment) :
  0 < List.length (filter nonblank rows) -> 0 < seeds t [] rows.
Proof.
  induction rows as [|row rows IH]; simpl; intro H; [lia|].
  destruct (nonblank row); simpl in *; [lia | auto].
Qed.

Lemma Zpos_of_nat (n : nat) : 0 < n -> Zpos (Pos.of_nat n) = Z.of_nat n.
Proof.
  intro H. rewrite <- positive_nat_Z, Nat2Pos.id; [reflexivity | lia].
Qed.

(** C4: for a fixed list of fragments and thresholds t1 <= t2, clustering
    at t1 gives no more entity ids than clustering at t2, and a mean number
    of fragments per entity that is at least the one at t2. *)
Theorem threshold_monotone :
  forall (frags : list Fragment) (t1 t2 : Q),
    (t1 <= t2)%Q ->
    let m1 := fst (cluster_fragments frags t1) in
    let m2 := fst (cluster_fragments frags t2) in
    entity_count m1 <= entity_count m2
    /\ (average_cluster_size m2 <= average_cluster_size m1)%Q.
Proof.
  intros frags t1 t2 Hle m1 m2.
  assert (entity_count m1 <= entity_count m2) as Hcount.
  { subst m1 m2. rewrite !entity_count_of_pass. now apply seeds_monotone. }
  split; [exact Hcount|].
  unfold average_cluster_size.
  assert (List.length m1 = List.length m2) as Hlen.
  { subst m1 m2. now rewrite !mapping_length_of_pass. }
  destruct (Nat.eqb_spec (entity_count m2) 0) as [E2|E2].
  - destruct (entity_count m1 =? 0); [apply Qle_refl|].
    unfold Qle. simpl. lia.
  - assert (0 < entity_count m1) as Hpos.
    { subst m1 m2. rewrite entity_count_of_pass in *.
      apply seeds_positive.
      pose proof (seeds_bounded t2 frags []). lia. }
    destruct (Nat.eqb_spec (entity_count m1) 0) as [E1|E1]; [lia|].
    unfold Qle. cbn [Qnum Qden]. rewrite Hlen.
    rewrite !Zpos_of_nat by lia.
    apply Z.mul_le_mono_nonneg_l; lia.
Qed.

Lemma threshold_monotone_witness :
  let m1 := fst (cluster_fragments sample.scan (Py.float (70 # 100))) in
  let m2 := fst (cluster_fragments sample.scan (Py.float (85 # 100))) in
  entity_count m1 <= entity_count m2
  /\ (average_cluster_size m2 <= average_cluster_size m1)%Q.
Proof.
  apply (threshold_monotone sample.scan (Py.float (70 # 100))
           (Py.float (85 # 100))).
  apply Qle_bool_iff. vm_compute. reflexivity.
Defined.

(** ** Entity ids within one pass *)

(** ** The LIKE operator *)

Lemma all_chars_complete (c : ascii) : In c all_chars.
Proof.
  unfold all_chars. rewrite <- (ascii_nat_embedding c).
  apply in_map. apply in_seq. pose proof (nat_ascii_bounded c). lia.
Qed.

Lemma like_char_table :
  forallb (fun c =>
             forallb (fun c2 =>
                        Bool.eqb (sqlite.like_char c c2)
                          (Ascii.eqb (sqlite.tolower c) (sqlite.tolower c2)))
               all_chars) all_chars = true.
Proof. vm_compute. reflexivity. Qed.

(** Two characters agree under LIKE when they agree after folding. *)
Lemma like_char_tolower (c c2 : ascii) :
  sqlite.like_char c c2 = Ascii.eqb (sqlite.tolower c) (sqlite.tolower c2).
Proof.
  pose proof like_char_table as H.
  rewrite forallb_forall in H. specialize (H c (all_chars_complete c)).
  rewrite forallb_forall in H. specialize (H c2 (all_chars_complete c2)).
  now apply Bool.eqb_prop in H.
Qed.

Lemma like_percent (p s : list ascii) :
  sqlite.like_list ("%"%char :: p) s
  = sqlite.like_list p s
    || match s with
       | [] => false
       | _ :: s' => sqlite.like_list ("%"%char :: p) s'
       end.
Proof. destruct s; reflexivity. Qed.

Lemma like_percent_only (s : list ascii) :
  sqlite.like_list ["%"%char] s = true.
Proof.
  induction s as [|c s IH]; [reflexivity|].
  rewrite like_percent, IH. apply orb_true_r.
Qed.

(** A pattern of plain characters followed by ["%"] matches the strings it
    is a prefix of, up to case. *)
Lemma like_plain_prefix (q : list ascii) :
  (forall c, In c q -> c <> "%"%char /\ c <> "_"%char) ->
  forall s,
    sqlite.like_list (q ++ ["%"%char]) s
    = prefix_b (map sqlite.tolower q) (map sqlite.tolower s).
Proof.
  induction q as [|c q IH]; intros Hq s.
  - apply like_percent_only.
  - destruct (Hq c (or_introl eq_refl)) as [Hp Hu].
    apply Ascii.eqb_neq in Hp. apply Ascii.eqb_neq in Hu.
    cbn [app sqlite.like_list]. rewrite Hp.
    destruct s as [|c2 s]; [reflexivity|].
    rewrite Hu, like_char_tolower, IH.
    + reflexivity.
    + intros c' Hc'. apply Hq. now right.
Qed.

Lemma like_plain_infix (q : list ascii) :
  (forall c, In c q -> c <> "%"%char /\ c <> "_"%char) ->
  forall s,
    sqlite.like_list ("%"%char :: q ++ ["%"%char]) s
    = infix_b (map sqlite.tolower q) (map sqlite.tolower s).
Proof.
  intros Hq s. induction s as [|c s IH].
  - rewrite like_percent, like_plain_prefix by assumption.
    simpl. now rewrite orb_false_r.
  - rewrite like_percent, like_plain_prefix, IH by assumption. reflexivity.
Qed.

Lemma prefix_b_spec (q v : list ascii) :
  prefix_b q v = true <-> exists post, v = q ++ post.
Proof.
  revert v. induction q as [|c q IH]; intro v; simpl.
  - split; [intros _; now exists v | reflexivity].
  - destruct v as [|c2 v].
    + split; [discriminate | intros [post H]; discriminate].
    + rewrite andb_true_iff, IH. split.
      * intros [Hc [post ->]]. apply Ascii.eqb_eq in Hc. subst. now exists post.
      * intros [post H]. injection H as -> ->. split.
        -- apply Ascii.eqb_refl.
        -- now exists post.
Qed.

Lemma infix_b_spec (q v : list ascii) :
  infix_b q v = true <-> exists pre post, v = pre ++ q ++ post.
Proof.
  induction v as [|c v IH]; simpl.
  - rewrite orb_false_r, prefix_b_spec. split.
    + intros [post H]. now exists [], post.
    + intros [pre [post H]]. destruct pre; [now exists post | discriminate].
  - rewrite orb_true_iff, prefix_b_spec, IH. split.
    + intros [[post H]|[pre [post H]]].
      * now exists [], post.
      * exists (c :: pre), post. now rewrite H.
    + intros [pre [post H]]. destruct pre as [|c' pre].
      * left. now exists post.
      * right. injection H as -> ->. now exists pre, post.
Qed.

Lemma contains_ci_reflect (q v : string) :
  contains_ci q v <-> contains_ci_b q v = true.
Proof. unfold contains_ci, contains_ci_b. now rewrite infix_b_spec. Qed.

Lemma list_ascii_of_string_app (s1 s2 : string) :
  list_ascii_of_string (s1 ++ s2)%string
  = list_ascii_of_string s1 ++ list_ascii_of_string s2.
Proof. induction s1 as [|c s1 IH]; simpl; [reflexivity | now rewrite IH]. Qed.

Lemma c_str_plain (l : list ascii) :
  (forall c, In c l -> c <> zero) -> sqlite.c_str l = l.
Proof.
  induction l as [|c l IH]; intro H; simpl; [reflexivity|].
  assert (c <> zero) as Hc by (apply H; now left).
  apply Ascii.eqb_neq in Hc. rewrite Hc. f_equal.
  apply IH. intros c' Hc'. apply H. now right.
Qed.

Lemma c_string_list (v : string) :
  list_ascii_of_string (sqlite.c_string v)
  = sqlite.c_str (list_ascii_of_string v).
Proof. unfold sqlite.c_string. apply list_ascii_of_string_of_list_ascii. Qed.

(** The pattern of [search_entities] on a plain query, the pattern being
    within the limit. *)
Lemma like_search_pattern (q v : string) :
  plain_query q ->
  (sqlite.utf8_length ("%" ++ q ++ "%") <= sqlite.max_like_pattern_length)%N ->
  sqlite.like v ("%" ++ q ++ "%")%string
  = Some (contains_ci_b q (sqlite.c_string v)).
Proof.
  intros Hq Hlen. unfold sqlite.like.
  destruct (N.ltb_spec sqlite.max_like_pattern_length
              (sqlite.utf8_length ("%" ++ q ++ "%"))) as [Hlt|_]; [lia|].
  f_equal. unfold contains_ci_b. rewrite c_string_list.
  cbn [append list_ascii_of_string]. rewrite list_ascii_of_string_app.
  cbn [list_ascii_of_string]. rewrite c_str_plain.
  - apply like_plain_infix. intros c Hc. destruct (Hq c Hc) as [H1 [H2 _]]. auto.
  - intros c [<-|Hc]; [discriminate|].
    apply in_app_or in Hc. destruct Hc as [Hc|[<-|[]]]; [|discriminate].
    now destruct (Hq c Hc) as [_ [_ H]].
Qed.

Lemma matches_pattern_plain (q : string) (f : FragmentRow) :
  plain_query q ->
  (sqlite.utf8_length ("%" ++ q ++ "%") <= sqlite.max_like_pattern_length)%N ->
  matches_pattern ("%" ++ q ++ "%")%string f = Some (fragment_with_b q f).
Proof.
  intros Hq Hlen. unfold matches_pattern, fragment_with_b.
  rewrite !like_search_pattern by assumption.
  now destruct (contains_ci_b q (sqlite.c_string (f_value f))).
Qed.

Lemma fragment_with_reflect (q : string) (f : FragmentRow) :
  fragment_with q f <-> fragment_with_b q f = true.
Proof.
  unfold fragment_with, fragment_with_b.
  now rewrite orb_true_iff, !contains_ci_reflect.
Qed.

(** The rows of the join for such a query. *)
Lemma join_where_plain (q : string) (es : list Entity) (fs : list FragmentRow) :
  plain_query q ->
  (sqlite.utf8_length ("%" ++ q ++ "%") <= sqlite.max_like_pattern_length)%N ->
  join_where ("%" ++ q ++ "%")%string es fs
  = Ok (flat_map
          (fun f =>
             if fragment_with_b q f
             then filter (fun e => (e_entity_id e =? f_entity_id f)%string) es
             else []) fs).
Proof.
  intros Hq Hlen. induction fs as [|f fs IH]; [reflexivity|].
  cbn [join_where flat_map]. rewrite matches_pattern_plain by assumption.
  rewrite IH. reflexivity.
Qed.

Lemma join_rows_spec (q : string) (s : Store) (e : Entity) :
  In e (flat_map
          (fun f =>
             if fragment_with_b q f
             then filter (fun e => (e_entity_id e =? f_entity_id f)%string)
                    (entities s)
             else []) (fragments s))
  <-> In e (entities s) /\ owns_fragment_with q s e.
Proof.
  rewrite in_flat_map. unfold owns_fragment_with. split.
  - intros [f [Hf He]]. destruct (fragment_with_b q f) eqn:Hw; [|destruct He].
    apply filter_In in He. destruct He as [He Hid].
    apply String.eqb_eq in Hid. split; [assumption|]. exists f.
    repeat split; auto. now apply fragment_with_reflect.
  - intros [He [f [Hf [Hid Hw]]]]. exists f. split; [assumption|].
    apply fragment_with_reflect in Hw. rewrite Hw. apply filter_In.
    split; [assumption|]. apply String.eqb_eq. auto.
Qed.

(** Whatever the pattern, the rows of the join are rows of [entities]. *)
Lemma join_where_incl (pat : string) (es : list Entity) (fs : list FragmentRow) :
  forall rows e, join_where pat es fs = Ok rows -> In e rows -> In e es.
Proof.
  induction fs as [|f fs IH]; intros rows e H Hin; simpl in H.
  - injection H as <-. destruct Hin.
  - destruct (matches_pattern pat f) as [b|]; [|discriminate].
    destruct (join_where pat es fs) as [rows'|x]; [|discriminate].
    cbn [bind] in H. injection H as <-.
    apply in_app_or in Hin. destruct Hin as [Hin|Hin]; [|now apply (IH rows')].
    destruct b; [|destruct Hin]. apply filter_In in Hin. tauto.
Qed.

(** ** The order of timestamps *)

Lemma ascii_compare_refl (c : ascii) : Ascii.compare c c = Eq.
Proof. unfold Ascii.compare. apply N.compare_refl. Qed.

Lemma ascii_compare_lt_trans (a b c : ascii) :
  Ascii.compare a b = Lt -> Ascii.compare b c = Lt -> Ascii.compare a c = Lt.
Proof.
  unfold Ascii.compare. rewrite !N.compare_lt_iff. apply N.lt_trans.
Qed.

Lemma string_compare_lt_trans (s1 : string) :
  forall s2 s3,
    String.compare s1 s2 = Lt -> String.compare s2 s3 = Lt ->
    String.compare s1 s3 = Lt.
Proof.
  induction s1 as [|c1 s1 IH]; intros [|c2 s2] [|c3 s3]; simpl;
    try congruence.
  destruct (Ascii.compare c1 c2) eqn:H12; try discriminate;
    destruct (Ascii.compare c2 c3) eqn:H23; try discriminate; intros Ha Hb.
  - apply Ascii.compare_eq_iff in H12, H23. subst.
    rewrite ascii_compare_refl. eauto.
  - apply Ascii.compare_eq_iff in H12. subst. now rewrite H23.
  - apply Ascii.compare_eq_iff in H23. subst. now rewrite H12.
  - now rewrite (ascii_compare_lt_trans c1 c2 c3).
Qed.

Lemma string_leb_trans (s1 s2 s3 : string) :
  String.leb s1 s2 = true -> String.leb s2 s3 = true -> String.leb s1 s3 = true.
Proof.
  unfold String.leb.
  destruct (String.compare s1 s2) eqn:H12; try discriminate;
    destruct (String.compare s2 s3) eqn:H23; try discriminate; intros _ _.
  - apply String.compare_eq_iff in H12. subst. now rewrite H23.
  - apply String.compare_eq_iff in H12. subst. now rewrite H23.
  - apply String.compare_eq_iff in H23. subst. now rewrite H12.
  - now rewrite (string_compare_lt_trans s1 s2 s3).
Qed.

Lemma string_ltb_leb (s1 s2 : string) :
  String.ltb s1 s2 = true -> String.leb s1 s2 = true.
Proof.
  unfold String.ltb, String.leb. now destruct (String.compare s1 s2).
Qed.

Lemma string_ltb_false (s1 s2 : string) :
  String.ltb s1 s2 = false -> String.leb s2 s1 = true.
Proof.
  unfold String.ltb, String.leb. rewrite (String.compare_antisym s2 s1).
  now destruct (String.compare s1 s2).
Qed.

(** ** ORDER BY, DISTINCT and LIMIT in [search_entities] *)

Lemma insert_desc_perm (x : Entity) (l : list Entity) :
  Permutation (sqlite.insert_desc updated_at x l) (x :: l).
Proof.
  induction l as [|y l IH]; simpl; [reflexivity|].
  destruct (String.ltb (updated_at x) (updated_at y)); [|reflexivity].
  rewrite IH. apply perm_swap.
Qed.

Lemma order_by_desc_perm (l : list Entity) :
  Permutation (sqlite.order_by_desc updated_at l) l.
Proof.
  induction l as [|x l IH]; simpl; [reflexivity|].
  rewrite insert_desc_perm. now constructor.
Qed.

Lemma insert_desc_newest_first (x : Entity) (l : list Entity) :
  newest_first l -> newest_first (sqlite.insert_desc updated_at x l).
Proof.
  induction l as [|y l IH]; simpl; intro H.
  - split; [intros e' []|exact I].
  - destruct H as [Hy Hl].
    destruct (String.ltb (updated_at x) (updated_at y)) eqn:Hlt; simpl.
    + split; [|now apply IH].
      intros e' Hin.
      apply (Permutation_in _ (insert_desc_perm x l)) in Hin.
      destruct Hin as [<-|Hin].
      * now apply string_ltb_leb.
      * now apply Hy.
    + split; [|split; assumption].
      intros e' [<-|Hin].
      * now apply string_ltb_false.
      * apply (string_leb_trans _ (updated_at y)); [now apply Hy|].
        now apply string_ltb_false.
Qed.

Lemma order_by_desc_newest_first (l : list Entity) :
  newest_first (sqlite.order_by_desc updated_at l).
Proof.
  induction l as [|x l IH]; simpl; [exact I|].
  now apply insert_desc_newest_first.
Qed.

Lemma newest_first_app (l1 l2 : list Entity) :
  newest_first (l1 ++ l2) ->
  newest_first l1
  /\ (forall x y, In x l1 -> In y l2 ->
        String.leb (updated_at y) (updated_at x) = true).
Proof.
  induction l1 as [|e l1 IH]; simpl; intro H.
  - split; [exact I | intros x y []].
  - destruct H as [He Hl]. destruct (IH Hl) as [H1 H2]. split.
    + split; [|assumption]. intros e' Hin. apply He.
      apply in_or_app. now left.
    + intros x y [<-|Hx] Hy.
      * apply He. apply in_or_app. now right.
      * now apply H2.
Qed.

Lemma summary_eqb_id (x y : Summary) :
  summary_eqb x y = true -> fst (fst (fst x)) = fst (fst (fst y)).
Proof.
  destruct x as [[[i1 n1] c1] t1], y as [[[i2 n2] c2] t2]. simpl.
  rewrite !andb_true_iff. intros [[[H _] _] _]. now apply String.eqb_eq.
Qed.

Lemma summary_eqb_refl (x : Summary) : summary_eqb x x = true.
Proof.
  destruct x as [[[i n] c] t]. simpl.
  rewrite String.eqb_refl, Nat.eqb_refl, String.eqb_refl.
  assert (Qeq_bool c c = true) as -> by (apply Qeq_bool_iff; reflexivity).
  reflexivity.
Qed.

Lemma distinct_incl (rows : list Entity) :
  forall seen e, In e (distinct seen rows) -> In e rows.
Proof.
  induction rows as [|x rows IH]; intros seen e H; simpl in *; [assumption|].
  destruct (existsb (summary_eqb (summary x)) seen).
  - right. now apply (IH seen).
  - destruct H as [H|H]; [now left | right; now apply (IH (summary x :: seen))].
Qed.

Lemma firstn_incl {A : Type} (n : nat) (l : list A) (x : A) :
  In x (firstn n l) -> In x l.
Proof.
  revert l. induction n as [|n IH]; intros [|y l] H; simpl in *; try contradiction.
  destruct H as [H|H]; [now left | right; now apply IH].
Qed.

Lemma newest_first_firstn (n : nat) (l : list Entity) :
  newest_first l -> newest_first (firstn n l).
Proof.
  revert l. induction n as [|n IH]; intros [|e l] H; simpl; try exact I.
  destruct H as [Hhead Hrest]. split; [|now apply IH].
  intros e' Hin. apply Hhead. now apply firstn_incl in Hin.
Qed.

Section Distinct.

Variable es : list Entity.
Hypothesis es_key : NoDup (map e_entity_id es).

(** Among rows of a table with a key, a row has the columns of a row seen
    exactly when it is a row seen. *)
Lemma seen_row (seen_es : list Entity) (e : Entity) :
  In e es -> incl seen_es es ->
  existsb (summary_eqb (summary e)) (map summary seen_es) = true
  <-> In e seen_es.
Proof.
  intros He Hseen. rewrite existsb_exists. split.
  - intros [r [Hr Heq]]. apply in_map_iff in Hr. destruct Hr as [e' [<- He']].
    apply summary_eqb_id in Heq. simpl in Heq.
    assert (e = e') as ->; [|assumption].
    apply (unique_key_row e_entity_id es); auto.
  - intro Hin. exists (summary e). split; [now apply in_map|].
    apply summary_eqb_refl.
Qed.

(** DISTINCT keeps each row of such a table once, at its first place. *)
Lemma distinct_spec (rows : list Entity) :
  forall seen_es,
    incl rows es -> incl seen_es es ->
    (forall e, In e (distinct (map summary seen_es) rows)
               <-> In e rows /\ ~ In e seen_es)
    /\ NoDup (distinct (map summary seen_es) rows).
Proof.
  induction rows as [|r rows IH]; intros seen_es Hrows Hseen.
  - simpl. split; [tauto | constructor].
  - assert (In r es) as Hr by (apply Hrows; now left).
    assert (incl rows es) as Hrest by (intros x Hx; apply Hrows; now right).
    cbn [distinct].
    destruct (existsb (summary_eqb (summary r)) (map summary seen_es)) eqn:Hex.
    + apply (seen_row seen_es r Hr Hseen) in Hex.
      destruct (IH seen_es Hrest Hseen) as [IH1 IH2]. split; [|assumption].
      intro e. rewrite IH1. simpl. split; [tauto|].
      intros [[<-|He] Hout]; [contradiction | tauto].
    + assert (~ In r seen_es) as Hnew.
      { intro Hin. apply (seen_row seen_es r Hr Hseen) in Hin. congruence. }
      assert (incl (r :: seen_es) es) as Hseen'.
      { intros x [<-|Hx]; auto. }
      destruct (IH (r :: seen_es) Hrest Hseen') as [IH1 IH2].
      change (summary r :: map summary seen_es)
        with (map summary (r :: seen_es)).
      split.
      * intro e. simpl. rewrite IH1. simpl. split.
        -- intros [<-|[He Hout]]; [tauto|]. split; [tauto|]. tauto.
        -- intros [[<-|He] Hout]; [now left|].
           destruct (string_dec (e_entity_id r) (e_entity_id e)) as [E|E].
           ++ left. apply (unique_key_row e_entity_id es); auto.
           ++ right. split; [assumption|]. intros [<-|Hin]; [congruence|].
              contradiction.
      * constructor; [|assumption]. intro Hin. apply IH1 in Hin.
        destruct Hin as [_ Hin]. apply Hin. now left.
Qed.

Lemma key_NoDup (l : list Entity) :
  incl l es -> NoDup l -> NoDup (map e_entity_id l).
Proof.
  induction l as [|x l IH]; intros Hl Hnd; simpl; [constructor|].
  inversion Hnd as [|? ? Hnot Hnd']; subst. constructor.
  - intro Hin. apply in_map_iff in Hin. destruct Hin as [y [Hid Hy]].
    assert (y = x) as ->; [|contradiction].
    apply (unique_key_row e_entity_id es); auto.
    + apply Hl. now right.
    + apply Hl. now left.
  - apply IH; [|assumption]. intros y Hy. apply Hl. now right.
Qed.

End Distinct.

Lemma NoDup_all_equal {A : Type} (l : list A) (x : A) :
  NoDup l -> In x l -> (forall y, In y l -> y = x) -> l = [x].
Proof.
  intros Hnd Hin Hall. destruct l as [|y l]; [destruct Hin|].
  assert (y = x) as -> by (apply Hall; now left).
  destruct l as [|z l]; [reflexivity|].
  assert (z = x) as -> by (apply Hall; right; now left).
  inversion Hnd as [|? ? Hnot _]; subst. exfalso. apply Hnot. now left.
Qed.

Lemma filter_singleton {A : Type} (p : A -> bool) (l : list A) (x : A) :
  NoDup l -> In x l -> p x = true ->
  (forall y, In y l -> p y = true -> y = x) ->
  filter p l = [x].
Proof.
  induction l as [|y l IH]; simpl; intros Hnd Hin Hp Huniq; [destruct Hin|].
  inversion Hnd as [|? ? Hnot Hnd']; subst.
  destruct (p y) eqn:Hy.
  - assert (y = x) by (apply Huniq; auto). subst y. f_equal.
    apply filter_none. intros z Hz.
    destruct (p z) eqn:Hpz; [|reflexivity].
    assert (z = x) by (apply Huniq; auto). subst z. contradiction.
  - destruct Hin as [->|Hin]; [congruence|].
    apply IH; auto.
Qed.

(** ** search_entities *)

(** The query "cpr" occurs in the value of one fragment only, the address
    cpr@clinic.dk of E-000001, and the search returns E-000002 as well, whose
    fragment has the type CPR. *)
Lemma search_matches_the_type_too :
  map (fun f => (f_entity_id f, frag_type f, f_value f))
    (fragments sample.db_clinic)
  = [("E-000001", "EMAIL_ADDRESS", "cpr@clinic.dk");
     ("E-000002", "CPR", "010190-1234")]
  /\ contains_ci "cpr" "cpr@clinic.dk"
  /\ ~ contains_ci "cpr" "010190-1234"
  /\ map e_entity_id (entities sample.db_clinic) = ["E-000001"; "E-000002"]
  /\ search_entities "cpr" sample.db_clinic
     = Ok (map summary (entities sample.db_clinic)).
Proof.
  split; [reflexivity|]. rewrite !contains_ci_reflect.
  split; [vm_compute; reflexivity|].
  split; [vm_compute; discriminate|].
  split; vm_compute; reflexivity.
Qed.

(** The query "b_b" occurs in no value and in no type of the sample
    database, and the search returns the entity of bob@example.com: the
    underscore stands for any character. *)
Lemma search_underscore_is_a_wildcard :
  (forall f, In f (fragments sample.db1) ->
     ~ contains_ci "b_b" (f_value f) /\ ~ contains_ci "b_b" (frag_type f))
  /\ search_entities "b_b" sample.db1
     = Ok (map summary
             (filter (fun e => (e_entity_id e =? "E-000002")%string)
                (entities sample.db1))).
Proof.
  split; [|vm_compute; reflexivity].
  intros f Hin. rewrite !contains_ci_reflect.
  unfold sample.db1 in Hin. cbn [fragments] in Hin.
  repeat (destruct Hin as [<-|Hin]; [vm_compute; split; discriminate|]).
  destruct Hin.
Qed.

(** A query that starts with U+0000 occurs in no value and in no type of
    the sample database, and the search returns every entity: the pattern
    is read up to that character, and what is left of it is ["%"]. *)
Lemma search_nul_ends_the_query :
  (forall f, In f (fragments sample.db1) ->
     ~ contains_ci (String zero "zzz") (f_value f)
     /\ ~ contains_ci (String zero "zzz") (frag_type f))
  /\ search_entities (String zero "zzz") sample.db1
     = Ok (map summary (entities sample.db1)).
Proof.
  split; [|vm_compute; reflexivity].
  intros f Hin. rewrite !contains_ci_reflect.
  unfold sample.db1 in Hin. cbn [fragments] in Hin.
  repeat (destruct Hin as [<-|Hin]; [vm_compute; split; discriminate|]).
  destruct Hin.
Qed.

(** A pattern of more than 50000 bytes makes the search raise as soon as
    the table of fragments has a row. *)
Lemma search_long_query_raises (q : string) (s : Store) :
  (sqlite.max_like_pattern_length < sqlite.utf8_length ("%" ++ q ++ "%"))%N ->
  fragments s <> [] ->
  search_entities q s
  = Raise (OperationalError "LIKE or GLOB pattern too complex").
Proof.
  intros Hlen Hrows. unfold search_entities.
  destruct (fragments s) as [|f fs]; [congruence|].
  cbn [join_where]. unfold matches_pattern, sqlite.like.
  apply N.ltb_lt in Hlen. now rewrite Hlen.
Qed.

(** C9, as the code has it: for a query without the characters [%], [_]
    and U+0000 whose pattern is within the 50000 bytes that LIKE accepts, and
    entity ids being unique, [search_entities] returns at most 50 rows, one
    per entity, most recently updated first; each is an entity owning a
    fragment whose value or type, read up to its first U+0000, contains the
    query (ASCII letters compared without case); an entity like that is left
    out only when 50 rows updated no earlier are returned; and when one
    fragment alone contains the query, in its value or its type, the result
    is its owning entity and nothing else. *)
Theorem search_entities_plain_query :
  forall (q : string) (s : Store),
    plain_query q ->
    (sqlite.utf8_length ("%" ++ q ++ "%") <= sqlite.max_like_pattern_length)%N ->
    NoDup (map e_entity_id (entities s)) ->
    exists es : list Entity,
      search_entities q s = Ok (map summary es)
      /\ List.length es <= 50
      /\ NoDup (map e_entity_id es)
      /\ newest_first es
      /\ (forall e, In e es -> In e (entities s) /\ owns_fragment_with q s e)
      /\ (forall e, In e (entities s) -> owns_fragment_with q s e ->
            In e es
            \/ (List.length es = 50
                /\ forall e', In e' es ->
                     String.leb (updated_at e) (updated_at e') = true))
      /\ (forall f e,
            In f (fragments s) -> In e (entities s) ->
            f_entity_id f = e_entity_id e ->
            fragment_with q f ->
            (forall f', In f' (fragments s) -> fragment_with q f' -> f' = f) ->
            es = [e]).
Proof.
  intros q s Hq Hlen Hpk.
  set (rows := flat_map
                 (fun f =>
                    if fragment_with_b q f
                    then filter (fun e => (e_entity_id e =? f_entity_id f)%string)
                           (entities s)
                    else []) (fragments s)).
  set (kept := distinct [] rows).
  set (sorted := sqlite.order_by_desc updated_at kept).
  exists (firstn 50 sorted).
  assert (forall e, In e rows <-> In e (entities s) /\ owns_fragment_with q s e)
    as Hrows by (intro e; apply join_rows_spec).
  assert (incl rows (entities s)) as Hincl by (intros e He; now apply Hrows).
  destruct (distinct_spec (entities s) Hpk rows [] Hincl (incl_nil_l _))
    as [Hkept Hnd].
  change (distinct (map summary []) rows) with kept in Hkept, Hnd.
  assert (forall e, In e kept <-> In e rows) as Hkept'.
  { intro e. rewrite Hkept. simpl. tauto. }
  assert (forall e, In e sorted <-> In e (entities s) /\ owns_fragment_with q s e)
    as Hin.
  { intro e. rewrite <- Hrows, <- Hkept'. split; apply Permutation_in.
    - apply order_by_desc_perm.
    - apply Permutation_sym, order_by_desc_perm. }
  assert (NoDup (map e_entity_id sorted)) as Hids.
  { apply (Permutation_NoDup
             (Permutation_map e_entity_id
                (Permutation_sym (order_by_desc_perm kept)))).
    apply (key_NoDup (entities s) Hpk); [|assumption].
    intros e He. apply Hincl. now apply Hkept'. }
  assert (newest_first sorted) as Hsorted
    by apply order_by_desc_newest_first.
  split.
  { unfold search_entities. rewrite join_where_plain by assumption.
    reflexivity. }
  split; [apply firstn_le_length|].
  split.
  { rewrite <- (firstn_skipn 50 sorted), map_app in Hids.
    now apply NoDup_app_remove_r in Hids. }
  split; [now apply newest_first_firstn|].
  rewrite <- (firstn_skipn 50 sorted) in Hsorted.
  apply newest_first_app in Hsorted. destruct Hsorted as [_ Hcut].
  split; [|split].
  - intros e He. apply Hin. now apply firstn_incl in He.
  - intros e He Hown.
    assert (In e sorted) as Hs by now apply Hin.
    rewrite <- (firstn_skipn 50 sorted) in Hs. apply in_app_or in Hs.
    destruct Hs as [Hs|Hs]; [now left|]. right. split.
    + rewrite length_firstn.
      assert (50 < List.length sorted); [|lia].
      destruct (Nat.lt_ge_cases 50 (List.length sorted)) as [Hlt|Hge];
        [assumption|].
      rewrite skipn_all2 in Hs by assumption. destruct Hs.
    + intros e' He'. now apply Hcut.
  - intros f e Hf He Hid Hwith Honly.
    assert (kept = [e]) as Hone.
    { apply NoDup_all_equal; [assumption| |].
      - apply Hkept', Hrows. split; [assumption|]. now exists f.
      - intros e' He'. apply Hkept', Hrows in He'.
        destruct He' as [He' [f' [Hf' [Hid' Hw']]]].
        assert (f' = f) by now apply Honly. subst f'.
        apply (unique_key_row e_entity_id (entities s)); auto. congruence. }
    unfold sorted. rewrite Hone. reflexivity.
Qed.

Lemma search_entities_plain_query_witness :
  exists es : list Entity,
    search_entities "BOB" sample.db1 = Ok (map summary es)
    /\ map e_entity_id es = ["E-000002"].
Proof.
  destruct (search_entities_plain_query "BOB" sample.db1) as [es [H _]].
  - intros c Hin. vm_compute in Hin.
    repeat (destruct Hin as [<-|Hin]; [repeat split; discriminate|]).
    destruct Hin.
  - vm_compute. discriminate.
  - vm_compute. repeat constructor; simpl; intuition discriminate.
  - exists es. split; [exact H|].
    assert (search_entities "BOB" sample.db1
            = Ok (map summary
                    (filter (fun e => (e_entity_id e =? "E-000002")%string)
                       (entities sample.db1)))) as Hrun
      by (vm_compute; reflexivity).
    rewrite H in Hrun. injection Hrun as Hrun.
    transitivity (map (fun r : Summary => fst (fst (fst r))) (map summary es));
      [now rewrite map_map|].
    rewrite Hrun. vm_compute. reflexivity.
Defined.

(** * Further properties of the store *)

(** ** What every operation keeps *)

Lemma setdefault_append_nonempty (grouped : list (string * list Grouped))
    (eid : string) (x : Grouped) :
  (forall k l, In (k, l) grouped -> l <> []) ->
  forall k l, In (k, l) (setdefault_append grouped eid x) -> l <> [].
Proof.
  induction grouped as [|[k' l'] grouped IH]; simpl; intros H k l Hin.
  - destruct Hin as [Hin|[]]. injection Hin as _ <-. discriminate.
  - destruct (k' =? eid)%string.
    + destruct Hin as [Hin|Hin].
      * injection Hin as _ <-. now destruct l'.
      * apply (H k). now right.
    + destruct Hin as [Hin|Hin].
      * apply (H k). now left.
      * apply (IH (fun k0 l0 Hi => H k0 l0 (or_intror Hi)) k l Hin).
Qed.

Lemma group_nonempty (frags : list Fragment) (m : Mapping) :
  forall acc grouped,
    group m frags acc = Ok grouped ->
    (forall k l, In (k, l) acc -> l <> []) ->
    forall k l, In (k, l) grouped -> l <> [].
Proof.
  induction m as [|[idx info] m IH]; intros acc grouped H Hacc.
  - simpl in H. now injection H as <-.
  - simpl in H. destruct (nth_error frags idx) as [frag|]; [|discriminate].
    apply (IH _ _ H). now apply setdefault_append_nonempty.
Qed.

Lemma update_entity_ids (n : nat) (now eid : string) (s : Store) :
  map e_entity_id (entities (update_entity n now eid s))
  = map e_entity_id (entities s).
Proof.
  unfold update_entity. cbn [entities]. rewrite map_map.
  apply map_ext. intro e. now destruct (e_entity_id e =? eid)%string.
Qed.

Lemma insert_erasure_keys (r : Erasure) (s s' : Store) :
  insert_erasure r s = Ok s' ->
  NoDup (map erasure_id (erasures s)) ->
  entities s' = entities s /\ fragments s' = fragments s
  /\ erasures s' = erasures s ++ [r]
  /\ NoDup (map erasure_id (erasures s')).
Proof.
  unfold insert_erasure.
  destruct (existsb _ (erasures s)) eqn:Hex; [discriminate|].
  intros H Hnd. injection H as <-. cbn [entities fragments erasures].
  repeat split. rewrite map_app. simpl.
  apply (existsb_key_false erasure_id) in Hex.
  apply NoDup_app; [assumption | repeat constructor; intros [] |].
  intros x Hx [Hy|[]]. subst x. contradiction.
Qed.

Lemma save_mapping_well_formed (ts : string) (u : nat -> nat -> string)
    (m : Mapping) (frags : list Fragment) (s : Store) :
  well_formed s -> well_formed (snd (save_mapping ts u m frags s)).
Proof.
  intros [[Hke [Hkf Hkr]] Hcount Horph Hfull].
  pose proof (save_mapping_consistent ts u m frags s (conj Hkf Hcount))
    as [Hkf' Hcount'].
  destruct (save_mapping_cases ts u m frags s) as [[s' H]|[e H]];
    rewrite H in *; cbn [snd] in *; [|now repeat split].
  apply save_mapping_shape in H.
  destruct H as [grouped [Hg [Hnd [Hkeys [Hsize [He [Hf Hr]]]]]]].
  assert (forall k l, In (k, l) grouped -> l <> []) as Hne.
  { apply (group_nonempty frags m [] grouped Hg). intros k l []. }
  assert (map e_entity_id (map (entity_row ts) grouped) = map fst grouped)
    as Hrows.
  { rewrite map_map. reflexivity. }
  split.
  - repeat split; [|assumption|congruence].
    rewrite He, map_app, Hrows.
    apply NoDup_app; [now apply NoDup_map_filter | assumption |].
    intros k Hk Hk'. apply in_map_iff in Hk. destruct Hk as [e [<- Hin]].
    apply filter_In in Hin. destruct Hin as [_ Hout].
    apply negb_true_iff, memb_false in Hout. apply Hout. now apply Hkeys.
  - assumption.
  - intros f Hin. unfold in_store. rewrite He, map_app, Hrows.
    rewrite Hf in Hin. apply in_app_or in Hin. apply in_or_app.
    destruct Hin as [Hin|Hin].
    + left. apply filter_In in Hin. destruct Hin as [Hin Hout].
      apply Horph in Hin. unfold in_store in Hin. apply in_map_iff in Hin.
      destruct Hin as [e [Hid Hin]]. apply in_map_iff. exists e.
      split; [assumption|]. apply filter_In. split; [assumption|].
      now rewrite Hid.
    + right. now apply (group_rows_owner ts u grouped 0).
  - intros e Hin. rewrite <- (Hcount' e Hin).
    rewrite He in Hin. apply in_app_or in Hin. destruct Hin as [Hin|Hin].
    + apply filter_In in Hin. destruct Hin as [Hin _].
      rewrite (Hcount e Hin). now apply Hfull.
    + apply in_map_iff in Hin. destruct Hin as [[k l] [<- Hin]].
      cbn [entity_row fragment_count snd].
      specialize (Hne k l Hin). destruct l; [congruence | simpl; lia].
Qed.

Lemma erase_entity_well_formed (eid rb rs u now : string) (s : Store) :
  well_formed s -> well_formed (snd (erase_entity eid rb rs u now s)).
Proof.
  intros [[Hke [Hkf Hkr]] Hcount Horph Hfull].
  pose proof (erase_entity_consistent eid rb rs u now s (conj Hkf Hcount))
    as [Hkf' Hcount'].
  revert Hkf' Hcount'. unfold erase_entity.
  destruct (count_entities eid s =? 0); [now repeat split|].
  destruct (insert_erasure _ _) as [s'|e] eqn:Hins; cbn [snd];
    [|now repeat split].
  intros Hkf' Hcount'.
  apply insert_erasure_keys in Hins; [|assumption].
  unfold delete_entity, delete_fragments_of in Hins.
  cbn [entities fragments erasures] in Hins.
  destruct Hins as [He [Hf [Hr Hkr']]].
  split.
  - repeat split; try assumption.
    rewrite He. now apply NoDup_map_filter.
  - assumption.
  - intros f Hin. rewrite Hf in Hin. apply filter_In in Hin.
    destruct Hin as [Hin Hne]. apply Horph in Hin.
    unfold in_store in *. rewrite He. apply in_map_iff in Hin.
    destruct Hin as [e [Hid Hin]]. apply in_map_iff. exists e.
    split; [assumption|]. apply filter_In. split; [assumption|].
    now rewrite Hid.
  - intros e Hin. rewrite <- (Hcount' e Hin).
    rewrite He in Hin. apply filter_In in Hin. destruct Hin as [Hin _].
    rewrite (Hcount e Hin). now apply Hfull.
Qed.

Lemma delete_fragment_well_formed (fid rb rs u now : string) (s : Store) :
  well_formed s -> well_formed (snd (delete_fragment fid rb rs u now s)).
Proof.
  intros [[Hke [Hkf Hkr]] Hcount Horph Hfull].
  pose proof (delete_fragment_consistent fid rb rs u now s (conj Hkf Hcount))
    as [Hkf' Hcount'].
  revert Hkf' Hcount'. unfold delete_fragment.
  destruct (find _ (fragments s)) as [row|] eqn:Hfind; [|now repeat split].
  apply find_some in Hfind. destruct Hfind as [Hrow Hid].
  apply String.eqb_eq in Hid. subst fid.
  unfold delete_fragment_body.
  destruct (count_fragments_of _ _ =? 0) eqn:Hzero.
  - destruct (insert_erasure _ _) as [s'|e] eqn:Hins; cbn [snd];
      [|now repeat split].
    intros Hkf' Hcount'.
    apply insert_erasure_keys in Hins; [|assumption].
    unfold delete_entity, delete_fragment_row in Hins.
    cbn [entities fragments erasures] in Hins.
    destruct Hins as [He [Hf [Hr Hkr']]].
    apply Nat.eqb_eq in Hzero. unfold count_fragments_of, delete_fragment_row in Hzero.
    cbn [fragments] in Hzero.
    split.
    + repeat split; try assumption. rewrite He. now apply NoDup_map_filter.
    + assumption.
    + intros f Hin. rewrite Hf in Hin.
      assert (f_entity_id f <> f_entity_id row) as Hother.
      { intro Heq.
        assert (In f (filter (fun f0 => (f_entity_id f0 =? f_entity_id row)%string)
                        (filter (fun f0 => negb (frag_id f0 =? frag_id row)%string)
                           (fragments s)))) as Hf'.
        { apply filter_In. split; [assumption | now apply String.eqb_eq]. }
        destruct (filter _ (filter _ (fragments s))); [destruct Hf' | discriminate]. }
      apply filter_In in Hin. destruct Hin as [Hin _]. apply Horph in Hin.
      unfold in_store in *. rewrite He. apply in_map_iff in Hin.
      destruct Hin as [e [Heid Hin]]. apply in_map_iff. exists e.
      split; [assumption|]. apply filter_In. split; [assumption|].
      apply negb_true_iff, String.eqb_neq. congruence.
    + intros e Hin. rewrite <- (Hcount' e Hin).
      rewrite He in Hin. apply filter_In in Hin. destruct Hin as [Hin _].
      rewrite (Hcount e Hin). now apply Hfull.
  - cbn [snd]. intros Hkf' Hcount'.
    apply Nat.eqb_neq in Hzero.
    split.
    + repeat split; try assumption. now rewrite update_entity_ids.
    + assumption.
    + intros f Hin. unfold in_store. rewrite update_entity_ids.
      apply Horph. unfold update_entity, delete_fragment_row in Hin.
      cbn [fragments] in Hin. apply filter_In in Hin. tauto.
    + intros e' Hin. rewrite <- (Hcount' e' Hin).
      unfold update_entity in Hin. cbn [entities] in Hin.
      apply in_map_iff in Hin. destruct Hin as [e [He' Hin]].
      destruct (e_entity_id e =? f_entity_id row)%string; subst e'.
      * cbn [fragment_count]. lia.
      * rewrite (Hcount e Hin). now apply Hfull.
Qed.

Lemma apply_well_formed (o : operation) (s : Store) :
  well_formed s -> well_formed (apply s o).
Proof.
  destruct o; simpl.
  - apply save_mapping_well_formed.
  - apply delete_fragment_well_formed.
  - apply erase_entity_well_formed.
Qed.

Lemma run_well_formed (ops : list operation) :
  forall s, well_formed s -> well_formed (run ops s).
Proof.
  unfold run. induction ops as [|o ops IH]; intros s H; simpl.
  - assumption.
  - apply IH. now apply apply_well_formed.
Qed.

Lemma init_db_well_formed : well_formed init_db.
Proof.
  split.
  - repeat split; constructor.
  - intros e [].
  - intros f [].
  - intros e [].
Qed.

(** X1: after any sequence of the three mutating operations on a fresh
    database, the primary keys hold: no two entity rows share an
    [entity_id], no two fragment rows a [frag_id], no two erasure records an
    [erasure_id]. *)
Theorem primary_keys_always :
  forall ops : list operation, primary_keys (run ops init_db).
Proof.
  intro ops. exact (wf_keys _ (run_well_formed ops _ init_db_well_formed)).
Qed.

(** X2: after any sequence of the three mutating operations on a fresh
    database, every fragment row references an entity that has a row (the
    code deletes the fragments with their entity itself; the foreign key
    does not), and every entity row has at least one fragment row. *)
Theorem referential_integrity_always :
  forall ops : list operation,
    (forall f, In f (fragments (run ops init_db)) ->
       in_store (f_entity_id f) (run ops init_db))
    /\ (forall e, In e (entities (run ops init_db)) ->
          0 < count_fragments_of (e_entity_id e) (run ops init_db)
          /\ 0 < fragment_count e).
Proof.
  intro ops.
  pose proof (run_well_formed ops _ init_db_well_formed) as [_ Hc Ho Hn].
  split; [exact Ho|].
  intros e Hin. split; [now apply Hn|].
  rewrite (Hc e Hin). now apply Hn.
Qed.

Lemma referential_integrity_always_witness :
  let ops :=
    [SaveMapping "2024-01-01T00:00:00" (sample.uuids "a") sample.linked
       sample.scan;
     DeleteFragment "E-000002-a-1-0" "dpo" "Manual deletion" "0003"
       "2024-03-01T00:00:00"] in
  (forall f, In f (fragments (run ops init_db)) ->
     in_store (f_entity_id f) (run ops init_db))
  /\ (forall e, In e (entities (run ops init_db)) ->
        0 < count_fragments_of (e_entity_id e) (run ops init_db)
        /\ 0 < fragment_count e).
Proof.
  intro ops. exact (referential_integrity_always ops).
Defined.

(** ** delete_fragment: the other two ways out *)

(** X3: [delete_fragment] on an id that no fragment row has returns
    [(False, "Fragment not found")] and leaves the database as it was. *)
Theorem delete_fragment_not_found :
  forall (fid requested_by_ reason_ uuid4 utcnow : string) (s : Store),
    ~ In fid (map frag_id (fragments s)) ->
    delete_fragment fid requested_by_ reason_ uuid4 utcnow s
    = ((false, "Fragment not found"), s).
Proof.
  intros fid rb rs u now s H. unfold delete_fragment.
  now rewrite (find_key_None frag_id).
Qed.

Lemma delete_fragment_not_found_witness :
  delete_fragment "E-000009-none" "dpo" "Manual deletion" "0004"
    "2024-03-01T00:00:00" sample.db1
  = ((false, "Fragment not found"), sample.db1).
Proof.
  apply delete_fragment_not_found. vm_compute.
  intros [H|[H|[H|[]]]]; discriminate.
Defined.

Lemma select_one_row (l : list FragmentRow) (f : FragmentRow) :
  NoDup (map frag_id l) -> In f l ->
  filter (fun f' => (frag_id f' =? frag_id f)%string) l = [f].
Proof.
  intros Hnd Hin. apply filter_singleton.
  - now apply NoDup_map_inv in Hnd.
  - assumption.
  - apply String.eqb_refl.
  - intros g Hg Heq. apply String.eqb_eq in Heq.
    now apply (unique_key_row frag_id l).
Qed.

(** Deleting one row of an entity leaves one row less for it. *)
Lemma count_after_delete_row (s : Store) (f : FragmentRow) :
  NoDup (map frag_id (fragments s)) -> In f (fragments s) ->
  count_fragments_of (f_entity_id f) (delete_fragment_row (frag_id f) s) + 1
  = count_fragments_of (f_entity_id f) s.
Proof.
  intros Hnd Hin. unfold count_fragments_of, delete_fragment_row.
  cbn [fragments]. rewrite filter_swap.
  set (own := filter (fun f' => (f_entity_id f' =? f_entity_id f)%string)
                (fragments s)).
  rewrite <- (filter_split_length
                (fun f' => (frag_id f' =? frag_id f)%string) own).
  assert (filter (fun f' => (frag_id f' =? frag_id f)%string) own = [f]) as H.
  { apply select_one_row.
    - now apply NoDup_map_filter.
    - apply filter_In. split; [assumption | apply String.eqb_refl]. }
  rewrite H. simpl. lia.
Qed.

(** X4: when the fragment deleted is not the last one of its entity (and
    fragment ids are unique), [delete_fragment] returns [(True, entity_id)],
    removes that row only, sets the entity's [fragment_count] to the
    number of rows left and its [updated_at] to the time of the call, keeps
    its [created_at] and [confidence], and writes no erasure record. *)
Theorem delete_fragment_keeps_entity :
  forall (s : Store) (f : FragmentRow)
         (requested_by_ reason_ uuid4 utcnow : string),
    NoDup (map frag_id (fragments s)) ->
    In f (fragments s) ->
    2 <= count_fragments_of (f_entity_id f) s ->
    exists s',
      delete_fragment (frag_id f) requested_by_ reason_ uuid4 utcnow s
      = ((true, f_entity_id f), s')
      /\ fragments s'
         = filter (fun f' => negb (frag_id f' =? frag_id f)%string) (fragments s)
      /\ List.length (fragments s') + 1 = List.length (fragments s)
      /\ count_fragments_of (f_entity_id f) s' + 1
         = count_fragments_of (f_entity_id f) s
      /\ erasures s' = erasures s
      /\ entities s'
         = map (fun e =>
                  if (e_entity_id e =? f_entity_id f)%string
                  then {| e_entity_id := e_entity_id e;
                          fragment_count :=
                            count_fragments_of (f_entity_id f) s - 1;
                          e_confidence := e_confidence e;
                          created_at := created_at e;
                          updated_at := utcnow |}
                  else e) (entities s).
Proof.
  intros s f rb rs u now Hnd Hin Htwo.
  pose proof (count_after_delete_row s f Hnd Hin) as Hcount.
  unfold delete_fragment.
  rewrite (find_key_unique frag_id _ f Hnd Hin).
  unfold delete_fragment_body.
  destruct (Nat.eqb_spec
              (count_fragments_of (f_entity_id f)
                 (delete_fragment_row (frag_id f) s)) 0) as [E|E]; [lia|].
  eexists. split; [reflexivity|].
  unfold update_entity. cbn [entities fragments erasures].
  repeat split.
  - unfold delete_fragment_row. cbn [fragments].
    pose proof (filter_split_length
                  (fun f' => (frag_id f' =? frag_id f)%string) (fragments s)) as H.
    rewrite (select_one_row _ f Hnd Hin) in H. simpl in H. lia.
  - exact Hcount.
  - apply map_ext. intro e.
    replace (count_fragments_of (f_entity_id f) s - 1)
      with (count_fragments_of (f_entity_id f)
              (delete_fragment_row (frag_id f) s)) by lia.
    reflexivity.
Qed.

Lemma delete_fragment_keeps_entity_witness :
  exists s',
    delete_fragment "E-000001-a-0-1" "dpo" "Manual deletion" "0005"
      "2024-03-01T00:00:00" sample.db1
    = ((true, "E-000001"), s')
    /\ List.length (fragments s') + 1 = List.length (fragments sample.db1)
    /\ erasures s' = erasures sample.db1.
Proof.
  destruct (delete_fragment_keeps_entity sample.db1
              {| frag_id := "E-000001-a-0-1"; f_entity_id := "E-000001";
                 frag_type := "EMAIL_ADDRESS"; f_value := "alice@example.com";
                 f_source := "people.csv"; f_confidence := 1;
                 f_created_at := "2024-01-01T00:00:00" |}
              "dpo" "Manual deletion" "0005" "2024-03-01T00:00:00")
    as [s' [H1 [_ [H3 [_ [H5 _]]]]]].
  - vm_compute. repeat constructor; simpl; intuition discriminate.
  - vm_compute. right. left. reflexivity.
  - vm_compute. lia.
  - exists s'. auto.
Defined.

(** ** get_entity *)

Lemma find_first {A : Type} (p : A -> bool) (l : list A) (x : A) :
  find p l = Some x ->
  exists pre post,
    l = pre ++ x :: post /\ p x = true /\ forall y, In y pre -> p y = false.
Proof.
  induction l as [|y l IH]; simpl; intro H; [discriminate|].
  destruct (p y) eqn:Hy.
  - injection H as ->. exists [], l. repeat split; auto. intros z [].
  - destruct (IH H) as [pre [post [-> [Hx Hpre]]]].
    exists (y :: pre), post. repeat split; auto.
    intros z [<-|Hz]; auto.
Qed.

(** X5: [get_entity] returns [None] exactly for an id without an entity
    row; otherwise it returns the first row of that id, its [confidence],
    [created_at] and [updated_at] as stored and its [fragment_count] set to
    the number of fragments it returns, and those are exactly the fragment
    rows whose [entity_id] is the id asked for, in the order of the table,
    whatever the stored column says. *)
Theorem get_entity_consistent :
  forall (eid : string) (s : Store),
    match get_entity eid s with
    | None => ~ in_store eid s
    | Some (e, frs) =>
        in_store eid s
        /\ e_entity_id e = eid
        /\ fragment_count e = List.length frs
        /\ List.length frs = count_fragments_of eid s
        /\ (forall f, In f frs <-> In f (fragments s) /\ f_entity_id f = eid)
        /\ frs = filter (fun f => (f_entity_id f =? eid)%string) (fragments s)
        /\ exists pre row post,
             entities s = pre ++ row :: post
             /\ ~ In eid (map e_entity_id pre)
             /\ e_entity_id row = eid
             /\ e = {| e_entity_id := eid;
                       fragment_count := List.length frs;
                       e_confidence := e_confidence row;
                       created_at := created_at row;
                       updated_at := updated_at row |}
    end.
Proof.
  intros eid s. unfold get_entity.
  destruct (find _ (entities s)) as [e|] eqn:Hfind.
  - pose proof (find_first _ _ _ Hfind) as [pre [post [Hsplit [Hp Hpre]]]].
    apply find_some in Hfind. destruct Hfind as [Hin Hid].
    apply String.eqb_eq in Hid. cbn [e_entity_id fragment_count].
    split; [unfold in_store; rewrite <- Hid; now apply in_map|].
    split; [assumption|]. split; [reflexivity|]. split; [reflexivity|].
    split; [|split; [reflexivity|]].
    + intro f. rewrite filter_In, String.eqb_eq. reflexivity.
    + exists pre, e, post. repeat split; try assumption.
      * intro Hx. apply in_map_iff in Hx. destruct Hx as [y [Hy Hx]].
        apply Hpre in Hx. rewrite Hy, String.eqb_refl in Hx. discriminate.
      * now rewrite Hid.
  - intro Hin. unfold in_store in Hin. apply in_map_iff in Hin.
    destruct Hin as [e [Hid Hin]].
    apply (find_none _ _ Hfind) in Hin. rewrite Hid in Hin.
    now rewrite String.eqb_refl in Hin.
Qed.

(** ** The erasure log *)

Lemma apply_erasures (o : operation) (s : Store) :
  exists l, erasures (apply s o) = erasures s ++ l /\ List.length l <= 1.
Proof.
  destruct o as [ts u m frags|fid rb rs u now|eid rb rs u now]; simpl.
  - exists []. rewrite app_nil_r. split; [|simpl; lia].
    destruct (save_mapping_cases ts u m frags s) as [[s' H]|[e H]];
      rewrite H; cbn [snd]; [|reflexivity].
    apply save_mapping_shape in H. destruct H as [g H]. tauto.
  - unfold delete_fragment.
    destruct (find _ (fragments s)) as [row|];
      [|exists []; rewrite app_nil_r; simpl; auto].
    unfold delete_fragment_body.
    destruct (_ =? 0).
    + unfold insert_erasure. destruct (existsb _ _); cbn [snd erasures].
      * exists []. rewrite app_nil_r. simpl. auto.
      * eexists. split; [reflexivity | simpl; lia].
    + exists []. rewrite app_nil_r. simpl. auto.
  - unfold erase_entity.
    destruct (_ =? 0); [exists []; rewrite app_nil_r; simpl; auto|].
    unfold insert_erasure. destruct (existsb _ _); cbn [snd erasures].
    + exists []. rewrite app_nil_r. simpl. auto.
    + eexists. split; [reflexivity | simpl; lia].
Qed.

(** X6: the erasure log is append-only: after any sequence of mutating
    operations the records that were there are still there, unchanged and
    in the same order at the head of the table, and at most one record per
    call has been added. *)
Theorem erasures_append_only :
  forall (ops : list operation) (s : Store),
    exists l,
      erasures (run ops s) = erasures s ++ l
      /\ List.length l <= List.length ops.
Proof.
  unfold run. induction ops as [|o ops IH]; intro s; simpl.
  - exists []. rewrite app_nil_r. auto.
  - destruct (IH (apply s o)) as [l2 [H2 Hl2]].
    destruct (apply_erasures o s) as [l1 [H1 Hl1]].
    exists (l1 ++ l2). rewrite H2, H1, <- app_assoc. split; [reflexivity|].
    rewrite length_app. lia.
Qed.

(** ** Statistics *)

Lemma rows_of_others (k : string) (fs : list FragmentRow) (es : list Entity) :
  ~ In k (map e_entity_id es) ->
  fold_right
    (fun e n =>
       List.length
         (filter (fun f => (f_entity_id f =? e_entity_id e)%string)
            (filter (fun f => negb (f_entity_id f =? k)%string) fs)) + n) 0 es
  = fold_right
      (fun e n =>
         List.length (filter (fun f => (f_entity_id f =? e_entity_id e)%string) fs)
         + n) 0 es.
Proof.
  induction es as [|e es IH]; simpl; intro Hnot; [reflexivity|].
  rewrite (select_after_delete_other f_entity_id).
  - f_equal. apply IH. intro H. apply Hnot. now right.
  - intro Heq. apply Hnot. now left.
Qed.

Lemma rows_per_entity (es : list Entity) :
  NoDup (map e_entity_id es) ->
  forall fs : list FragmentRow,
    (forall f, In f fs -> In (f_entity_id f) (map e_entity_id es)) ->
    List.length fs
    = fold_right
        (fun e n =>
           List.length (filter (fun f => (f_entity_id f =? e_entity_id e)%string) fs)
           + n) 0 es.
Proof.
  induction es as [|e es IH]; simpl; intros Hnd fs Hown.
  - destruct fs as [|f fs]; [reflexivity|]. destruct (Hown f (or_introl eq_refl)).
  - inversion Hnd as [|? ? Hnot Hnd']; subst.
    rewrite <- (filter_split_length
                  (fun f => (f_entity_id f =? e_entity_id e)%string) fs).
    f_equal.
    rewrite (IH Hnd' (filter (fun f => negb (f_entity_id f =? e_entity_id e)%string) fs)).
    + now apply rows_of_others.
    + intros f Hf. apply filter_In in Hf. destruct Hf as [Hf Hne].
      apply negb_true_iff, String.eqb_neq in Hne.
      destruct (Hown f Hf) as [H|H]; [congruence | assumption].
Qed.

Lemma total_count_rows (s : Store) :
  well_formed s -> total_count s = List.length (fragments s).
Proof.
  intros [[Hke _] Hcount Horph _].
  rewrite (rows_per_entity (entities s) Hke (fragments s) Horph).
  unfold total_count.
  assert (forall es, (forall e, In e es -> In e (entities s)) ->
            fold_right (fun e n => fragment_count e + n) 0 es
            = fold_right
                (fun e n =>
                   List.length
                     (filter (fun f => (f_entity_id f =? e_entity_id e)%string)
                        (fragments s)) + n) 0 es) as H.
  { induction es as [|e es IH]; simpl; intro Hsub; [reflexivity|].
    rewrite IH by (intros e' He'; apply Hsub; now right).
    rewrite (Hcount e) by (apply Hsub; now left). reflexivity. }
  apply H. auto.
Qed.

(** X7: after any sequence of mutating operations on a fresh database,
    [get_statistics] reports as [total_fragments] the sum of the
    [fragment_count] columns, at least as many fragments as entities, and
    for a database without entities no fragments and the average [0.0]. *)
Theorem get_statistics_consistent :
  forall ops : list operation,
    let s := run ops init_db in
    let '(total_entities, total_fragments, avg, erasures_performed) :=
      get_statistics s in
    total_entities = List.length (entities s)
    /\ total_fragments = total_count s
    /\ total_entities <= total_fragments
    /\ erasures_performed = List.length (erasures s)
    /\ (total_entities = 0 -> total_fragments = 0 /\ avg = 0%Q).
Proof.
  intros ops s.
  pose proof (run_well_formed ops _ init_db_well_formed) as Hwf.
  fold s in Hwf. unfold get_statistics.
  pose proof (total_count_rows s Hwf) as Htotal.
  assert (List.length (entities s) <= total_count s) as Hle.
  { destruct Hwf as [_ Hcount _ Hfull]. unfold total_count.
    assert (forall es, (forall e, In e es -> In e (entities s)) ->
              List.length es
              <= fold_right (fun e n => fragment_count e + n) 0 es) as H.
    { induction es as [|e es IH]; simpl; intro Hsub; [lia|].
      assert (0 < fragment_count e).
      { rewrite (Hcount e) by (apply Hsub; now left).
        apply Hfull. apply Hsub. now left. }
      specialize (IH (fun e' He' => Hsub e' (or_intror He'))). lia. }
    apply H. auto. }
  repeat split; try lia.
  - assert (entities s = []) as E
      by (destruct (entities s); [reflexivity | discriminate]).
    unfold total_count in Htotal. rewrite E in Htotal. cbn [fold_right] in Htotal.
    lia.
  - rewrite H. reflexivity.
Qed.

Lemma get_statistics_consistent_witness :
  let s := run [EraseEntity "E-000001" "dpo" "GDPR Article 17" "0006"
                  "2024-04-01T00:00:00"] init_db in
  let '(total_entities, total_fragments, avg, erasures_performed) :=
    get_statistics s in
  total_entities = List.length (entities s)
  /\ total_fragments = total_count s
  /\ total_entities <= total_fragments
  /\ erasures_performed = List.length (erasures s)
  /\ (total_entities = 0 -> total_fragments = 0 /\ avg = 0%Q).
Proof.
  exact (get_statistics_consistent
           [EraseEntity "E-000001" "dpo" "GDPR Article 17" "0006"
              "2024-04-01T00:00:00"]).
Defined.

(** ** save_mapping: when it raises and when it returns *)

Lemma group_index_error (frags : list Fragment) (m : Mapping) :
  (exists i info, In (i, info) m /\ List.length frags <= i) ->
  forall acc, group m frags acc = Raise IndexError.
Proof.
  induction m as [|[idx info] m IH]; intros [i [inf [Hin Hle]]] acc.
  - destruct Hin.
  - simpl. destruct (nth_error frags idx) as [frag|] eqn:Hnth; [|reflexivity].
    apply IH. destruct Hin as [Hin|Hin].
    + injection Hin as -> ->.
      apply nth_error_None in Hle. congruence.
    + now exists i, inf.
Qed.

(** X8: when the mapping has an index that is not an index of the list
    of fragments, [save_mapping] raises [IndexError] and the database is as
    before the call, the deletions of step 1 included. *)
Theorem save_mapping_index_error :
  forall (ts : string) (u : nat -> nat -> string) (m : Mapping)
         (frags : list Fragment) (s : Store) (i : nat) (info : Info),
    In (i, info) m -> List.length frags <= i ->
    save_mapping ts u m frags s = (Raise IndexError, s).
Proof.
  intros ts u m frags s i info Hin Hle. unfold save_mapping.
  rewrite group_index_error by now exists i, info.
  reflexivity.
Qed.

Lemma save_mapping_index_error_witness :
  save_mapping "2024-06-01T00:00:00" (sample.uuids "b")
    [(5, {| entity_id := "E-000001"; confidence := Some 1%Q |})]
    sample.scan sample.db1
  = (Raise IndexError, sample.db1).
Proof.
  apply (save_mapping_index_error _ _ _ _ _ 5
           {| entity_id := "E-000001"; confidence := Some 1%Q |}).
  - now left.
  - vm_compute. lia.
Defined.

Lemma group_returns (frags : list Fragment) (m : Mapping) :
  (forall i info, In (i, info) m -> i < List.length frags) ->
  forall acc, exists grouped, group m frags acc = Ok grouped.
Proof.
  induction m as [|[idx info] m IH]; intros Hin acc; simpl.
  - now exists acc.
  - destruct (nth_error frags idx) as [frag|] eqn:Hnth.
    + apply IH. intros i inf H. apply (Hin i inf). now right.
    + apply nth_error_None in Hnth.
      specialize (Hin idx info (or_introl eq_refl)). lia.
Qed.

Lemma setdefault_append_NoDup (grouped : list (string * list Grouped))
    (eid : string) (x : Grouped) :
  NoDup (map fst grouped) -> NoDup (map fst (setdefault_append grouped eid x)).
Proof.
  induction grouped as [|[k l] grouped IH]; simpl; intro H.
  - repeat constructor. intros [].
  - inversion H as [|? ? Hnot Hnd]; subst.
    destruct (String.eqb_spec k eid) as [E|E]; simpl.
    + now constructor.
    + constructor; [|auto].
      intro Hin. apply setdefault_append_keys in Hin.
      destruct Hin as [Hin|Hin]; [congruence | contradiction].
Qed.

Lemma group_NoDup (frags : list Fragment) (m : Mapping) :
  forall acc grouped,
    group m frags acc = Ok grouped ->
    NoDup (map fst acc) -> NoDup (map fst grouped).
Proof.
  induction m as [|[idx info] m IH]; intros acc grouped H Hacc.
  - simpl in H. now injection H as <-.
  - simpl in H. destruct (nth_error frags idx) as [frag|]; [|discriminate].
    apply (IH _ _ H). now apply setdefault_append_NoDup.
Qed.

Lemma insert_fragments_returns (ts : string) (u : nat -> string) (eid : string)
    (l : list Grouped) :
  forall (i : nat) (s : Store),
    NoDup (map frag_id (fragments s ++ fragment_rows ts u eid i l)) ->
    exists s', insert_fragments ts u eid i l s = Ok s'.
Proof.
  induction l as [|frag l IH]; intros i s Hnd.
  - now exists s.
  - cbn [insert_fragments fragment_rows] in *.
    unfold insert_fragment. cbn [frag_id].
    assert (~ In (eid ++ "-" ++ u i)%string (map frag_id (fragments s))) as Hnew.
    { rewrite map_app in Hnd. apply NoDup_remove_2 in Hnd.
      intro Hin. apply Hnd. apply in_or_app. now left. }
    apply (existsb_key_false frag_id) in Hnew. rewrite Hnew. cbn [bind].
    apply IH. cbn [fragments]. rewrite <- app_assoc. exact Hnd.
Qed.

Lemma insert_groups_returns (ts : string) (u : nat -> nat -> string)
    (grouped : list (string * list Grouped)) :
  forall (g : nat) (s : Store),
    NoDup (map fst grouped) ->
    (forall k, In k (map fst grouped) -> ~ in_store k s) ->
    NoDup (map frag_id (fragments s ++ group_rows ts u g grouped)) ->
    exists s', insert_groups ts u g grouped s = Ok s'.
Proof.
  induction grouped as [|[eid l] grouped IH]; intros g s Hk Hout Hnd.
  - now exists s.
  - cbn [insert_groups group_rows] in *. unfold insert_entity. cbn [e_entity_id].
    assert (~ in_store eid s) as Hnew by (apply Hout; now left).
    apply (existsb_key_false e_entity_id) in Hnew. rewrite Hnew. cbn [bind].
    destruct (insert_fragments_returns ts (u g) eid l 0
                {| entities := entities s ++
                                 [{| e_entity_id := eid;
                                     fragment_count := List.length l;
                                     e_confidence := avg_conf l;
                                     created_at := ts;
                                     updated_at := ts |}];
                   fragments := fragments s;
                   erasures := erasures s |}) as [s2 Hs2].
    { cbn [fragments]. rewrite app_assoc, map_app in Hnd.
      now apply NoDup_app_remove_r in Hnd. }
    rewrite Hs2. cbn [bind].
    apply insert_fragments_spec in Hs2. cbn [entities fragments] in Hs2.
    destruct Hs2 as [He2 [Hf2 _]].
    inversion Hk as [|? ? Hnot Hk']; subst.
    apply IH; [assumption | |].
    + intros k Hin Hstore. unfold in_store in Hstore.
      rewrite He2, map_app in Hstore. apply in_app_or in Hstore.
      destruct Hstore as [Hstore|[Hstore|[]]].
      * apply (Hout k); [now right | assumption].
      * simpl in Hstore. subst k. contradiction.
    + rewrite Hf2, <- app_assoc. exact Hnd.
Qed.

(** X9: [save_mapping] returns, and commits, whenever every index of the
    mapping is an index of the list of fragments and the fragment ids it
    builds from the uuids drawn are distinct from each other and from the
    ids of the rows it keeps. *)
Theorem save_mapping_returns :
  forall (ts : string) (u : nat -> nat -> string) (m : Mapping)
         (frags : list Fragment) (s : Store),
    (forall i info, In (i, info) m -> i < List.length frags) ->
    exists grouped,
      group m frags [] = Ok grouped
      /\ (NoDup (map frag_id
                   (filter (fun f => negb (memb (f_entity_id f) (entity_ids m)))
                      (fragments s)
                    ++ group_rows ts u 0 grouped)) ->
          exists s', save_mapping ts u m frags s = (Ok tt, s')).
Proof.
  intros ts u m frags s Hidx.
  destruct (group_returns frags m Hidx []) as [grouped Hg].
  exists grouped. split; [assumption|]. intro Hnd.
  unfold save_mapping. rewrite Hg. cbn [bind].
  destruct (insert_groups_returns ts u grouped 0
              (clear_old (entity_ids m) s)) as [s' Hs'].
  - apply (group_NoDup frags m [] grouped Hg). constructor.
  - intros k Hk. apply (group_spec frags m [] grouped Hg) in Hk.
    destruct Hk as [[]|Hk]. apply entity_ids_In in Hk.
    rewrite clear_old_spec. unfold in_store. cbn [entities].
    intro Hin. apply in_map_iff in Hin. destruct Hin as [e [Hid Hin]].
    apply filter_In in Hin. destruct Hin as [_ Hin].
    apply negb_true_iff, memb_false in Hin. congruence.
  - rewrite clear_old_spec. cbn [fragments]. exact Hnd.
  - exists s'. now rewrite Hs'.
Qed.

Lemma save_mapping_returns_witness :
  exists s',
    save_mapping "2024-06-01T00:00:00" (sample.uuids "b") sample.linked2
      sample.scan2 sample.db1 = (Ok tt, s').
Proof.
  destruct (save_mapping_returns "2024-06-01T00:00:00" (sample.uuids "b")
              sample.linked2 sample.scan2 sample.db1) as [grouped [Hg H]].
  - intros i info Hin. vm_compute in Hin. destruct Hin as [Hin|[]].
    injection Hin as <- _. vm_compute. lia.
  - apply H. vm_compute in Hg. injection Hg as <-.
    vm_compute. repeat constructor; simpl; intuition discriminate.
Defined.

(** ** Saving and reading back *)

Lemma group_of_absent (k : string) (grouped : list (string * list Grouped)) :
  ~ In k (map fst grouped) -> group_of k grouped = [].
Proof.
  unfold group_of. induction grouped as [|[k' l] grouped IH]; simpl; intro H.
  - reflexivity.
  - destruct (String.eqb_spec k' k) as [E|E].
    + exfalso. apply H. now left.
    + apply IH. intro Hin. apply H. now right.
Qed.

Lemma setdefault_append_group_of (grouped : list (string * list Grouped))
    (eid : string) (x : Grouped) (k : string) :
  NoDup (map fst grouped) ->
  group_of k (setdefault_append grouped eid x)
  = group_of k grouped ++ (if (eid =? k)%string then [x] else []).
Proof.
  induction grouped as [|[k' l] grouped IH]; intro Hnd.
  - unfold group_of. simpl. destruct (eid =? k)%string; reflexivity.
  - inversion Hnd as [|? ? Hnot Hnd']; subst. simpl.
    destruct (String.eqb_spec k' eid) as [E|E].
    + subst k'. unfold group_of. simpl. fold (group_of k grouped).
      destruct (String.eqb_spec eid k) as [E'|E'].
      * subst k. rewrite (group_of_absent eid grouped Hnot).
        now rewrite !app_nil_r.
      * now rewrite app_nil_r.
    + unfold group_of. simpl. fold (group_of k grouped).
      fold (group_of k (setdefault_append grouped eid x)).
      rewrite IH by assumption. now rewrite app_assoc.
Qed.

Lemma group_members (frags : list Fragment) (m : Mapping) (k : string) :
  forall acc grouped,
    group m frags acc = Ok grouped ->
    NoDup (map fst acc) ->
    map grouped_fragment (group_of k grouped)
    = map grouped_fragment (group_of k acc) ++ cluster_members m frags k.
Proof.
  induction m as [|[idx info] m IH]; intros acc grouped H Hnd.
  - simpl in H. injection H as <-. simpl. now rewrite app_nil_r.
  - simpl in H. destruct (nth_error frags idx) as [frag|] eqn:Hnth;
      [|discriminate].
    rewrite (IH _ _ H) by now apply setdefault_append_NoDup.
    rewrite setdefault_append_group_of by assumption.
    unfold cluster_members. cbn [flat_map fst snd]. rewrite Hnth.
    rewrite map_app, <- app_assoc. f_equal.
    destruct (entity_id info =? k)%string; [|reflexivity].
    simpl. now destruct frag.
Qed.

Lemma fragment_rows_members (ts : string) (u : nat -> string) (eid : string)
    (l : list Grouped) (i : nat) :
  map as_fragment (fragment_rows ts u eid i l) = map grouped_fragment l.
Proof. revert i. induction l as [|x l IH]; intro i; simpl; [|rewrite IH]; reflexivity. Qed.

Lemma group_rows_members (ts : string) (u : nat -> nat -> string) (k : string)
    (grouped : list (string * list Grouped)) (g : nat) :
  map as_fragment
    (filter (fun f => (f_entity_id f =? k)%string) (group_rows ts u g grouped))
  = map grouped_fragment (group_of k grouped).
Proof.
  unfold group_of. revert g.
  induction grouped as [|[eid l] grouped IH]; intro g; simpl; [reflexivity|].
  rewrite filter_app, !map_app, IH, fragment_rows_select.
  destruct (eid =? k)%string; simpl.
  - now rewrite fragment_rows_members.
  - reflexivity.
Qed.

Lemma group_rows_stamp (ts : string) (u : nat -> nat -> string)
    (grouped : list (string * list Grouped)) (g : nat) (f : FragmentRow) :
  In f (group_rows ts u g grouped) -> f_created_at f = ts.
Proof.
  revert g. induction grouped as [|[eid l] grouped IH]; intros g H; simpl in *.
  - destruct H.
  - apply in_app_or in H. destruct H as [H|H]; [|eauto].
    clear IH. generalize dependent 0.
    induction l as [|x l IHl]; intros i H; simpl in H; [destruct H|].
    destruct H as [H|H]; [now subst f | eauto].
Qed.

(** X10: after a call of [save_mapping] that returned, [get_entity] on an
    id of the mapping finds the entity, with as many fragments as the
    mapping has entries for the id; read back, their type, value and source
    are those of the fragments the mapping gives to the id, in the order of
    the mapping, and the rows carry the timestamp of the call. *)
Theorem save_then_get_entity :
  forall (ts : string) (u : nat -> nat -> string) (m : Mapping)
         (frags : list Fragment) (s s' : Store) (eid : string),
    save_mapping ts u m frags s = (Ok tt, s') ->
    In eid (entity_ids m) ->
    exists e frs,
      get_entity eid s' = Some (e, frs)
      /\ fragment_count e = entries_of eid m
      /\ map as_fragment frs = cluster_members m frags eid
      /\ created_at e = ts
      /\ (forall f, In f frs -> f_entity_id f = eid /\ f_created_at f = ts).
Proof.
  intros ts u m frags s s' eid H Hin.
  pose proof (save_mapping_counts ts u m frags s s' eid H Hin) as [_ Hrows].
  apply save_mapping_shape in H.
  destruct H as [grouped [Hg [Hnd [Hkeys [Hsize [He [Hf _]]]]]]].
  assert (filter (fun f => (f_entity_id f =? eid)%string) (fragments s')
          = filter (fun f => (f_entity_id f =? eid)%string)
              (group_rows ts u 0 grouped)) as Hown.
  { rewrite Hf, filter_app.
    now rewrite (select_after_clear_present f_entity_id). }
  unfold get_entity. rewrite He, find_app.
  rewrite (find_key_None e_entity_id).
  2:{ intro Hx. apply in_map_iff in Hx. destruct Hx as [e [Hk Hx]].
      apply filter_In in Hx. destruct Hx as [_ Hx].
      apply negb_true_iff, memb_false in Hx. congruence. }
  destruct (find_entity_row ts eid grouped) as [l [Hl Hfind]];
    [now apply Hkeys|].
  rewrite Hfind. do 2 eexists. split; [reflexivity|].
  cbn [fragment_count created_at entity_row].
  repeat split.
  - exact Hrows.
  - rewrite Hown, group_rows_members.
    rewrite (group_members frags m eid [] grouped Hg) by constructor.
    reflexivity.
  - apply filter_In in H. destruct H as [_ H]. now apply String.eqb_eq.
  - rewrite Hown in H. apply filter_In in H. destruct H as [H _].
    now apply group_rows_stamp in H.
Qed.

Lemma save_then_get_entity_witness :
  exists e frs,
    get_entity "E-000001" sample.db1 = Some (e, frs)
    /\ fragment_count e = 2
    /\ map as_fragment frs
       = [sample.email "alice@example.com"; sample.email "alice@example.com"].
Proof.
  destruct (save_then_get_entity "2024-01-01T00:00:00" (sample.uuids "a")
              sample.linked sample.scan init_db sample.db1 "E-000001")
    as [e [frs [H1 [H2 [H3 _]]]]].
  - vm_compute. reflexivity.
  - vm_compute. auto.
  - exists e, frs. repeat split; assumption.
Defined.

(** ** Erasing twice *)

(** X11: once [erase_entity] has erased an entity, the entity cannot be
    read, none of its fragment rows is left, and a second [erase_entity]
    of the same id reports failure, whoever asks and whatever identifier
    and time it draws, and changes nothing: no second erasure is logged. *)
Theorem erase_entity_twice :
  forall (eid rb rs u now : string) (s s1 : Store) (n : nat),
    erase_entity eid rb rs u now s = ((true, n), s1) ->
    get_entity eid s1 = None
    /\ count_fragments_of eid s1 = 0
    /\ List.length (erasures s1) = S (List.length (erasures s))
    /\ forall rb' rs' u' now',
         erase_entity eid rb' rs' u' now' s1 = ((false, 0), s1).
Proof.
  intros eid rb rs u now s s1 n. unfold erase_entity at 1.
  destruct (count_entities eid s =? 0); [discriminate|].
  unfold insert_erasure, delete_entity, delete_fragments_of.
  cbn [entities fragments erasures erasure_id].
  destruct (existsb _ (erasures s)); [discriminate|].
  intro H. injection H as _ Hs1.
  assert (entities s1
          = filter (fun e => negb (e_entity_id e =? eid)%string) (entities s))
    as He by now subst s1.
  assert (fragments s1
          = filter (fun f => negb (f_entity_id f =? eid)%string) (fragments s))
    as Hf by now subst s1.
  assert (List.length (erasures s1) = S (List.length (erasures s))) as Hr.
  { subst s1. cbn [erasures]. rewrite length_app. simpl. lia. }
  clear Hs1.
  assert (~ in_store eid s1) as Hgone.
  { unfold in_store. rewrite He. apply delete_key_not_In. }
  repeat split.
  - now apply get_entity_None.
  - unfold count_fragments_of. rewrite Hf.
    now rewrite (select_delete_nil f_entity_id).
  - exact Hr.
  - intros rb' rs' u' now'. unfold erase_entity.
    apply count_entities_zero in Hgone. now rewrite Hgone.
Qed.

Lemma erase_entity_twice_witness :
  get_entity "E-000001"
    (snd (erase_entity "E-000001" "dpo" "request" "1" "2024-02-01T00:00:00"
            sample.db1)) = None.
Proof.
  destruct (erase_entity "E-000001" "dpo" "request" "1" "2024-02-01T00:00:00"
              sample.db1) as [[b n] s1] eqn:H.
  assert (b = true) as Hb.
  { apply (f_equal (fun r => fst (fst r))) in H. vm_compute in H. now symmetry. }
  subst b.
  exact (proj1 (erase_entity_twice _ _ _ _ _ _ _ _ H)).
Defined.

(** ** list_entities *)


(** ** What save_mapping leaves alone *)

Lemma find_after_clear_absent {A : Type} (key : A -> string) (k : string)
    (ks : list string) (l : list A) :
  ~ In k ks ->
  find (fun x => (key x =? k)%string)
    (filter (fun x => negb (memb (key x) ks)) l)
  = find (fun x => (key x =? k)%string) l.
Proof.
  intro Hout. induction l as [|x l IH]; simpl; [reflexivity|].
  destruct (String.eqb_spec (key x) k) as [E|E].
  - subst k. apply memb_false in Hout. rewrite Hout. simpl.
    now rewrite String.eqb_refl.
  - destruct (memb (key x) ks); simpl; [assumption|].
    destruct (String.eqb_spec (key x) k); [contradiction | assumption].
Qed.

(** X13: a call of [save_mapping] that returned has not touched the
    erasure log, nor any entity the mapping does not name: [get_entity]
    answers for such an id what it answered before the call. *)
Theorem save_mapping_frame :
  forall (ts : string) (u : nat -> nat -> string) (m : Mapping)
         (frags : list Fragment) (s s' : Store),
    save_mapping ts u m frags s = (Ok tt, s') ->
    erasures s' = erasures s
    /\ forall eid, ~ In eid (entity_ids m) ->
         get_entity eid s' = get_entity eid s.
Proof.
  intros ts u m frags s s' H. apply save_mapping_shape in H.
  destruct H as [grouped [_ [_ [Hkeys [_ [He [Hf Hr]]]]]]].
  split; [assumption|]. intros eid Hout.
  assert (~ In eid (map fst grouped)) as Hout' by now rewrite Hkeys.
  unfold get_entity. rewrite He, Hf, find_app, filter_app.
  rewrite (find_after_clear_absent e_entity_id) by assumption.
  rewrite (select_after_clear_absent f_entity_id) by assumption.
  assert (filter (fun f => (f_entity_id f =? eid)%string)
            (group_rows ts u 0 grouped) = []) as ->.
  { apply (select_key_nil f_entity_id). intro Hin. apply Hout'.
    apply in_map_iff in Hin. destruct Hin as [f [Hid Hin]]. subst eid.
    now apply group_rows_owner in Hin. }
  rewrite app_nil_r.
  destruct (find _ (entities s)); [reflexivity|].
  rewrite (find_key_None e_entity_id); [reflexivity|].
  rewrite map_map. cbn [entity_row e_entity_id].
  intro Hin. apply Hout'. apply in_map_iff in Hin.
  destruct Hin as [kl [Hk Hin]]. apply in_map_iff. exists kl.
  split; [|assumption]. now destruct kl.
Qed.

Lemma save_mapping_frame_witness :
  erasures (snd (save_mapping "2024-06-01T00:00:00" (sample.uuids "b")
                   sample.linked2 sample.scan2 sample.db1))
  = erasures sample.db1
  /\ get_entity "E-000002"
       (snd (save_mapping "2024-06-01T00:00:00" (sample.uuids "b")
               sample.linked2 sample.scan2 sample.db1))
     = get_entity "E-000002" sample.db1.
Proof.
  destruct (save_mapping_frame "2024-06-01T00:00:00" (sample.uuids "b")
              sample.linked2 sample.scan2 sample.db1
              (snd (save_mapping "2024-06-01T00:00:00" (sample.uuids "b")
                      sample.linked2 sample.scan2 sample.db1))) as [H1 H2].
  - vm_compute. reflexivity.
  - split; [exact H1|]. apply H2. vm_compute. intuition discriminate.
Defined.

(** * Further properties of the linker *)

(** The group that takes the row holds a member within the threshold, and
    only that group changes. *)
Lemma match_existing_found (t : Q) (val : string) (row : Fragment)
    (groups groups' : Groups) (eid : string) (m : Q) :
  (forall k l, In (k, l) groups -> l <> []) ->
  match_existing val t row groups = Some (eid, m, groups') ->
  exists members,
    In (eid, members) groups
    /\ existsb (similar t val) members = true
    /\ forall k l, In (k, l) groups' ->
         In (k, l) groups \/ (k = eid /\ l = members ++ [row]).
Proof.
  revert groups'.
  induction groups as [|[k l] groups IH]; simpl; intros groups' Hne H;
    [discriminate|].
  rewrite max_similarity_reaches in H by (apply (Hne k); now left).
  destruct (existsb (similar t val) l) eqn:Hl.
  - injection H as <- _ <-. exists l. repeat split; auto.
    intros k' l' [Hin|Hin]; [right; now injection Hin as <- <- | auto].
  - destruct (match_existing val t row groups) as [[[e m'] r]|] eqn:Hrec;
      [|discriminate].
    injection H as <- <- <-.
    destruct (IH r) as [members [H1 [H2 H3]]]; [|reflexivity|].
    { intros k' l' Hin. apply (Hne k'). now right. }
    exists members. repeat split; auto.
    intros k' l' [Hin|Hin]; [auto|].
    apply H3 in Hin. tauto.
Qed.

Lemma nth_error_snoc_old {A : Type} (l : list A) (x : A) (j : nat) (y : A) :
  nth_error l j = Some y -> nth_error (l ++ [x]) j = Some y.
Proof.
  intro H. rewrite nth_error_app1; [assumption|].
  apply nth_error_Some. congruence.
Qed.

Lemma nth_error_snoc_below {A : Type} (l : list A) (x : A) (j : nat) :
  j < List.length l -> nth_error (l ++ [x]) j = nth_error l j.
Proof. intro H. now apply nth_error_app1. Qed.

Lemma nth_error_snoc_last {A : Type} (l : list A) (x : A) :
  nth_error (l ++ [x]) (List.length l) = Some x.
Proof.
  rewrite nth_error_app2 by lia. now rewrite Nat.sub_diag.
Qed.

(** An entry stays justified when a later row is seen and a later entry is
    added. *)
Lemma justified_later (t : Q) (m : Mapping) (seen : list Fragment)
    (extra : Mapping) (row : Fragment) (i : nat) (info : Info) :
  i < List.length seen ->
  (forall j info', In (j, info') extra -> List.length seen <= j) ->
  justified t m seen i info ->
  justified t (m ++ extra) (seen ++ [row]) i info.
Proof.
  intros Hi Hextra [r [Hr [Hnb Hwhy]]]. exists r.
  split; [now apply nth_error_snoc_old|]. split; [assumption|].
  destruct Hwhy as [[Hc [Hids Hsim]]|[j [info' [f [Hin [Hj [Hid [Hf Hs]]]]]]]].
  - left. repeat split; [assumption| |].
    + intros j info' Hin Hj. apply in_app_or in Hin.
      destruct Hin as [Hin|Hin]; [now apply (Hids j)|].
      apply Hextra in Hin. lia.
    + intros j f Hj Hf. rewrite nth_error_snoc_below in Hf by lia.
      now apply (Hsim j).
  - right. exists j, info', f. repeat split; try assumption.
    + apply in_or_app. now left.
    + now apply nth_error_snoc_old.
Qed.

(** One round of the loop: the groups stay traced and every entry
    justified. *)
Lemma step_justified (t : Q) (st : State) (seen : list Fragment)
    (row : Fragment) :
  linked st (filter nonblank seen) (List.length seen) ->
  traced st seen ->
  (forall i info, In (i, info) (mapping st) ->
     justified t (mapping st) seen i info) ->
  traced (step t st (List.length seen) row) (seen ++ [row])
  /\ forall i info, In (i, info) (mapping (step t st (List.length seen) row)) ->
       justified t (mapping (step t st (List.length seen) row))
         (seen ++ [row]) i info.
Proof.
  intros Hl Htr Hj.
  assert (forall i info, In (i, info) (mapping st) -> i < List.length seen)
    as Hbound.
  { intros i info Hin. apply (linked_indices _ _ _ Hl).
    apply in_map_iff. now exists (i, info). }
  unfold step.
  destruct (Py.truthy (normalize (value row))) eqn:Hval; cbn [negb].
  2:{ cbn [entity_groups mapping]. split.
      - intros k l f Hin Hf. destruct (Htr k l f Hin Hf) as [j [info H]].
        exists j, info. intuition. now apply nth_error_snoc_old.
      - intros i info Hin.
        rewrite <- (app_nil_r (mapping st)).
        apply justified_later; [now apply (Hbound i info)| |auto].
        intros j info' []. }
  destruct (match_existing (normalize (value row)) t row (entity_groups st))
    as [[[eid m] groups']|] eqn:Hmatch.
  - apply match_existing_found in Hmatch; [|exact (linked_nonempty _ _ _ Hl)].
    destruct Hmatch as [members [Hmem [Hex Hgroups]]].
    cbn [entity_groups mapping].
    rewrite (mapping_set_next st _ _ _ Hl).
    split.
    + intros k l f Hin Hf. apply Hgroups in Hin.
      assert (forall k l, In (k, l) (entity_groups st) -> In f l ->
                exists j info,
                  In (j, info)
                    (mapping st ++
                     [(List.length seen,
                       {| entity_id := eid;
                          confidence := Some (Py.round2 m) |})])
                  /\ entity_id info = k
                  /\ nth_error (seen ++ [row]) j = Some f) as Hold.
      { intros k0 l0 Hin0 Hf0.
        destruct (Htr k0 l0 f Hin0 Hf0) as [j [info [H1 [H2 H3]]]].
        exists j, info. repeat split; [|assumption|].
        - apply in_or_app. now left.
        - now apply nth_error_snoc_old. }
      destruct Hin as [Hin|[-> ->]]; [now apply (Hold k l)|].
      apply in_app_or in Hf. destruct Hf as [Hf|[<-|[]]];
        [now apply (Hold eid members)|].
      eexists _, _. split; [apply in_or_app; right; now left|].
      split; [reflexivity|]. apply nth_error_snoc_last.
    + intros i info Hin. apply in_app_or in Hin.
      destruct Hin as [Hin|[Hin|[]]].
      * apply justified_later; [now apply (Hbound i info)| |auto].
        intros j info' [E|[]]. injection E as <- _. lia.
      * injection Hin as <- <-. exists row.
        split; [apply nth_error_snoc_last|]. split; [exact Hval|].
        right. apply existsb_exists in Hex. destruct Hex as [f [Hf Hs]].
        destruct (Htr eid members f Hmem Hf) as [j [info' [H1 [H2 H3]]]].
        exists j, info', f. repeat split.
        -- apply in_or_app. now left.
        -- now apply (Hbound j info').
        -- assumption.
        -- now apply nth_error_snoc_old.
        -- assumption.
  - apply match_existing_None in Hmatch; [|exact (linked_nonempty _ _ _ Hl)].
    cbn [entity_groups mapping].
    rewrite (mapping_set_next st _ _ _ Hl).
    rewrite (groups_set_next st _ _ _ Hl).
    split.
    + intros k l f Hin Hf. apply in_app_or in Hin.
      destruct Hin as [Hin|[Hin|[]]].
      * destruct (Htr k l f Hin Hf) as [j [info [H1 [H2 H3]]]].
        exists j, info. repeat split; [|assumption|].
        -- apply in_or_app. now left.
        -- now apply nth_error_snoc_old.
      * injection Hin as <- <-. destruct Hf as [<-|[]].
        eexists _, _. split; [apply in_or_app; right; now left|].
        split; [reflexivity|]. apply nth_error_snoc_last.
    + intros i info Hin. apply in_app_or in Hin.
      destruct Hin as [Hin|[Hin|[]]].
      * apply justified_later; [now apply (Hbound i info)| |auto].
        intros j info' [E|[]]. injection E as <- _. lia.
      * injection Hin as <- <-. exists row.
        split; [apply nth_error_snoc_last|]. split; [exact Hval|].
        left. cbn [confidence entity_id]. repeat split.
        -- intros j info' Hin Hlt E. apply in_app_or in Hin.
           destruct Hin as [Hin|[Hin|[]]]; [|injection Hin as <- _; lia].
           assert (In (entity_id info') (map fst (entity_groups st))) as Hk.
           { apply (linked_ids _ _ _ Hl). apply in_map_iff.
             now exists (j, info'). }
           rewrite (linked_keys _ _ _ Hl), E in Hk.
           apply in_map_iff in Hk. destruct Hk as [x [Hx Hseq]].
           apply entity_name_inj in Hx. apply in_seq in Hseq. lia.
        -- intros j f Hlt Hf Hnb.
           rewrite nth_error_snoc_below in Hf by assumption.
           apply nth_error_In in Hf.
           assert (In f (members_of (entity_groups st))) as Hm.
           { apply (linked_members _ _ _ Hl). apply filter_In. now split. }
           destruct (similar t (normalize (value row)) f) eqn:Hs;
             [|reflexivity].
           assert (existsb (similar t (normalize (value row)))
                     (members_of (entity_groups st)) = true) as Hex.
           { apply existsb_exists. now exists f. }
           congruence.
Qed.

Lemma filter_snoc {A : Type} (p : A -> bool) (l : list A) (x : A) :
  filter p (l ++ [x]) = if p x then filter p l ++ [x] else filter p l.
Proof.
  rewrite filter_app. simpl. destruct (p x); [reflexivity | apply app_nil_r].
Qed.

Lemma loop_justified (t : Q) (rows : list Fragment) :
  forall (st : State) (seen : list Fragment),
    linked st (filter nonblank seen) (List.length seen) ->
    traced st seen ->
    (forall i info, In (i, info) (mapping st) ->
       justified t (mapping st) seen i info) ->
    forall i info,
      In (i, info) (mapping (loop t st (List.length seen) rows)) ->
      justified t (mapping (loop t st (List.length seen) rows))
        (seen ++ rows) i info.
Proof.
  induction rows as [|row rows IH]; intros st seen Hl Htr Hj; simpl.
  - now rewrite app_nil_r.
  - destruct (step_justified t st seen row Hl Htr Hj) as [Htr' Hj'].
    destruct (step_linked t st _ _ row Hl) as [Hl' _].
    rewrite <- filter_snoc in Hl'.
    replace (S (List.length seen)) with (List.length (seen ++ [row])) in *
      by (rewrite length_app; simpl; lia).
    specialize (IH _ _ Hl' Htr' Hj').
    now rewrite <- app_assoc in IH.
Qed.

(** X14: every entry of the mapping that [cluster_fragments] returns is
    accounted for.  The entry of index [i] belongs to a fragment that is
    not blank, and either the fragment started its cluster (its confidence
    is 1.0, no earlier entry has its entity id, and no earlier fragment that
    is not blank reaches the threshold against it), or an earlier fragment
    with the same entity id reaches the threshold against it. *)
Theorem cluster_fragments_justified :
  forall (frags : list Fragment) (t : Q) (i : nat) (info : Info),
    In (i, info) (fst (cluster_fragments frags t)) ->
    justified t (fst (cluster_fragments frags t)) frags i info.
Proof.
  intros frags t i info. rewrite cluster_fragments_mapping.
  apply (loop_justified t frags initial []).
  - exact linked_initial.
  - intros k l f [].
  - intros j info' [].
Qed.

Lemma cluster_fragments_justified_witness :
  justified (Py.float (85 # 100)) (fst (cluster_fragments sample.scan (Py.float (85 # 100))))
    sample.scan 1 {| entity_id := "E-000001"; confidence := Some 1%Q |}.
Proof.
  apply cluster_fragments_justified. vm_compute. auto.
Defined.

(** ** The keys of the mapping and the table *)

Lemma step_mapping (t : Q) (st : State) (prev : list Fragment) (i : nat)
    (row : Fragment) :
  linked st prev i ->
  exists extra,
    mapping (step t st i row) = mapping st ++ extra
    /\ map fst extra = (if nonblank row then [i] else [])
    /\ map fillna (df (step t st i row))
       = map fillna (df st) ++ [table_row extra i].
Proof.
  intro H. unfold step, nonblank.
  destruct (Py.truthy (normalize (value row))); cbn [negb].
  - destruct (match_existing _ t row (entity_groups st)) as [[[eid m] g']|];
      cbn [mapping df]; rewrite (mapping_set_next st prev i _ H);
      eexists; (split; [reflexivity|]); (split; [reflexivity|]);
      rewrite map_app; unfold table_row; simpl; now rewrite Nat.eqb_refl.
  - exists []. cbn [mapping df]. rewrite app_nil_r, map_app. auto.
Qed.

Lemma dict_get_absent {V : Type} (d : list (nat * V)) (j : nat) :
  ~ In j (map fst d) -> dict.get Nat.eqb d j = None.
Proof.
  induction d as [|[k v] d IH]; simpl; intro H; [reflexivity|].
  destruct (Nat.eqb_spec k j) as [E|E]; [exfalso; apply H; now left|].
  apply IH. intro Hin. apply H. now right.
Qed.

Lemma dict_get_app {V : Type} (d1 d2 : list (nat * V)) (j : nat) :
  dict.get Nat.eqb (d1 ++ d2) j
  = match dict.get Nat.eqb d1 j with
    | Some v => Some v
    | None => dict.get Nat.eqb d2 j
    end.
Proof.
  induction d1 as [|[k v] d1 IH]; simpl; [reflexivity|].
  now destruct (k =? j).
Qed.

Lemma loop_mapping (t : Q) (rows : list Fragment) :
  forall (st : State) (prev : list Fragment) (i : nat),
    linked st prev i ->
    map fillna (df st) = map (table_row (mapping st)) (seq 0 i) ->
    map fst (mapping (loop t st i rows))
    = map fst (mapping st) ++ nonblank_indices i rows
    /\ map fillna (df (loop t st i rows))
       = map (table_row (mapping (loop t st i rows)))
           (seq 0 (i + List.length rows)).
Proof.
  induction rows as [|row rows IH]; intros st prev i H Hdf; simpl.
  - now rewrite app_nil_r, Nat.add_0_r.
  - destruct (step_linked t st prev i row H) as [Hl _].
    destruct (step_mapping t st prev i row H) as [extra [Hm [Hk Hrow]]].
    destruct (IH _ _ _ Hl) as [IH1 IH2].
    + rewrite Hrow, Hdf, seq_S, map_app, Hm. cbn [map Nat.add]. f_equal.
      * apply map_ext_in. intros j Hj. apply in_seq in Hj.
        unfold table_row. rewrite dict_get_app.
        destruct (dict.get Nat.eqb (mapping st) j); [reflexivity|].
        rewrite dict_get_absent; [reflexivity|].
        rewrite Hk. destruct (nonblank row); simpl; lia.
      * unfold table_row. rewrite dict_get_app.
        rewrite (dict_get_absent (mapping st)); [reflexivity|].
        intro Hin. apply (linked_indices _ _ _ H) in Hin. lia.
    + rewrite IH1, Hm, map_app, Hk, <- app_assoc.
      rewrite <- Nat.add_succ_comm. split; [|exact IH2].
      now destruct (nonblank row).
Qed.

(** X15: the mapping that [cluster_fragments] returns has one entry for
    each fragment that is not blank, in the order of the fragments and
    under the index of the fragment; the table it returns has one row for
    each fragment, which gives the entity and the score of the entry of the
    fragment, and ["N/A"] with the score 0.0 for a fragment without
    entry. *)
Theorem cluster_fragments_table :
  forall (frags : list Fragment) (t : Q),
    map fst (fst (cluster_fragments frags t)) = nonblank_indices 0 frags
    /\ snd (cluster_fragments frags t)
       = map (table_row (fst (cluster_fragments frags t)))
           (seq 0 (List.length frags)).
Proof.
  intros frags t.
  destruct (loop_mapping t frags initial [] 0 linked_initial eq_refl)
    as [H1 H2].
  destruct frags as [|f frags]; [split; reflexivity|].
  unfold cluster_fragments. cbn [fst snd]. split; assumption.
Qed.

(** ** Linking, then saving *)

Lemma insert_fragments_raises (ts : string) (u : nat -> string) (eid : string)
    (l : list Grouped) :
  forall (i : nat) (s : Store) (e : exn),
    insert_fragments ts u eid i l s = Raise e ->
    e = IntegrityError "fragments.frag_id".
Proof.
  induction l as [|frag l IH]; intros i s e H; [discriminate|].
  cbn [insert_fragments] in H. unfold insert_fragment in H.
  destruct (existsb _ (fragments s)); cbn [bind] in H.
  - now injection H as <-.
  - now apply IH in H.
Qed.

Lemma insert_groups_raises (ts : string) (u : nat -> nat -> string)
    (grouped : list (string * list Grouped)) :
  forall (g : nat) (s : Store) (e : exn),
    NoDup (map fst grouped) ->
    (forall k, In k (map fst grouped) -> ~ in_store k s) ->
    insert_groups ts u g grouped s = Raise e ->
    e = IntegrityError "fragments.frag_id".
Proof.
  induction grouped as [|[eid l] grouped IH]; intros g s e Hnd Hout H;
    [discriminate|].
  cbn [insert_groups] in H. unfold insert_entity in H. cbn [e_entity_id] in H.
  assert (~ in_store eid s) as Hnew by (apply Hout; now left).
  apply (existsb_key_false e_entity_id) in Hnew. rewrite Hnew in H.
  cbn [bind] in H.
  destruct (insert_fragments ts (u g) eid 0 l _) as [s2|e2] eqn:Hfr;
    cbn [bind] in H.
  - apply insert_fragments_spec in Hfr. destruct Hfr as [He _].
    cbn [entities] in He.
    inversion Hnd as [|? ? Hfirst Hrest]; subst.
    apply (IH (S g) s2 e Hrest); [|assumption].
    intros k Hk Hin. unfold in_store in Hin. rewrite He, map_app in Hin.
    apply in_app_or in Hin. destruct Hin as [Hin|[Hin|[]]].
    + apply (Hout k); [now right | assumption].
    + cbn [e_entity_id] in Hin. subst k. contradiction.
  - injection H as <-. now apply insert_fragments_raises in Hfr.
Qed.

(** X16: [save_mapping] on what [cluster_fragments] has returned for the
    same fragments never raises [IndexError] and never fails on the key of
    an entity.  Either it returns, and then the table of fragments holds the
    rows of the entities the pass does not name and one new row for each
    fragment that is not blank; or a fragment identifier it drew was taken,
    it raises the integrity error of [fragments.frag_id], and the database
    is as before. *)
Theorem cluster_then_save :
  forall (frags : list Fragment) (t : Q) (ts : string)
         (u : nat -> nat -> string) (s : Store),
    (exists s',
        save_mapping ts u (fst (cluster_fragments frags t)) frags s = (Ok tt, s')
        /\ List.length (fragments s')
           = List.length
               (filter (fun f => negb (memb (f_entity_id f)
                                         (entity_ids (fst (cluster_fragments frags t)))))
                  (fragments s))
             + List.length (filter nonblank frags))
    \/ save_mapping ts u (fst (cluster_fragments frags t)) frags s
       = (Raise (IntegrityError "fragments.frag_id"), s).
Proof.
  intros frags t ts u s.
  destruct (save_mapping ts u (fst (cluster_fragments frags t)) frags s)
    as [[[]|e] s'] eqn:Hsave.
  - left. exists s'. split; [reflexivity|].
    rewrite (save_mapping_total_rows _ _ _ _ _ _ Hsave).
    now rewrite mapping_length_of_pass.
  - right. revert Hsave. unfold save_mapping.
    assert (forall i info, In (i, info) (fst (cluster_fragments frags t)) ->
              i < List.length frags) as Hidx.
    { intros i info Hin. rewrite cluster_fragments_mapping in Hin.
      destruct (loop_linked t frags initial [] 0 linked_initial) as [Hl _].
      apply (linked_indices _ _ _ Hl). apply in_map_iff. now exists (i, info). }
    destruct (group_returns frags _ Hidx []) as [grouped Hg].
    rewrite Hg. cbn [bind].
    destruct (insert_groups ts u 0 grouped _) as [s2|e2] eqn:Hins;
      [discriminate|].
    intro H. injection H as <- <-. f_equal. f_equal.
    apply (insert_groups_raises _ _ _ _ _ _
             (group_NoDup frags _ [] grouped Hg (NoDup_nil _))) in Hins;
      [assumption|].
    intros k Hk. apply (group_spec frags _ [] grouped Hg) in Hk.
    destruct Hk as [[]|Hk]. apply entity_ids_In in Hk.
    rewrite clear_old_spec. unfold in_store. cbn [entities].
    intro Hin. apply in_map_iff in Hin. destruct Hin as [e [Hid Hin]].
    apply filter_In in Hin. destruct Hin as [_ Hin].
    apply negb_true_iff, memb_false in Hin. congruence.
Qed.

(** ** A threshold of zero or less *)

Lemma round_half_even_nonneg (n d : Z) :
  (0 <= n)%Z -> (0 < d)%Z -> (0 <= Py.round_half_even n d)%Z.
Proof.
  intros Hn Hd. unfold Py.round_half_even.
  assert (0 <= n / d)%Z as Hq by (apply Z.div_pos; lia).
  destruct (2 * (n mod d) ?= d)%Z; [destruct (Z.odd (n / d))| |]; lia.
Qed.

Lemma float_pos_nonneg (n d : positive) : (0 <= Py.float_pos n d)%Q.
Proof.
  unfold Py.float_pos.
  set (s := (52 - _)%Z). clearbody s.
  rewrite Qred_correct.
  destruct (0 <=? s)%Z eqn:Hs; unfold Qle; cbn [Qnum Qden].
  - rewrite Z.mul_1_r.
    apply round_half_even_nonneg; [|lia].
    apply Z.mul_nonneg_nonneg; [lia|]. apply Z.pow_nonneg. lia.
  - rewrite !Z.mul_1_r.
    apply Z.mul_nonneg_nonneg; [|apply Z.pow_nonneg; lia].
    apply round_half_even_nonneg; [lia|].
    apply Z.mul_pos_pos; [lia|]. apply Z.pow_pos_nonneg; lia.
Qed.

Lemma float_nonneg (x : Q) : (0 <= Qnum x)%Z -> (0 <= Py.float x)%Q.
Proof.
  intro H. unfold Py.float. destruct (Qnum x) as [|n|n] eqn:Hx.
  - apply Qle_refl.
  - apply float_pos_nonneg.
  - lia.
Qed.

Lemma ratio_nonneg (a b : string) : (0 <= difflib.ratio a b)%Q.
Proof.
  unfold difflib.ratio, difflib.ratio_of_lists.
  destruct (_ + _ =? 0) eqn:Htotal; [discriminate|].
  apply Nat.eqb_neq in Htotal. unfold Py.fdiv. apply float_nonneg.
  destruct (List.length (list_ascii_of_string a)
            + List.length (list_ascii_of_string b)) as [|total];
    [congruence|].
  unfold Qdiv, Qinv, inject_Z. cbn [Qnum Qden Qmult Z.of_nat]. lia.
Qed.

Lemma similar_nonpositive (t : Q) (val : string) (f : Fragment) :
  (t <= 0)%Q -> similar t val f = true.
Proof.
  intro H. unfold similar. apply Qle_bool_iff.
  eapply Qle_trans; [exact H | apply ratio_nonneg].
Qed.

Lemma seeds_nonpositive (t : Q) (rows : list Fragment) :
  (t <= 0)%Q ->
  forall prev, seeds t prev rows <= 1 /\ (prev <> [] -> seeds t prev rows = 0).
Proof.
  intro Ht. induction rows as [|row rows IH]; intro prev; simpl; [split; lia|].
  destruct (nonblank row); [|apply IH].
  destruct (IH (prev ++ [row])) as [_ IH2].
  rewrite IH2 by (now destruct prev).
  destruct prev as [|f prev]; simpl; [split; [lia | congruence]|].
  rewrite similar_nonpositive by assumption. simpl. split; lia.
Qed.

(** X17: with a threshold of zero or less, [cluster_fragments] puts every
    fragment that is not blank into the one entity E-000001. *)
Theorem threshold_nonpositive_one_entity :
  forall (frags : list Fragment) (t : Q) (i : nat) (info : Info),
    (t <= 0)%Q ->
    In (i, info) (fst (cluster_fragments frags t)) ->
    entity_id info = "E-000001".
Proof.
  intros frags t i info Ht Hin.
  rewrite cluster_fragments_mapping in Hin.
  destruct (loop_linked t frags initial [] 0 linked_initial) as [Hl Hc].
  assert (In (entity_id info)
            (map fst (entity_groups (loop t initial 0 frags)))) as Hk.
  { apply (linked_ids _ _ _ Hl). apply in_map_iff. now exists (i, info). }
  rewrite (linked_keys _ _ _ Hl), Hc in Hk. cbn [entity_counter initial] in Hk.
  destruct (seeds_nonpositive t frags Ht []) as [Hle _].
  apply in_map_iff in Hk. destruct Hk as [x [Hx Hseq]].
  apply in_seq in Hseq. assert (x = 1) as -> by lia.
  rewrite <- Hx. reflexivity.
Qed.

Lemma threshold_nonpositive_one_entity_witness :
  exists info,
    In (2, info) (fst (cluster_fragments sample.scan 0%Q))
    /\ entity_id info = "E-000001".
Proof.
  assert (exists info, In (2, info) (fst (cluster_fragments sample.scan 0%Q)))
    as [info Hin].
  { vm_compute. eexists. right. right. left. reflexivity. }
  exists info. split; [exact Hin|].
  apply (threshold_nonpositive_one_entity sample.scan 0%Q 2 info);
    [unfold Qle; simpl; lia | exact Hin].
Defined.

(** * Further properties of the scanner *)

(** What the backtracking search accepts is in the language of the
    pattern, and is no longer than the text. *)
Lemma match_here_sound (pat : list re.item) :
  forall (prev : option ascii) (s : list ascii) (n : nat),
    re.match_here pat prev s = Some n ->
    n <= List.length s /\ in_lang pat (firstn n s).
Proof.
  induction pat as [|it pat IH]; intros prev s n H.
  - simpl in H. injection H as <-. simpl. split; [lia | reflexivity].
  - destruct it as [p|p|].
    + destruct s as [|c s]; simpl in H; [discriminate|].
      destruct (p c) eqn:Hp; [|discriminate].
      destruct (re.match_here pat (Some c) s) as [k|] eqn:Hk; [|discriminate].
      injection H as <-. apply IH in Hk. destruct Hk as [Hle Hin].
      simpl. split; [lia|]. exists c, (firstn k s). auto.
    + revert prev n H. induction s as [|c s IHs]; intros prev n H;
        simpl in H; [discriminate|].
      destruct (p c) eqn:Hp; [|discriminate].
      match type of H with
      | match ?g with Some _ => _ | None => _ end = _ => destruct g as [k|] eqn:Hg
      end.
      * injection H as <-. apply (IHs None) in Hg.
        destruct Hg as [Hle [l1 [l2 [E [Hne [Hall Hin]]]]]].
        simpl. split; [lia|]. exists (c :: l1), l2.
        rewrite E. simpl. rewrite Hp, Hall. repeat split; auto. discriminate.
      * destruct (re.match_here pat (Some c) s) as [k|] eqn:Hk; [|discriminate].
        injection H as <-. apply IH in Hk. destruct Hk as [Hle Hin].
        simpl. split; [lia|]. exists [c], (firstn k s).
        simpl. rewrite Hp. repeat split; auto. discriminate.
    + simpl in H. destruct (xorb _ _); [|discriminate].
      apply IH in H. exact H.
Qed.

(** Every match of [finditer] is a stretch of the text that the search
    accepted. *)
Lemma finditer_from_sound (pat : list re.item) (v : string) :
  forall (s : list ascii) (prev : option ascii) (skip : nat),
    In v (re.finditer_from pat prev s skip) ->
    exists pre rest prev' n,
      s = pre ++ rest
      /\ re.match_here pat prev' rest = Some n
      /\ v = string_of_list_ascii (firstn n rest).
Proof.
  induction s as [|c s IH]; intros prev skip H; simpl in H; [destruct H|].
  assert (forall prev' k, In v (re.finditer_from pat prev' s k) ->
            exists pre rest prev'' n,
              c :: s = pre ++ rest
              /\ re.match_here pat prev'' rest = Some n
              /\ v = string_of_list_ascii (firstn n rest)) as Hlater.
  { intros prev' k Hin. apply IH in Hin.
    destruct Hin as [pre [rest [p' [n [E [Hm Hv]]]]]].
    exists (c :: pre), rest, p', n. rewrite E. auto. }
  destruct skip as [|k]; [|now apply (Hlater (Some c) k)].
  destruct (re.match_here pat prev (c :: s)) as [[|n]|] eqn:Hm;
    try now apply (Hlater (Some c) 0).
  destruct H as [H|H]; [|now apply (Hlater (Some c) n)].
  exists [], (c :: s), prev, (S n). auto.
Qed.

Lemma string_of_list_ascii_app (l1 l2 : list ascii) :
  string_of_list_ascii (l1 ++ l2)
  = (string_of_list_ascii l1 ++ string_of_list_ascii l2)%string.
Proof. induction l1 as [|c l1 IH]; simpl; [|rewrite IH]; reflexivity. Qed.

Lemma finditer_part_of (pat : list re.item) (text v : string) :
  In v (re.finditer pat text) -> part_of v text.
Proof.
  unfold re.finditer. intro H. apply finditer_from_sound in H.
  destruct H as [pre [rest [prev [n [E [_ Hv]]]]]].
  exists (string_of_list_ascii pre), (string_of_list_ascii (skipn n rest)).
  rewrite Hv, <- !string_of_list_ascii_app, firstn_skipn, <- E.
  now rewrite string_of_list_ascii_of_string.
Qed.

Lemma substring_prefix (text : string) :
  forall m, exists post, text = (substring 0 m text ++ post)%string.
Proof.
  induction text as [|c text IH]; intro m.
  - exists "". now destruct m.
  - destruct m as [|m]; simpl.
    + now exists (String c text).
    + destruct (IH m) as [post E]. exists post. now rewrite <- E.
Qed.

Lemma substring_part_of (text : string) :
  forall n m, part_of (substring n m text) text.
Proof.
  induction text as [|c text IH]; intros n m.
  - exists "", "". now destruct n, m.
  - destruct n as [|n].
    + destruct (substring_prefix (String c text) m) as [post E].
      now exists "", post.
    + destruct (IH n m) as [pre [post E]].
      exists (String c pre), post. simpl. now rewrite <- E.
Qed.

(** X18: whatever the analyzer does, every fragment [scan_text] returns
    carries the source it was given, and its value is a piece of the text
    scanned. *)
Theorem scan_text_fragments :
  forall (analyze : string -> analysis) (text source_ : string) (f : Fragment),
    In f (scan_text analyze text source_) ->
    source f = source_ /\ part_of (value f) text.
Proof.
  intros analyze text source_ f H. unfold scan_text in H.
  apply in_app_or in H. destruct H as [H|H]; [apply in_app_or in H;
    destruct H as [H|H]|].
  - destruct (analyze text) as [rs|msg]; [|destruct H].
    apply in_map_iff in H. destruct H as [r [<- _]]. cbn [source value].
    split; [reflexivity | apply substring_part_of].
  - apply in_map_iff in H. destruct H as [v [<- Hv]]. cbn [source value].
    split; [reflexivity | now apply finditer_part_of in Hv].
  - apply in_map_iff in H. destruct H as [v [<- Hv]]. cbn [source value].
    split; [reflexivity | now apply finditer_part_of in Hv].
Qed.

Lemma scan_text_fragments_witness :
  source {| type_ := "CPR"; value := "010190-1234"; source := "notes.txt" |}
  = "notes.txt"
  /\ part_of "010190-1234" "Anna, anna@mail.dk, 010190-1234".
Proof.
  apply (scan_text_fragments (fun _ => Raises "recognizer crashed")
           "Anna, anna@mail.dk, 010190-1234" "notes.txt"
           {| type_ := "CPR"; value := "010190-1234"; source := "notes.txt" |}).
  vm_compute. auto.
Defined.

Lemma forallb_repeat_One (p : ascii -> bool) (k : nat) (rest : list re.item) :
  forall l,
    in_lang (repeat (re.One p) k ++ rest) l ->
    exists l1 l2,
      l = l1 ++ l2 /\ List.length l1 = k /\ forallb p l1 = true
      /\ in_lang rest l2.
Proof.
  induction k as [|k IH]; intros l H.
  - exists [], l. auto.
  - simpl in H. destruct H as [c [l' [-> [Hp H]]]].
    apply IH in H. destruct H as [l1 [l2 [-> [Hlen [Hall Hrest]]]]].
    exists (c :: l1), l2. simpl. rewrite Hp, Hall, Hlen. auto.
Qed.

(** X19: every match of the CPR pattern that [scan_text] reports is six
    digits, a dash and four digits, eleven characters in all. *)
Theorem cpr_matches_shape :
  forall (text v : string),
    In v (re.finditer CPR_RE text) -> cpr_shape v = true.
Proof.
  intros text v H. unfold re.finditer in H.
  apply finditer_from_sound in H.
  destruct H as [pre [rest [prev [n [_ [Hm ->]]]]]].
  apply match_here_sound in Hm. destruct Hm as [_ Hin].
  unfold CPR_RE in Hin. cbn [app in_lang] in Hin.
  apply forallb_repeat_One in Hin.
  destruct Hin as [l1 [l2 [E [Hlen1 [Hall1 Hin]]]]].
  cbn [app in_lang] in Hin. destruct Hin as [c [l' [-> [Hdash Hin]]]].
  apply forallb_repeat_One in Hin.
  destruct Hin as [l3 [l4 [-> [Hlen3 [Hall3 Hin]]]]].
  cbn [app in_lang] in Hin. subst l4. rewrite E.
  unfold cpr_shape. rewrite list_ascii_of_string_of_list_ascii.
  do 7 (destruct l1 as [|? l1]; try discriminate).
  do 5 (destruct l3 as [|? l3]; try discriminate).
  simpl in Hall1, Hall3. simpl.
  repeat match goal with
         | H : (_ && _)%bool = true |- _ => apply andb_prop in H; destruct H
         end.
  repeat match goal with
         | H : re.is_digit _ = true |- _ => rewrite H
         end.
  simpl. now rewrite Ascii.eqb_sym.
Qed.

Lemma cpr_matches_shape_witness : cpr_shape "010190-1234" = true.
Proof.
  apply (cpr_matches_shape "Anna, anna@mail.dk, 010190-1234").
  vm_compute. auto.
Defined.

(** X20: every match of the e-mail pattern that [scan_text] reports
    reads [local@domain.tld] with none of the three parts empty; [local] and
    [domain] hold word characters, dots and dashes only, and [tld] word
    characters only. *)
Theorem email_matches_shape :
  forall (text v : string),
    In v (re.finditer EMAIL_RE text) -> email_shape v.
Proof.
  intros text v H. unfold re.finditer in H.
  apply finditer_from_sound in H.
  destruct H as [pre [rest [prev [n [_ [Hm ->]]]]]].
  apply match_here_sound in Hm. destruct Hm as [_ Hin].
  unfold EMAIL_RE in Hin. cbn [in_lang] in Hin.
  destruct Hin as [l1 [r1 [E1 [Hne1 [Hall1 Hin]]]]].
  destruct Hin as [c1 [r2 [-> [Hat Hin]]]].
  destruct Hin as [l2 [r3 [-> [Hne2 [Hall2 Hin]]]]].
  destruct Hin as [c2 [r4 [-> [Hdot Hin]]]].
  destruct Hin as [l3 [r5 [-> [Hne3 [Hall3 ->]]]]].
  apply Ascii.eqb_eq in Hat, Hdot. subst c1 c2.
  exists l1, l2, l3. rewrite list_ascii_of_string_of_list_ascii, E1.
  rewrite app_nil_r. repeat split; assumption.
Qed.

Lemma email_matches_shape_witness : email_shape "anna@mail.dk".
Proof.
  apply (email_matches_shape "Anna, anna@mail.dk, 010190-1234").
  vm_compute. auto.
Defined.

(** * The audit logger *)

Import audit_logger.

Lemma dict_set_twice {V : Type} (d : list (string * V)) (k : string) (v1 v2 : V) :
  dict.set String.eqb (dict.set String.eqb d k v1) k v2
  = dict.set String.eqb d k v2.
Proof.
  induction d as [|[k' v'] d IH]; simpl.
  - now rewrite String.eqb_refl.
  - destruct (String.eqb_spec k' k) as [E|E]; simpl.
    + now rewrite String.eqb_refl.
    + destruct (String.eqb_spec k' k); [contradiction|]. now rewrite IH.
Qed.

Lemma dict_set_keys_length {V : Type} (d : list (string * V)) (k : string) (v : V) :
  List.length (dict.set String.eqb d k v)
  = if existsb (fun kv => (fst kv =? k)%string) d
    then List.length d else S (List.length d).
Proof.
  induction d as [|[k' v'] d IH]; simpl; [reflexivity|].
  destruct (k' =? k)%string; simpl; [reflexivity|].
  rewrite IH. now destruct (existsb _ d).
Qed.

(** X21: a log written in the same second as the log before it replaces
    it.  After two writes under the same file timestamp the directory is what
    the second write alone would have left, with one file more at most than
    before the two; so after a scan and an erasure logged in the same second
    [get_recent_logs] shows what it would show had the scan never been
    logged. *)
Theorem same_second_log_is_replaced :
  forall (d : Dir) (ts : string) (e1 e2 : Entry),
    snd (_write ts e2 (snd (_write ts e1 d))) = snd (_write ts e2 d)
    /\ List.length (snd (_write ts e2 (snd (_write ts e1 d))))
       <= S (List.length d)
    /\ forall (now1 now2 : string) (kw1 kw2 : Entry) (limit : Z),
         get_recent_logs limit
           (snd (log_erasure_operation now2 ts kw2
                   (snd (log_scan_operation now1 ts kw1 d))))
         = get_recent_logs limit (snd (log_erasure_operation now2 ts kw2 d)).
Proof.
  intros d ts e1 e2. unfold _write. cbn [snd].
  rewrite dict_set_twice. split; [reflexivity|]. split.
  - rewrite dict_set_keys_length. destruct (existsb _ d); lia.
  - intros now1 now2 kw1 kw2 limit.
    unfold log_erasure_operation, log_scan_operation, _write. cbn [snd].
    now rewrite dict_set_twice.
Qed.

Lemma string_ltb_irrefl (x : string) : String.ltb x x = false.
Proof.
  unfold String.ltb. pose proof (String.compare_antisym x x) as H.
  destruct (String.compare x x); try reflexivity. discriminate.
Qed.

Lemma sorted_reverse_greatest (name : string) (e : Entry) (d : Dir) :
  (forall name', In name' (map fst d) -> String.ltb name' name = true) ->
  exists rest, sorted_reverse (d ++ [(name, e)]) = (name, e) :: rest.
Proof.
  unfold sorted_reverse, sqlite.order_by_desc.
  induction d as [|[n' e'] d IH]; intro H; simpl.
  - now exists [].
  - destruct IH as [rest IH].
    { intros n Hn. apply H. now right. }
    rewrite IH. simpl. rewrite (H n') by now left. eauto.
Qed.

(** X22: an entry logged under a file name greater than every file name
    of the directory is the first that [get_recent_logs] returns, for every
    limit of one or more; and [get_recent_logs] never returns more entries
    than a limit that is not negative. *)
Theorem newest_log_comes_first :
  forall (d : Dir) (now ts : string) (kwargs : Entry) (limit : Z),
    (forall name', In name' (map fst d) ->
       String.ltb name' (file_name ts) = true) ->
    (0 < limit)%Z ->
    hd_error (get_recent_logs limit
                (snd (log_access_operation now ts kwargs d)))
    = Some (fst (log_access_operation now ts kwargs d))
    /\ (List.length (get_recent_logs limit
                       (snd (log_access_operation now ts kwargs d)))
        <= Z.to_nat limit).
Proof.
  intros d now ts kwargs limit Hnew Hlimit.
  unfold log_access_operation, _write. cbn [fst snd].
  rewrite dict_set_fresh.
  2:{ intros k Hk. apply Hnew in Hk. apply String.eqb_neq. intro E.
      subst k. now rewrite string_ltb_irrefl in Hk. }
  destruct (sorted_reverse_greatest (file_name ts)
              (make_entry "access" now kwargs) d Hnew) as [rest Hs].
  unfold get_recent_logs, slice_to. rewrite Hs.
  destruct (Z.ltb_spec limit 0) as [Hneg|_]; [lia|].
  rewrite length_map, length_firstn. split; [|lia].
  destruct (Z.to_nat limit) as [|n] eqn:Hn; [lia|]. reflexivity.
Qed.

Lemma newest_log_comes_first_witness :
  hd_error (get_recent_logs 20
              (snd (log_access_operation "2024-03-01T10:00:01" "20240301T100001"
                      [("entity_id", Str "E-000001"); ("user", Str "dpo")]
                      (snd (log_scan_operation "2024-03-01T10:00:00"
                              "20240301T100000" [("rows", Int 3)] [])))))
  = Some [("operation", Str "access");
          ("timestamp_utc", Str "2024-03-01T10:00:01Z");
          ("entity_id", Str "E-000001"); ("user", Str "dpo")].
Proof.
  refine (proj1 (newest_log_comes_first
                   (snd (log_scan_operation "2024-03-01T10:00:00"
                           "20240301T100000" [("rows", Int 3)] []))
                   "2024-03-01T10:00:01" "20240301T100001"
                   [("entity_id", Str "E-000001"); ("user", Str "dpo")] 20 _ _)).
  - intros name' H. vm_compute in H. destruct H as [<-|[]]. reflexivity.
  - lia.
Defined.

(** ** Reading a log back *)

Lemma dict_get_set_same {V : Type} (d : list (string * V)) (k : string) (v : V) :
  dict.get String.eqb (dict.set String.eqb d k v) k = Some v.
Proof.
  induction d as [|[k' v'] d IH]; simpl.
  - now rewrite String.eqb_refl.
  - destruct (String.eqb_spec k' k) as [E|E]; simpl.
    + now rewrite String.eqb_refl.
    + destruct (String.eqb_spec k' k); [contradiction | exact IH].
Qed.

Lemma dict_get_set_other {V : Type} (d : list (string * V)) (k k' : string)
    (v : V) :
  k' <> k ->
  dict.get String.eqb (dict.set String.eqb d k' v) k = dict.get String.eqb d k.
Proof.
  intro Hne. induction d as [|[k0 v0] d IH]; simpl.
  - destruct (String.eqb_spec k' k); [contradiction | reflexivity].
  - destruct (String.eqb_spec k0 k') as [E|E]; simpl.
    + subst k0. destruct (String.eqb_spec k' k); [contradiction | reflexivity].
    + destruct (k0 =? k)%string; [reflexivity | exact IH].
Qed.

Lemma update_get_absent (kwargs : Entry) (k : string) :
  ~ In k (map fst kwargs) ->
  forall e0,
    dict.get String.eqb
      (fold_left (fun e kv => dict.set String.eqb e (fst kv) (snd kv)) kwargs e0) k
    = dict.get String.eqb e0 k.
Proof.
  induction kwargs as [|[k' v'] kwargs IH]; intros Hout e0; simpl;
    [reflexivity|].
  rewrite IH by (intro Hin; apply Hout; now right).
  apply dict_get_set_other. intro E. apply Hout. now left.
Qed.

Lemma update_get_present (kwargs : Entry) (k : string) (v : json) :
  NoDup (map fst kwargs) -> In (k, v) kwargs ->
  forall e0,
    dict.get String.eqb
      (fold_left (fun e kv => dict.set String.eqb e (fst kv) (snd kv)) kwargs e0) k
    = Some v.
Proof.
  induction kwargs as [|[k' v'] kwargs IH]; intros Hnd Hin e0; [destruct Hin|].
  inversion Hnd as [|? ? Hfirst Hrest]; subst. simpl.
  destruct Hin as [Hin|Hin].
  - injection Hin as -> ->. rewrite update_get_absent by assumption.
    apply dict_get_set_same.
  - now apply IH.
Qed.

(** X23: the fields of a logged entry.  Every keyword argument is a field
    of the entry, with the value passed; the field ["operation"] holds the
    name of the operation of the method called when no keyword is named
    ["operation"], and the value of that keyword when there is one. *)
Theorem logged_entry_fields :
  forall (now ts : string) (kwargs : Entry) (d : Dir),
    NoDup (map fst kwargs) ->
    (forall k v, In (k, v) kwargs ->
       dict.get String.eqb (fst (log_erasure_operation now ts kwargs d)) k
       = Some v)
    /\ (~ In "operation" (map fst kwargs) ->
        dict.get String.eqb (fst (log_erasure_operation now ts kwargs d))
          "operation"
        = Some (Str "erasure")).
Proof.
  intros now ts kwargs d Hnd.
  unfold log_erasure_operation, _write, make_entry. cbn [fst]. split.
  - intros k v Hin. now apply update_get_present.
  - intro Hout. now rewrite update_get_absent.
Qed.

Lemma logged_entry_fields_witness :
  dict.get String.eqb
    (fst (log_erasure_operation "2024-03-01T10:00:00" "20240301T100000"
            [("entity_id", Str "E-000001"); ("operation", Str "scan")] []))
    "operation"
  = Some (Str "scan").
Proof.
  apply (proj1 (logged_entry_fields "2024-03-01T10:00:00" "20240301T100000"
                  [("entity_id", Str "E-000001"); ("operation", Str "scan")] []
                  ltac:(repeat constructor; simpl; intuition discriminate))).
  simpl. auto.
Defined.

Lemma insert_desc_In {A : Type} (key : A -> string) (x y : A) (l : list A) :
  In y (sqlite.insert_desc key x l) <-> y = x \/ In y l.
Proof.
  induction l as [|z l IH]; simpl; [intuition|].
  destruct (String.ltb (key x) (key z)); simpl; [rewrite IH|]; intuition.
Qed.

Lemma sorted_reverse_In (d : Dir) (f : string * Entry) :
  In f (sorted_reverse d) <-> In f d.
Proof.
  unfold sorted_reverse, sqlite.order_by_desc.
  induction d as [|g d IH]; simpl; [reflexivity|].
  rewrite insert_desc_In, IH. intuition.
Qed.

Lemma dict_set_In {V : Type} (d : list (string * V)) (k : string) (v : V) :
  In (k, v) (dict.set String.eqb d k v).
Proof.
  induction d as [|[k' v'] d IH]; simpl; [now left|].
  destruct (k' =? k)%string; [now left | now right].
Qed.

(** X24: an access logged with the keywords [entity_id] and [user] is
    found again: [get_logs_by_entity] of that entity and [get_logs_by_user]
    of that user both return the entry. *)
Theorem logged_access_is_found :
  forall (now ts e u : string) (kwargs : Entry) (d : Dir),
    NoDup (map fst kwargs) ->
    In ("entity_id", Str e) kwargs ->
    In ("user", Str u) kwargs ->
    In (fst (log_access_operation now ts kwargs d))
       (get_logs_by_entity e (snd (log_access_operation now ts kwargs d)))
    /\ In (fst (log_access_operation now ts kwargs d))
         (get_logs_by_user u (snd (log_access_operation now ts kwargs d))).
Proof.
  intros now ts e u kwargs d Hnd He Hu.
  unfold log_access_operation, _write. cbn [fst snd].
  assert (In (make_entry "access" now kwargs)
            (map snd (sorted_reverse
                        (dict.set String.eqb d (file_name ts)
                           (make_entry "access" now kwargs))))) as Hfile.
  { apply in_map_iff. exists (file_name ts, make_entry "access" now kwargs).
    split; [reflexivity|]. apply sorted_reverse_In, dict_set_In. }
  unfold get_logs_by_entity, get_logs_by_user. split.
  - apply filter_In. split; [exact Hfile|].
    unfold field_is, make_entry.
    rewrite (update_get_present kwargs "entity_id" (Str e) Hnd He).
    apply String.eqb_refl.
  - apply filter_In. split; [exact Hfile|].
    unfold field_is at 1, make_entry.
    rewrite (update_get_present kwargs "user" (Str u) Hnd Hu).
    now rewrite String.eqb_refl.
Qed.

Lemma logged_access_is_found_witness :
  In (fst (log_access_operation "2024-03-01T10:00:01" "20240301T100001"
             [("entity_id", Str "E-000001"); ("user", Str "dpo");
              ("purpose", Str "manual_lookup")] []))
     (get_logs_by_entity "E-000001"
        (snd (log_access_operation "2024-03-01T10:00:01" "20240301T100001"
                [("entity_id", Str "E-000001"); ("user", Str "dpo");
                 ("purpose", Str "manual_lookup")] []))).
Proof.
  apply (proj1 (logged_access_is_found "2024-03-01T10:00:01" "20240301T100001"
                  "E-000001" "dpo"
                  [("entity_id", Str "E-000001"); ("user", Str "dpo");
                   ("purpose", Str "manual_lookup")] []
                  ltac:(repeat constructor; simpl; intuition discriminate)
                  ltac:(simpl; auto) ltac:(simpl; auto))).
Defined.

(** * Erasure, seen from the reads *)

(** The tables after an erasure that succeeded. *)
Lemma erase_entity_erased (eid rb rs u now : string) (s s1 : Store) (n : nat) :
  erase_entity eid rb rs u now s = ((true, n), s1) ->
  entities s1
  = filter (fun e => negb (e_entity_id e =? eid)%string) (entities s)
  /\ fragments s1
     = filter (fun f => negb (f_entity_id f =? eid)%string) (fragments s).
Proof.
  unfold erase_entity.
  destruct (count_entities eid s =? 0); [discriminate|].
  unfold insert_erasure, delete_entity, delete_fragments_of.
  cbn [entities fragments erasures erasure_id].
  destruct (existsb _ (erasures s)); [discriminate|].
  intro H. injection H as _ Hs1. now subst s1.
Qed.

(** Whatever the query, a row of the answer is the summary of an entity of
    the store. *)
Lemma search_entities_incl (q : string) (s : Store) (rows : list Summary)
    (r : Summary) :
  search_entities q s = Ok rows -> In r rows ->
  exists e, In e (entities s) /\ r = summary e.
Proof.
  unfold search_entities. intros H Hr.
  destruct (join_where _ (entities s) (fragments s)) as [joined|x] eqn:Hjoin;
    [|discriminate].
  cbn [bind] in H.
  assert (rows = map summary
                   (firstn 50
                      (sqlite.order_by_desc updated_at (distinct [] joined))))
    as -> by congruence.
  apply in_map_iff in Hr. destruct Hr as [e [<- He]].
  apply firstn_incl in He.
  apply (Permutation_in _ (order_by_desc_perm _)), distinct_incl in He.
  exists e. split; [|reflexivity].
  now apply (join_where_incl _ _ _ _ _ Hjoin).
Qed.

Lemma list_entities_incl (limit : Z) (s : Store) (e : Entity) :
  In e (list_entities limit s) -> In e (entities s).
Proof.
  unfold list_entities, sqlite.limit. intro H.
  destruct (limit <? 0)%Z; [|apply firstn_incl in H];
    now apply (Permutation_in _ (order_by_desc_perm _)) in H.
Qed.

(** X25: an entity that [erase_entity] has erased is in no answer of
    [search_entities], whatever the query, wildcards included, and in no
    answer of [list_entities], whatever the limit. *)
Theorem erased_entity_is_not_read :
  forall (eid rb rs u now : string) (s s1 : Store) (n : nat),
    erase_entity eid rb rs u now s = ((true, n), s1) ->
    (forall q rows r, search_entities q s1 = Ok rows -> In r rows ->
       fst (fst (fst r)) <> eid)
    /\ (forall limit e, In e (list_entities limit s1) -> e_entity_id e <> eid).
Proof.
  intros eid rb rs u now s s1 n H.
  apply erase_entity_erased in H. destruct H as [He _].
  assert (forall e, In e (entities s1) -> e_entity_id e <> eid) as Hgone.
  { intros e Hin. rewrite He in Hin. apply filter_In in Hin.
    destruct Hin as [_ Hin]. now apply negb_true_iff, String.eqb_neq in Hin. }
  split.
  - intros q rows r Hq Hr. apply (search_entities_incl _ _ _ _ Hq) in Hr.
    destruct Hr as [e [Hin ->]]. now apply Hgone.
  - intros limit e Hin. apply list_entities_incl in Hin. now apply Hgone.
Qed.

Lemma erased_entity_is_not_read_witness :
  Forall (fun r : Summary => fst (fst (fst r)) <> "E-000001")
    match search_entities "%"
            (snd (erase_entity "E-000001" "dpo" "request" "1"
                    "2024-02-01T00:00:00" sample.db1)) with
    | Ok rows => rows
    | Raise _ => []
    end.
Proof.
  destruct (erase_entity "E-000001" "dpo" "request" "1" "2024-02-01T00:00:00"
              sample.db1) as [[b n] s1] eqn:H.
  assert (b = true) as Hb.
  { apply (f_equal (fun r => fst (fst r))) in H. vm_compute in H. now symmetry. }
  subst b. cbn [snd].
  destruct (search_entities "%" s1) as [rows|x] eqn:Hrows; [|constructor].
  apply Forall_forall. intros r Hr.
  exact (proj1 (erased_entity_is_not_read _ _ _ _ _ _ _ _ H) "%" rows r Hrows Hr).
Defined.

Lemma find_after_delete_other {A : Type} (key : A -> string) (k k' : string)
    (l : list A) :
  k <> k' ->
  find (fun x => (key x =? k)%string)
    (filter (fun x => negb (key x =? k')%string) l)
  = find (fun x => (key x =? k)%string) l.
Proof.
  intro Hne. induction l as [|x l IH]; simpl; [reflexivity|].
  destruct (String.eqb_spec (key x) k') as [E'|E']; simpl.
  - destruct (String.eqb_spec (key x) k); [congruence | exact IH].
  - destruct (key x =? k)%string; [reflexivity | exact IH].
Qed.

(** X26: [erase_entity] leaves every other entity as it was:
    [get_entity] on another id answers after the call what it answered
    before, whether the erasure succeeded or not. *)
Theorem erase_entity_frame :
  forall (eid rb rs u now other : string) (s : Store),
    other <> eid ->
    get_entity other (snd (erase_entity eid rb rs u now s))
    = get_entity other s.
Proof.
  intros eid rb rs u now other s Hne.
  destruct (erase_entity eid rb rs u now s) as [[[|] n] s1] eqn:H.
  - apply erase_entity_erased in H. destruct H as [He Hf].
    cbn [snd]. unfold get_entity. rewrite He, Hf.
    rewrite (find_after_delete_other e_entity_id) by assumption.
    now rewrite (select_after_delete_other f_entity_id) by assumption.
  - revert H. unfold erase_entity.
    destruct (count_entities eid s =? 0); [now intros [= _ <-]|].
    destruct (insert_erasure _ _); [discriminate | now intros [= _ <-]].
Qed.

Lemma erase_entity_frame_witness :
  get_entity "E-000002"
    (snd (erase_entity "E-000001" "dpo" "request" "1" "2024-02-01T00:00:00"
            sample.db1))
  = get_entity "E-000002" sample.db1.
Proof.
  apply erase_entity_frame. discriminate.
Defined.

(** X27: when the identifier drawn for the erasure record is taken,
    nothing is erased.  [erase_entity] on an entity of the store returns
    [(False, 0)], and [delete_fragment] on the last fragment of an entity
    returns [False] with the message of the integrity error; either way the
    database is as before the call, the deletions already made included. *)
Theorem erasure_id_taken_rolls_back :
  forall (rb rs u now : string) (s : Store),
    (forall eid,
        in_store eid s ->
        In ("ER-" ++ u)%string (map erasure_id (erasures s)) ->
        erase_entity eid rb rs u now s = ((false, 0), s))
    /\ (forall f,
          NoDup (map frag_id (fragments s)) ->
          In f (fragments s) ->
          count_fragments_of (f_entity_id f) s = 1 ->
          In ("E-" ++ u)%string (map erasure_id (erasures s)) ->
          delete_fragment (frag_id f) rb rs u now s
          = ((false, "UNIQUE constraint failed: erasures.erasure_id"), s)).
Proof.
  intros rb rs u now s. split.
  - intros eid Hin Htaken. unfold erase_entity.
    destruct (count_entities eid s =? 0) eqn:Hc.
    + apply Nat.eqb_eq, count_entities_zero in Hc. contradiction.
    + unfold insert_erasure, delete_entity, delete_fragments_of.
      cbn [entities fragments erasures erasure_id].
      apply (existsb_key erasure_id) in Htaken. now rewrite Htaken.
  - intros f Hnd Hin Hone Htaken. unfold delete_fragment.
    rewrite (find_key_unique frag_id) by assumption.
    unfold delete_fragment_body.
    pose proof (count_after_delete_row s f Hnd Hin) as Hcount.
    assert (count_fragments_of (f_entity_id f)
              (delete_fragment_row (frag_id f) s) = 0) as -> by lia.
    cbn [Nat.eqb]. unfold insert_erasure, delete_entity, delete_fragment_row.
    cbn [entities fragments erasures erasure_id].
    apply (existsb_key erasure_id) in Htaken. now rewrite Htaken.
Qed.

Lemma erasure_id_taken_rolls_back_witness :
  erase_entity "E-000001" "dpo" "request" "1" "2024-02-02T00:00:00"
    (snd (erase_entity "E-000002" "dpo" "request" "1" "2024-02-01T00:00:00"
            sample.db1))
  = ((false, 0),
     snd (erase_entity "E-000002" "dpo" "request" "1" "2024-02-01T00:00:00"
            sample.db1)).
Proof.
  apply (proj1 (erasure_id_taken_rolls_back "dpo" "request" "1"
                  "2024-02-02T00:00:00"
                  (snd (erase_entity "E-000002" "dpo" "request" "1"
                          "2024-02-01T00:00:00" sample.db1)))).
  - vm_compute. auto.
  - vm_compute. auto.
Defined.

(** * Entity ids within a pass and across passes *)

Lemma memb_cons (x k : string) (l : list string) :
  memb x (k :: l) = (x =? k)%string || memb x l.
Proof. reflexivity. Qed.

Lemma first_seen_snoc (l : list string) (x : string) :
  forall seen,
    first_seen seen (l ++ [x])
    = first_seen seen l ++ (if memb x seen || memb x l then [] else [x]).
Proof.
  induction l as [|k l IH]; intro seen; cbn [app first_seen].
  - change (memb x []) with false. rewrite orb_false_r.
    now destruct (memb x seen).
  - destruct (memb k seen) eqn:Hk.
    + rewrite IH, memb_cons.
      destruct (String.eqb_spec x k) as [->|_]; [|reflexivity].
      now rewrite Hk.
    + cbn [app]. rewrite IH, !memb_cons.
      now destruct (x =? k)%string, (memb x seen), (memb x l).
Qed.

(** One round of the loop brings in a new id exactly when it counts, and
    the id is the name of the count. *)
Lemma step_ids_in_order (t : Q) (st : State) (prev : list Fragment) (i : nat)
    (row : Fragment) :
  linked st prev i ->
  ids_in_order (mapping st) = map entity_name (seq 1 (entity_counter st)) ->
  ids_in_order (mapping (step t st i row))
  = map entity_name (seq 1 (entity_counter (step t st i row))).
Proof.
  intros Hl Hids. unfold step.
  destruct (Py.truthy (normalize (value row))); cbn [negb];
    [|exact Hids].
  destruct (match_existing (normalize (value row)) t row (entity_groups st))
    as [[[eid m] groups']|] eqn:Hmatch; cbn [mapping entity_counter];
    rewrite (mapping_set_next st prev i _ Hl); unfold ids_in_order in *;
    rewrite map_app; cbn [map snd entity_id]; rewrite first_seen_snoc;
    change (memb ?x []) with false; cbn [orb].
  - apply match_existing_Some in Hmatch; [|exact (linked_nonempty _ _ _ Hl)].
    destruct Hmatch as [_ [_ [Heid _]]].
    apply (linked_ids _ _ _ Hl), memb_In in Heid.
    rewrite Heid, app_nil_r. exact Hids.
  - assert (memb (entity_name (entity_counter st + 1))
              (map (fun kv => entity_id (snd kv)) (mapping st)) = false) as Hnew.
    { apply memb_false. intro Hin. apply (linked_ids _ _ _ Hl) in Hin.
      rewrite (linked_keys _ _ _ Hl) in Hin. apply in_map_iff in Hin.
      destruct Hin as [x [Hx Hseq]]. apply entity_name_inj in Hx.
      apply in_seq in Hseq. lia. }
    rewrite Hnew, Hids, Nat.add_1_r, seq_S, map_app. reflexivity.
Qed.

Lemma loop_ids_in_order (t : Q) (rows : list Fragment) :
  forall (st : State) (prev : list Fragment) (i : nat),
    linked st prev i ->
    ids_in_order (mapping st) = map entity_name (seq 1 (entity_counter st)) ->
    ids_in_order (mapping (loop t st i rows))
    = map entity_name (seq 1 (entity_counter (loop t st i rows))).
Proof.
  induction rows as [|row rows IH]; intros st prev i Hl Hids; simpl;
    [exact Hids|].
  destruct (step_linked t st prev i row Hl) as [Hl' _].
  apply (IH _ _ _ Hl'). now apply (step_ids_in_order t st prev).
Qed.

Lemma cluster_values_members (m : Mapping) (frags : list Fragment)
    (eid : string) :
  cluster_values m frags eid = map value (cluster_members m frags eid).
Proof.
  unfold cluster_values, cluster_members.
  induction m as [|[i info] m IH]; simpl; [reflexivity|].
  rewrite map_app, IH. f_equal.
  destruct (entity_id info =? eid)%string; [|reflexivity].
  now destruct (nth_error frags i).
Qed.

(** What a call that returned has stored under an id of the mapping,
    whatever was stored under it before. *)
Lemma save_mapping_replaces (ts : string) (u : nat -> nat -> string)
    (m : Mapping) (frags : list Fragment) (s s' : Store) (eid : string) :
  save_mapping ts u m frags s = (Ok tt, s') ->
  In eid (entity_ids m) ->
  stored_values eid s' = cluster_values m frags eid.
Proof.
  intros H Hin. apply save_mapping_shape in H.
  destruct H as [grouped [Hg [_ [_ [_ [_ [Hf _]]]]]]].
  unfold stored_values. rewrite Hf, filter_app.
  rewrite (select_after_clear_present f_entity_id) by assumption.
  cbn [app]. rewrite cluster_values_members.
  pose proof (group_members frags m eid [] grouped Hg (NoDup_nil _)) as Hm.
  cbn [group_of flat_map map app] in Hm.
  pose proof (group_rows_members ts u eid grouped 0) as Hrows.
  rewrite <- Hm, <- Hrows, map_map. reflexivity.
Qed.

(** C6, as the code has it: within one call of [cluster_fragments] the
    entity ids are E-000001, E-000002, ... in the order in which the clusters
    are formed, one for each fragment that starts a cluster: such a fragment
    gets an id that no earlier entry has, every other fragment kept gets the
    id of an earlier fragment that is within the threshold of it, and
    different counts give different ids.  Every call counts from E-000001
    again, so two calls that each keep at least one fragment have an id in
    common; and [save_mapping] stores under each id of the pass the
    fragments of that pass, whatever the store held under the id. *)
Theorem entity_ids_unique_within_pass :
  forall (frags : list Fragment) (t : Q),
    let m := fst (cluster_fragments frags t) in
    ids_in_order m = map entity_name (seq 1 (seeds t [] frags))
    /\ (forall i info, In (i, info) m -> justified t m frags i info)
    /\ Permutation (entity_ids m) (map entity_name (seq 1 (entity_count m)))
    /\ (forall a b, entity_name a = entity_name b -> a = b)
    /\ (forall (frags' : list Fragment) (t' : Q),
          m <> [] -> fst (cluster_fragments frags' t') <> [] ->
          In "E-000001" (entity_ids m)
          /\ In "E-000001" (entity_ids (fst (cluster_fragments frags' t'))))
    /\ (forall (ts : string) (u : nat -> nat -> string) (s s' : Store)
               (eid : string),
          save_mapping ts u m frags s = (Ok tt, s') ->
          In eid (entity_ids m) ->
          stored_values eid s' = cluster_values m frags eid).
Proof.
  assert (forall frags t,
             Permutation (entity_ids (fst (cluster_fragments frags t)))
               (map entity_name
                  (seq 1 (entity_count (fst (cluster_fragments frags t))))))
    as Hperm.
  { intros frags t. rewrite entity_count_of_pass, cluster_fragments_mapping.
    destruct (loop_linked t frags initial [] 0 linked_initial) as [Hl Hc].
    simpl in Hc. rewrite <- Hc. exact (entity_ids_of_pass _ _ _ Hl). }
  assert (forall frags t,
             fst (cluster_fragments frags t) <> [] ->
             In "E-000001" (entity_ids (fst (cluster_fragments frags t))))
    as Hfirst.
  { intros frags t Hne.
    apply (Permutation_in _ (Permutation_sym (Hperm frags t))).
    destruct (fst (cluster_fragments frags t)) as [|[i info] m] eqn:Hm;
      [congruence|].
    assert (In (entity_id info) (entity_ids ((i, info) :: m))) as Hin.
    { apply entity_ids_In. now left. }
    rewrite <- Hm in Hin.
    apply (Permutation_in _ (Hperm frags t)) in Hin.
    rewrite Hm in Hin.
    destruct (entity_count ((i, info) :: m)) as [|c]; [destruct Hin|].
    simpl. now left. }
  intros frags t m. subst m. split; [|split; [|repeat split]].
  - rewrite cluster_fragments_mapping.
    destruct (loop_linked t frags initial [] 0 linked_initial) as [_ Hc].
    simpl in Hc. rewrite <- Hc.
    apply (loop_ids_in_order t frags initial [] 0 linked_initial).
    reflexivity.
  - intros i info. rewrite cluster_fragments_mapping.
    apply (loop_justified t frags initial []).
    + exact linked_initial.
    + intros k l f [].
    + intros j info' [].
  - apply Hperm.
  - apply entity_name_inj.
  - now apply Hfirst.
  - now apply Hfirst.
  - intros ts u s s' eid. apply save_mapping_replaces.
Qed.

Lemma entity_ids_unique_within_pass_witness :
  ids_in_order (fst (cluster_fragments sample.scan (Py.float (85 # 100))))
  = ["E-000001"; "E-000002"]
  /\ In "E-000001"
       (entity_ids (fst (cluster_fragments sample.scan (Py.float (85 # 100)))))
  /\ In "E-000001"
       (entity_ids (fst (cluster_fragments sample.scan2 (Py.float (85 # 100)))))
  /\ stored_values "E-000001"
       (snd (save_mapping "2024-01-01T00:00:00" (sample.uuids "a")
               (fst (cluster_fragments sample.scan (Py.float (85 # 100))))
               sample.scan sample.db_clinic))
     = ["alice@example.com"; "alice@example.com"].
Proof.
  destruct (entity_ids_unique_within_pass sample.scan (Py.float (85 # 100)))
    as [Horder [_ [_ [_ [Hboth Hsave]]]]].
  split; [rewrite Horder; vm_compute; reflexivity|].
  split; [|split].
  - apply (Hboth sample.scan2 (Py.float (85 # 100))); vm_compute; discriminate.
  - apply (Hboth sample.scan2 (Py.float (85 # 100))); vm_compute; discriminate.
  - rewrite (Hsave "2024-01-01T00:00:00" (sample.uuids "a") sample.db_clinic
               (snd (save_mapping "2024-01-01T00:00:00" (sample.uuids "a")
                       (fst (cluster_fragments sample.scan (Py.float (85 # 100))))
                       sample.scan sample.db_clinic)) "E-000001").
    + vm_compute. reflexivity.
    + vm_compute. reflexivity.
    + vm_compute. auto.
Defined.
